(** * geographiclib-closure: geodesics on an ellipsoid

    A shallow embedding of the Closure port of GeographicLib's geodesic
    routines (GeoMath, Accumulator, Accuracy, GeodesicMask, Geodesic,
    GeodesicLine, Interface) and the properties of its capability masks,
    angle helpers, series evaluator, inverse solver, position solver and
    interface.

    The JavaScript code computes on IEEE doubles and calls the host's
    [Math] object.  The embedding is written once over an interface
    [Number] of the operations the code uses; it is instantiated with
      - [Double]: binary64 ([PrimFloat]) with the host's transcendental
        functions as a parameter, where the code can be run, and
      - [Ideal]: the real numbers, the arithmetic the algorithms are
        designed in, where the mathematical statements are proved.
    Capability masks are integers with the bit operations of [Z]; the
    orders and iteration counters are natural numbers. *)

From Stdlib Require Import String ZArith Bool List Lia Floats Reals Lra.
Import ListNotations.

Set Implicit Arguments.

(** ** The number interface *)

Declare Scope js_scope.
Delimit Scope js_scope with js.

Class Number (num : Type) : Type := {
  of_Z : Z -> num;                      (* an integer literal *)
  NaN : num;                            (* Number.NaN *)
  nadd : num -> num -> num;
  nsub : num -> num -> num;
  nmul : num -> num -> num;
  ndiv : num -> num -> num;
  nrem : num -> num -> num;             (* x % y *)
  nneg : num -> num;                    (* unary minus *)
  neqb : num -> num -> bool;            (* x == y *)
  nltb : num -> num -> bool;            (* x < y *)
  nleb : num -> num -> bool;            (* x <= y *)
  isFinite : num -> bool;
  Math_PI : num;
  Math_abs : num -> num;
  Math_sqrt : num -> num;
  Math_floor : num -> num;
  Math_sin : num -> num;
  Math_cos : num -> num;
  Math_atan : num -> num;
  Math_log : num -> num;
  Math_atan2 : num -> num -> num;
  Math_pow : num -> num -> num;
  Math_max : num -> num -> num;
  Math_min : num -> num -> num
}.

Notation "# z" := (of_Z z%Z) (at level 1, format "# z") : js_scope.
Infix "+" := nadd : js_scope.
Infix "-" := nsub : js_scope.
Infix "*" := nmul : js_scope.
Infix "/" := ndiv : js_scope.
Notation "- x" := (nneg x) : js_scope.
Infix "=?" := neqb (at level 70) : js_scope.
Infix "<?" := nltb (at level 70) : js_scope.
Infix "<=?" := nleb (at level 70) : js_scope.
Notation "x >? y" := (nltb y x) (at level 70) : js_scope.
Notation "x >=? y" := (nleb y x) (at level 70) : js_scope.
Notation "x !=? y" := (negb (neqb x y)) (at level 70) : js_scope.

(** Exceptions the code can raise. *)
Inductive JSError : Type := AssertionError | TypeError.

Inductive result (A : Type) : Type :=
| Ok (a : A)
| Throw (e : JSError).
Arguments Throw {A} e.

Section JS.

Context {num : Type} `{Number num}.
Local Open Scope js_scope.

(** JavaScript's truthiness of a number: neither zero nor NaN. *)
Definition truthy (x : num) : bool := (x !=? #0) && (x =? x).

(** [new Array(n)]: [n] holes.  A hole read in an arithmetic expression is
    [undefined], which arithmetic turns into NaN; holes are kept as NaN. *)
Definition new_Array (n : nat) : list num := repeat NaN n.

(** Reading [c[k]] in an arithmetic expression; past the end is [undefined]. *)
Definition aget (c : list num) (k : nat) : num := nth k c NaN.

(** Writing [c[k] = v]; a JavaScript array grows when [k] is past the end. *)
Fixpoint aset (c : list num) (k : nat) (v : num) : list num :=
  match k, c with
  | O, [] => [v]
  | O, _ :: c' => v :: c'
  | S k', [] => NaN :: aset [] k' v
  | S k', x :: c' => x :: aset c' k' v
  end.

End JS.

(** ** GeoMath *)

Module GeoMath.
Section Defs.

Context {num : Type} `{Number num}.
Local Open Scope js_scope.

Definition digits : nat := 53.
Definition epsilon : num := Math_pow (#1 / #2) #52.
Definition min : num := Math_pow (#1 / #2) #1022.
Definition degree : num := Math_PI / #180.

Definition sq (x : num) : num := x * x.

Definition hypot (x y : num) : num :=
  let x := Math_abs x in
  let y := Math_abs y in
  let a := Math_max x y in
  let b := Math_min x y / (if truthy a then a else #1) in
  a * Math_sqrt (#1 + b * b).

Definition log1p (x : num) : num :=
  let y := #1 + x in
  let z := y - #1 in
  if z =? #0 then x else x * Math_log y / z.

Definition atanh (x : num) : num :=
  let y := Math_abs x in
  let y := log1p (#2 * y / (#1 - y)) / #2 in
  if x <? #0 then - y else y.

Definition cbrt (x : num) : num :=
  let y := Math_pow (Math_abs x) (#1 / #3) in
  if x <? #0 then - y else y.

(** [GeoMath.sum]: the pair [(s, t)] of the rounded sum and its error. *)
Definition sum (u v : num) : num * num :=
  let s := u + v in
  let up := s - v in
  let vpp := s - up in
  let up := up - u in
  let vpp := vpp - v in
  (s, - (up + vpp)).

Definition angNormalize (x : num) : num :=
  if x >=? #180 then x - #360 else (if x <? #(-180) then x + #360 else x).

Definition angNormalize2 (x : num) : num := angNormalize (nrem x #360).

Definition angDiff (x y : num) : num :=
  let d := y - x in
  let yp := d + x in
  let xpp := yp - d in
  let yp := yp - y in
  let xpp := xpp - x in
  let t := xpp - yp in
  let d := if ((d - #180) + t) >? #0 then d - #360
           else if ((d + #180) + t) <=? #0 then d + #360
           else d in
  d + t.

End Defs.
End GeoMath.

(** ** Accumulator *)

Module Accumulator.
Section Defs.

Context {num : Type} `{Number num}.
Local Open Scope js_scope.

(** The two words of the running sum. *)
Record t : Type := mk {
  _s : num;
  _t : num
}.

(** [set(s, opt_t)] overwrites both words; the constructor is one call of
    it.  An argument left out is [undefined] ([None]). *)
Definition set (s : num) (opt_t : option num) : t :=
  mk s (match opt_t with Some t => t | None => #0 end).

Definition new (s : num) (opt_t : option num) : t := set s opt_t.

(** [add(y)]: the accumulator after the call. *)
Definition add (this : t) (y : num) : t :=
  let u := GeoMath.sum y (_t this) in
  let v := GeoMath.sum (fst u) (_s this) in
  let u := snd u in
  let s := fst v in
  let t := snd v in
  if s =? #0 then mk u t else mk s (t + u).

(** [sum(opt_y)]: with an argument, the sum a copy reaches by adding it. *)
Definition sum (this : t) (opt_y : option num) : num :=
  match opt_y with
  | None => _s this
  | Some y => _s (add (new (_s this) (Some (_t this))) y)
  end.

Definition Negate (this : t) : t :=
  mk (_s this * #(-1)) (_t this * #(-1)).

End Defs.

Arguments t : clear implicits.

End Accumulator.

(** ** Accuracy (the fields of the singleton) *)

Module Accuracy.
Section Defs.

Context {num : Type} `{Number num}.
Local Open Scope js_scope.

Definition GEOGRAPHICLIB_GEODESIC_ORDER : nat := 2.
Definition na1 : nat := GEOGRAPHICLIB_GEODESIC_ORDER.
Definition nc1 : nat := GEOGRAPHICLIB_GEODESIC_ORDER.
Definition nc1p : nat := GEOGRAPHICLIB_GEODESIC_ORDER.
Definition na2 : nat := GEOGRAPHICLIB_GEODESIC_ORDER.
Definition nc2 : nat := GEOGRAPHICLIB_GEODESIC_ORDER.
Definition na3 : nat := GEOGRAPHICLIB_GEODESIC_ORDER.
Definition na3x : nat := na3.
Definition nc3 : nat := GEOGRAPHICLIB_GEODESIC_ORDER.
Definition nc3x : nat := ((nc3 * (nc3 - 1)) / 2)%nat.
Definition nc4 : nat := GEOGRAPHICLIB_GEODESIC_ORDER.
Definition nc4x : nat := ((nc4 * (nc4 + 1)) / 2)%nat.
Definition maxit1 : nat := 20.
Definition maxit2 : nat := (maxit1 + GeoMath.digits + 10)%nat.
Definition tiny : num := Math_sqrt GeoMath.min.
Definition tol0 : num := GeoMath.epsilon.
Definition tol1 : num := #200 * tol0.
Definition tol2 : num := Math_sqrt tol0.
Definition tolb : num := tol0 * tol2.
Definition xthresh : num := #1000 * tol2.

End Defs.
End Accuracy.

(** ** GeodesicMask *)

Module GeodesicMask.
Definition CAP_NONE : Z := 0.
Definition CAP_C1 : Z := Z.shiftl 1 0.
Definition CAP_C1p : Z := Z.shiftl 1 1.
Definition CAP_C2 : Z := Z.shiftl 1 2.
Definition CAP_C3 : Z := Z.shiftl 1 3.
Definition CAP_C4 : Z := Z.shiftl 1 4.
Definition CAP_ALL : Z := 0x1F.
Definition OUT_ALL : Z := 0x7F80.
Definition NONE : Z := 0.
Definition LATITUDE : Z := Z.lor (Z.shiftl 1 7) CAP_NONE.
Definition LONGITUDE : Z := Z.lor (Z.shiftl 1 8) CAP_C3.
Definition AZIMUTH : Z := Z.lor (Z.shiftl 1 9) CAP_NONE.
Definition DISTANCE : Z := Z.lor (Z.shiftl 1 10) CAP_C1.
Definition DISTANCE_IN : Z := Z.lor (Z.lor (Z.shiftl 1 11) CAP_C1) CAP_C1p.
Definition REDUCEDLENGTH : Z := Z.lor (Z.lor (Z.shiftl 1 12) CAP_C1) CAP_C2.
Definition GEODESICSCALE : Z := Z.lor (Z.lor (Z.shiftl 1 13) CAP_C1) CAP_C2.
Definition AREA : Z := Z.lor (Z.shiftl 1 14) CAP_C4.
Definition ALL : Z := Z.lor OUT_ALL CAP_ALL.

(** The output flags by name, and a mask as the [|] of a set of them:
    the vocabulary a caller composes [caps] and [outmask] from. *)
Inductive flag : Type :=
| Latitude | Longitude | Azimuth | Distance | Distance_in
| Reducedlength | Geodesicscale | Area.

Definition value (f : flag) : Z :=
  match f with
  | Latitude => LATITUDE
  | Longitude => LONGITUDE
  | Azimuth => AZIMUTH
  | Distance => DISTANCE
  | Distance_in => DISTANCE_IN
  | Reducedlength => REDUCEDLENGTH
  | Geodesicscale => GEODESICSCALE
  | Area => AREA
  end.

Definition mask (fs : list flag) : Z :=
  fold_right (fun f m => Z.lor (value f) m) NONE fs.

Definition capabilities : list Z := [CAP_C1; CAP_C1p; CAP_C2; CAP_C3; CAP_C4].

(** The capability bits a mask contains. *)
Definition caps_of (m : Z) : list Z :=
  filter (fun c => negb (Z.land m c =? 0)%Z) capabilities.
End GeodesicMask.

(** A mask used as a condition: [if (m & FLAG)]. *)
Definition has (m flag : Z) : bool := negb (Z.land m flag =? 0)%Z.

(** ** Geodesic *)

Module Geodesic.
Section Defs.

Context {num : Type} `{Number num}.
Local Open Scope js_scope.

(** The ellipsoid: the fields the constructor fills. *)
Record t : Type := mk {
  _a : num;
  _f : num;
  _f1 : num;
  _e2 : num;
  _ep2 : num;
  _n : num;
  _b : num;
  _c2 : num;
  _etol2 : num;
  _A3x : list num;
  _C3x : list num;
  _C4x : list num
}.

(** [while (n--) { y1 = ar * y0 - y1 + c[--k]; y0 = ar * y1 - y0 + c[--k]; }]
    [k] is decremented [n + sinp] times in all, so it never passes zero. *)
Fixpoint SinCosSeries_loop (n : nat) (ar : num) (c : list num) (k : nat)
    (y0 y1 : num) : num * num :=
  match n with
  | O => (y0, y1)
  | S n' =>
      let k := pred k in
      let y1 := ar * y0 - y1 + aget c k in
      let k := pred k in
      let y0 := ar * y1 - y0 + aget c k in
      SinCosSeries_loop n' ar c k y0 y1
  end.

Definition SinCosSeries (sinp : bool) (sinx cosx : num) (c : list num)
    (n : nat) : num :=
  let k := (n + (if sinp then 1 else 0))%nat in
  let ar := #2 * (cosx - sinx) * (cosx + sinx) in
  let '(k, y0) := if Nat.odd n then (pred k, aget c (pred k)) else (k, #0) in
  let y1 := #0 in
  let n := Nat.div2 n in
  let '(y0, y1) := SinCosSeries_loop n ar c k y0 y1 in
  if sinp then #2 * sinx * cosx * y0 else cosx * (y0 - y1).

Definition AngRound (x : num) : num :=
  let z := #1 / #16 in
  let y := Math_abs x in
  let y := if y <? z then z - (z - y) else y in
  if x <? #0 then - y else y.

Definition Astroid (x y : num) : num :=
  let p := GeoMath.sq x in
  let q := GeoMath.sq y in
  let r := (p + q - #1) / #6 in
  if negb ((q =? #0) && (r <=? #0)) then
    let S := p * q / #4 in
    let r2 := GeoMath.sq r in
    let r3 := r * r2 in
    let disc := S * (S + #2 * r3) in
    let u := r in
    let u :=
      if disc >=? #0 then
        let T3 := S + r3 in
        let T3 := T3 + (if T3 <? #0 then - Math_sqrt disc else Math_sqrt disc) in
        let T := GeoMath.cbrt T3 in
        u + (T + (if T !=? #0 then r2 / T else #0))
      else
        let ang := Math_atan2 (Math_sqrt (- disc)) (- (S + r3)) in
        u + #2 * r * Math_cos (ang / #3) in
    let v := Math_sqrt (GeoMath.sq u + q) in
    let uv := if u <? #0 then q / (v - u) else u + v in
    let w := (uv - q) / (#2 * v) in
    uv / (Math_sqrt (uv + GeoMath.sq w) + w)
  else #0.

Definition A1m1f (eps : num) : num :=
  let eps2 := GeoMath.sq eps in
  let t := eps2 * (eps2 * (eps2 + #4) + #64) / #256 in
  (t + eps) / (#1 - eps).

Definition C1f (eps : num) (c : list num) : list num :=
  let eps2 := GeoMath.sq eps in
  let d := eps in
  let c := aset c 1 (d * ((#6 - eps2) * eps2 - #16) / #32) in
  let d := d * eps in
  let c := aset c 2 (d * ((#64 - #9 * eps2) * eps2 - #128) / #2048) in
  let d := d * eps in
  let c := aset c 3 (d * (#9 * eps2 - #16) / #768) in
  let d := d * eps in
  let c := aset c 4 (d * (#3 * eps2 - #5) / #512) in
  let d := d * eps in
  let c := aset c 5 (#(-7) * d / #1280) in
  let d := d * eps in
  aset c 6 (#(-7) * d / #2048).

Definition C1pf (eps : num) (c : list num) : list num :=
  let eps2 := GeoMath.sq eps in
  let d := eps in
  let c := aset c 1 (d * (eps2 * (#205 * eps2 - #432) + #768) / #1536) in
  let d := d * eps in
  let c := aset c 2 (d * (eps2 * (#4005 * eps2 - #4736) + #3840) / #12288) in
  let d := d * eps in
  let c := aset c 3 (d * (#116 - #225 * eps2) / #384) in
  let d := d * eps in
  let c := aset c 4 (d * (#2695 - #7173 * eps2) / #7680) in
  let d := d * eps in
  let c := aset c 5 (#3467 * d / #7680) in
  let d := d * eps in
  aset c 6 (#38081 * d / #61440).

Definition A2m1f (eps : num) : num :=
  let eps2 := GeoMath.sq eps in
  let t := eps2 * (eps2 * (#25 * eps2 + #36) + #64) / #256 in
  t * (#1 - eps) - eps.

Definition C2f (eps : num) (c : list num) : list num :=
  let eps2 := GeoMath.sq eps in
  let d := eps in
  let c := aset c 1 (d * (eps2 * (eps2 + #2) + #16) / #32) in
  let d := d * eps in
  let c := aset c 2 (d * (eps2 * (#35 * eps2 + #64) + #384) / #2048) in
  let d := d * eps in
  let c := aset c 3 (d * (#15 * eps2 + #80) / #768) in
  let d := d * eps in
  let c := aset c 4 (d * (#7 * eps2 + #35) / #512) in
  let d := d * eps in
  let c := aset c 5 (#63 * d / #1280) in
  let d := d * eps in
  aset c 6 (#77 * d / #2048).

(** The coefficient tables: [A3coeff], [C3coeff] and [C4coeff] write every
    entry of the order-6 tables, whatever the length the array was made with. *)
Definition A3coeff (n : num) : list num :=
  [ #1;
    (n - #1) / #2;
    (n * (#3 * n - #1) - #2) / #8;
    ((- n - #3) * n - #1) / #16;
    (#(-2) * n - #3) / #64;
    #(-3) / #128 ].

Definition C3coeff (n : num) : list num :=
  [ (#1 - n) / #4;
    (#1 - n * n) / #8;
    ((#3 - n) * n + #3) / #64;
    (#2 * n + #5) / #128;
    #3 / #128;
    ((n - #3) * n + #2) / #32;
    ((#(-3) * n - #2) * n + #3) / #64;
    (n + #3) / #128;
    #5 / #256;
    (n * (#5 * n - #9) + #5) / #192;
    (#9 - #10 * n) / #384;
    #7 / #512;
    (#7 - #14 * n) / #512;
    #7 / #512;
    #21 / #2560 ].

Definition C4coeff (n : num) : list num :=
  [ (n * (n * (n * (n * (#100 * n + #208) + #572) + #3432) - #12012) + #30030)
      / #45045;
    (n * (n * (n * (#64 * n + #624) - #4576) + #6864) - #3003) / #15015;
    (n * ((#14144 - #10656 * n) * n - #4576) - #858) / #45045;
    ((#(-224) * n - #4784) * n + #1573) / #45045;
    (#1088 * n + #156) / #45045;
    #97 / #15015;
    (n * (n * ((#(-64) * n - #624) * n + #4576) - #6864) + #3003) / #135135;
    (n * (n * (#5952 * n - #11648) + #9152) - #2574) / #135135;
    (n * (#5792 * n + #1040) - #1287) / #135135;
    (#468 - #2944 * n) / #135135;
    #1 / #9009;
    (n * ((#4160 - #1440 * n) * n - #4576) + #1716) / #225225;
    ((#4992 - #8448 * n) * n - #1144) / #225225;
    (#1856 * n - #936) / #225225;
    #8 / #10725;
    (n * (#3584 * n - #3328) + #1144) / #315315;
    (#1024 * n - #208) / #105105;
    #(-136) / #63063;
    (#832 - #2560 * n) / #405405;
    #(-128) / #135135;
    #128 / #99099 ].

(** [for (i = na3x; i;) v = eps * v + _A3x[--i]] *)
Fixpoint A3f_loop (g : t) (eps : num) (i : nat) (v : num) : num :=
  match i with
  | O => v
  | S i' => A3f_loop g eps i' (eps * v + aget (_A3x g) i')
  end.

Definition A3f (g : t) (eps : num) : num := A3f_loop g eps Accuracy.na3x #0.

(** [for (i = ...; i; --i) t = eps * t + x[--j]]: the sum and the new [j]. *)
Fixpoint horner (x : list num) (eps : num) (i j : nat) (t : num) : num * nat :=
  match i with
  | O => (t, j)
  | S i' => let j := pred j in horner x eps i' j (eps * t + aget x j)
  end.

(** [for (k = 1; k < order;) { mult *= eps; c[k++] *= mult; }] *)
Fixpoint scale_loop (eps : num) (todo k : nat) (mult : num) (c : list num)
    : list num :=
  match todo with
  | O => c
  | S todo' =>
      let mult := mult * eps in
      scale_loop eps todo' (S k) mult (aset c k (aget c k * mult))
  end.

(** The first loop of [C3f]: [c[k--] = t] for [k] from [nc3 - 1] down to 1. *)
Fixpoint C3f_rows (g : t) (eps : num) (k j : nat) (c : list num) : list num :=
  match k with
  | O => c
  | S k' =>
      let '(t, j) := horner (_C3x g) eps (Accuracy.nc3 - k) j #0 in
      C3f_rows g eps k' j (aset c k t)
  end.

Definition C3f (g : t) (eps : num) (c : list num) : list num :=
  let c := C3f_rows g eps (Accuracy.nc3 - 1) Accuracy.nc3x c in
  scale_loop eps (Accuracy.nc3 - 1) 1 #1 c.

(** The first loop of [C4f]: [c[--k] = t] for [k] from [nc4] down to 1. *)
Fixpoint C4f_rows (g : t) (eps : num) (k j : nat) (c : list num) : list num :=
  match k with
  | O => c
  | S k' =>
      let '(t, j) := horner (_C4x g) eps (Accuracy.nc4 - k + 1) j #0 in
      C4f_rows g eps k' j (aset c k' t)
  end.

Definition C4f (g : t) (eps : num) (c : list num) : list num :=
  let c := C4f_rows g eps Accuracy.nc4 Accuracy.nc4x c in
  scale_loop eps (Accuracy.nc4 - 1) 1 #1 c.

(** The constructor; a failed [goog.asserts.assert] raises. *)
Definition new (a f : num) : result t :=
  let f := if f <=? #1 then f else #1 / f in
  let f1 := #1 - f in
  let e2 := f * (#2 - f) in
  let ep2 := e2 / GeoMath.sq f1 in
  let n := f / (#2 - f) in
  let b := a * f1 in
  let c2 := (GeoMath.sq a +
             GeoMath.sq b *
             (if e2 =? #0 then #1 else
                (if e2 >? #0 then GeoMath.atanh (Math_sqrt e2)
                 else Math_atan (Math_sqrt (- e2))) /
                Math_sqrt (Math_abs e2))) / #2 in
  let etol2 := #1 / #10 * Accuracy.tol2 /
               Math_sqrt (Math_max (#1 / #1000) (Math_abs f) *
                          Math_min #1 (#1 - f / #2) / #2) in
  if negb (isFinite a && (a >? #0)) then Throw AssertionError
  else if negb (isFinite b && (b >? #0)) then Throw AssertionError
  else Ok (mk a f f1 e2 ep2 n b c2 etol2
              (A3coeff n) (C3coeff n) (C4coeff n)).

Record LengthsVals : Type := mkLengths {
  L_m0 : num;
  L_m12b : num;
  L_s12b : num;
  L_M12 : num;
  L_M21 : num
}.

Definition Lengths (g : t) (eps sig12 ssig1 csig1 dn1 ssig2 csig2 dn2
    cbet1 cbet2 : num) (scalep : bool) (C1a C2a : list num) : LengthsVals :=
  let C1a := C1f eps C1a in
  let C2a := C2f eps C2a in
  let A1m1 := A1m1f eps in
  let AB1 := (#1 + A1m1) * (SinCosSeries true ssig2 csig2 C1a Accuracy.nc1 -
                            SinCosSeries true ssig1 csig1 C1a Accuracy.nc1) in
  let A2m1 := A2m1f eps in
  let AB2 := (#1 + A2m1) * (SinCosSeries true ssig2 csig2 C2a Accuracy.nc2 -
                            SinCosSeries true ssig1 csig1 C2a Accuracy.nc2) in
  let m0 := A1m1 - A2m1 in
  let J12 := m0 * sig12 + (AB1 - AB2) in
  let m12b := dn2 * (csig1 * ssig2) - dn1 * (ssig1 * csig2) -
              csig1 * csig2 * J12 in
  let s12b := (#1 + A1m1) * sig12 + AB1 in
  if scalep then
    let csig12 := csig1 * csig2 + ssig1 * ssig2 in
    let t := _ep2 g * (cbet1 - cbet2) * (cbet1 + cbet2) / (dn1 + dn2) in
    mkLengths m0 m12b s12b
      (csig12 + (t * ssig2 - csig2 * J12) * ssig1 / dn1)
      (csig12 - (t * ssig1 - csig1 * J12) * ssig2 / dn2)
  else mkLengths m0 m12b s12b #0 #0.

Record InverseStartVals : Type := mkInverseStart {
  IS_dnm : num;
  IS_salp1 : num;
  IS_calp1 : num;
  IS_salp2 : num;
  IS_calp2 : num;
  IS_sig12 : num
}.

Definition InverseStart (g : t) (sbet1 cbet1 dn1 sbet2 cbet2 dn2 lam12 : num)
    (C1a C2a : list num) : InverseStartVals :=
  let sbet12 := sbet2 * cbet1 - cbet2 * sbet1 in
  let cbet12 := cbet2 * cbet1 + sbet2 * sbet1 in
  let sig12 := #(-1) in
  let sbet12a := sbet2 * cbet1 in
  let sbet12a := sbet12a + cbet2 * sbet1 in
  let shortline := (cbet12 >=? #0) && (sbet12 <? #1 / #2) &&
                   (cbet2 * lam12 <? #1 / #2) in
  let omg12 := lam12 in
  let '(dnm, omg12) :=
    if shortline then
      let sbetm2 := GeoMath.sq (sbet1 + sbet2) in
      let sbetm2 := sbetm2 / (sbetm2 + GeoMath.sq (cbet1 + cbet2)) in
      let dnm := Math_sqrt (#1 + _ep2 g * sbetm2) in
      (dnm, omg12 / (_f1 g * dnm))
    else (#0, omg12) in
  let somg12 := Math_sin omg12 in
  let comg12 := Math_cos omg12 in
  let salp1 := cbet2 * somg12 in
  let calp1 :=
    if comg12 >=? #0
    then sbet12 + cbet2 * sbet1 * GeoMath.sq somg12 / (#1 + comg12)
    else sbet12a - cbet2 * sbet1 * GeoMath.sq somg12 / (#1 - comg12) in
  let ssig12 := GeoMath.hypot salp1 calp1 in
  let csig12 := sbet1 * sbet2 + cbet1 * cbet2 * comg12 in
  (* the fields before the final normalisation of (salp1, calp1) *)
  let '(salp1, calp1, salp2, calp2, sig12) :=
    if shortline && (ssig12 <? _etol2 g) then
      let salp2 := cbet1 * somg12 in
      let calp2 := sbet12 - cbet1 * sbet2 *
                   (if comg12 >=? #0 then GeoMath.sq somg12 / (#1 + comg12)
                    else #1 - comg12) in
      let t := GeoMath.hypot salp2 calp2 in
      (salp1, calp1, salp2 / t, calp2 / t, Math_atan2 ssig12 csig12)
    else if (Math_abs (_n g) >? #1 / #10) || (csig12 >=? #0) ||
            (ssig12 >=? #6 * Math_abs (_n g) * Math_PI * GeoMath.sq cbet1)
    then (salp1, calp1, #0, #0, sig12)
    else
      let '(x, y, lamscale) :=
        if _f g >=? #0 then
          let k2 := GeoMath.sq sbet1 * _ep2 g in
          let eps := k2 / (#2 * (#1 + Math_sqrt (#1 + k2)) + k2) in
          let lamscale := _f g * cbet1 * A3f g eps * Math_PI in
          let betscale := lamscale * cbet1 in
          ((lam12 - Math_PI) / lamscale, sbet12a / betscale, lamscale)
        else
          let cbet12a := cbet2 * cbet1 - sbet2 * sbet1 in
          let bet12a := Math_atan2 sbet12a cbet12a in
          let nvals := Lengths g (_n g) (Math_PI + bet12a)
                         sbet1 (- cbet1) dn1 sbet2 cbet2 dn2
                         cbet1 cbet2 false C1a C2a in
          let m12b := L_m12b nvals in
          let m0 := L_m0 nvals in
          let x := #(-1) + m12b / (cbet1 * cbet2 * m0 * Math_PI) in
          let betscale := if x <? - (#1 / #100) then sbet12a / x
                          else - _f g * GeoMath.sq cbet1 * Math_PI in
          let lamscale := betscale / cbet1 in
          (x, (lam12 - Math_PI) / lamscale, lamscale) in
      if (y >? - Accuracy.tol1) && (x >? #(-1) - Accuracy.xthresh) then
        if _f g >=? #0 then
          let salp1 := Math_min #1 (- x) in
          (salp1, - Math_sqrt (#1 - GeoMath.sq salp1), #0, #0, sig12)
        else
          let calp1 := Math_max (if x >? - Accuracy.tol1 then #0 else #(-1)) x in
          (Math_sqrt (#1 - GeoMath.sq calp1), calp1, #0, #0, sig12)
      else
        let k := Astroid x y in
        let omg12a := lamscale * (if _f g >=? #0 then - x * k / (#1 + k)
                                  else - y * (#1 + k) / k) in
        let somg12 := Math_sin omg12a in
        let comg12 := - Math_cos omg12a in
        (cbet2 * somg12,
         sbet12a - cbet2 * sbet1 * GeoMath.sq somg12 / (#1 - comg12),
         #0, #0, sig12) in
  if salp1 >? #0 then
    let t := GeoMath.hypot salp1 calp1 in
    mkInverseStart dnm (salp1 / t) (calp1 / t) salp2 calp2 sig12
  else mkInverseStart dnm #1 #0 salp2 calp2 sig12.

Record Lambda12Vals : Type := mkLambda12 {
  La_ssig1 : num;
  La_csig1 : num;
  La_salp2 : num;
  La_calp2 : num;
  La_ssig2 : num;
  La_csig2 : num;
  La_sig12 : num;
  La_eps : num;
  La_domg12 : num;
  La_lam12 : num;
  La_dlam12 : num
}.

Definition Lambda12 (g : t) (sbet1 cbet1 dn1 sbet2 cbet2 dn2 salp1 calp1 : num)
    (diffp : bool) (C1a C2a C3a : list num) : Lambda12Vals :=
  let calp1 := if (sbet1 =? #0) && (calp1 =? #0) then - Accuracy.tiny
               else calp1 in
  let salp0 := salp1 * cbet1 in
  let calp0 := GeoMath.hypot calp1 (salp1 * sbet1) in
  let ssig1 := sbet1 in
  let somg1 := salp0 * sbet1 in
  let comg1 := calp1 * cbet1 in
  let csig1 := comg1 in
  let t := GeoMath.hypot ssig1 csig1 in
  let ssig1 := ssig1 / t in
  let csig1 := csig1 / t in
  let salp2 := if cbet2 !=? cbet1 then salp0 / cbet2 else salp1 in
  let calp2 :=
    if (cbet2 !=? cbet1) || (Math_abs sbet2 !=? - sbet1) then
      Math_sqrt (GeoMath.sq (calp1 * cbet1) +
                 (if cbet1 <? - sbet1
                  then (cbet2 - cbet1) * (cbet1 + cbet2)
                  else (sbet1 - sbet2) * (sbet1 + sbet2))) / cbet2
    else Math_abs calp1 in
  let ssig2 := sbet2 in
  let somg2 := salp0 * sbet2 in
  let comg2 := calp2 * cbet2 in
  let csig2 := comg2 in
  let t := GeoMath.hypot ssig2 csig2 in
  let ssig2 := ssig2 / t in
  let csig2 := csig2 / t in
  let sig12 := Math_atan2 (Math_max (csig1 * ssig2 - ssig1 * csig2) #0)
                          (csig1 * csig2 + ssig1 * ssig2) in
  let omg12 := Math_atan2 (Math_max (comg1 * somg2 - somg1 * comg2) #0)
                          (comg1 * comg2 + somg1 * somg2) in
  let k2 := GeoMath.sq calp0 * _ep2 g in
  let eps := k2 / (#2 * (#1 + Math_sqrt (#1 + k2)) + k2) in
  let C3a := C3f g eps C3a in
  let B312 := SinCosSeries true ssig2 csig2 C3a (Accuracy.nc3 - 1) -
              SinCosSeries true ssig1 csig1 C3a (Accuracy.nc3 - 1) in
  let h0 := - _f g * A3f g eps in
  let domg12 := salp0 * h0 * (sig12 + B312) in
  let lam12 := omg12 + domg12 in
  let dlam12 :=
    if diffp then
      if calp2 =? #0 then #(-2) * _f1 g * dn1 / sbet1
      else
        let nvals := Lengths g eps sig12 ssig1 csig1 dn1 ssig2 csig2 dn2
                       cbet1 cbet2 false C1a C2a in
        L_m12b nvals * (_f1 g / (calp2 * cbet2))
    else #0 in
  mkLambda12 ssig1 csig1 salp2 calp2 ssig2 csig2 sig12 eps domg12 lam12 dlam12.

(** *** GenInverse

    The function is one body in the source; here it is cut at its comments
    into the reduction to the canonical configuration, the three solution
    strategies working on the function's local variables ([Sol]), the area
    and the restoration of the signs. *)

Record InverseVals : Type := mkInverse {
  inv_M12 : num;
  inv_M21 : num;
  inv_a12 : num;
  inv_s12 : num;
  inv_m12 : num;
  inv_S12 : num;
  inv_azi1 : num;
  inv_azi2 : num
}.

(** The canonical configuration: [0 <= |lat1| <= |lat2|], [lon12 >= 0]. *)
Record Canon : Type := mkCanon {
  c_lat1 : num;
  c_lat2 : num;
  c_lon12 : num;
  c_swapp : num;
  c_lonsign : num;
  c_latsign : num
}.

Definition canonical (lat1 lon1 lat2 lon2 : num) : Canon :=
  let lon12 := GeoMath.angDiff (GeoMath.angNormalize lon1)
                               (GeoMath.angNormalize lon2) in
  let lon12 := AngRound lon12 in
  let lonsign := if lon12 >=? #0 then #1 else #(-1) in
  let lon12 := lon12 * lonsign in
  let lat1 := AngRound lat1 in
  let lat2 := AngRound lat2 in
  let swapp := if Math_abs lat1 >=? Math_abs lat2 then #1 else #(-1) in
  let '(lonsign, lat1, lat2) :=
    if swapp <? #0 then (lonsign * #(-1), lat2, lat1)
    else (lonsign, lat1, lat2) in
  let latsign := if lat1 <? #0 then #1 else #(-1) in
  mkCanon (lat1 * latsign) (lat2 * latsign) lon12 swapp lonsign latsign.

(** Reduced latitudes and the quantities derived from them. *)
Record Reduced : Type := mkReduced {
  r_sbet1 : num;
  r_cbet1 : num;
  r_sbet2 : num;
  r_cbet2 : num;
  r_dn1 : num;
  r_dn2 : num;
  r_lam12 : num;
  r_slam12 : num;
  r_clam12 : num
}.

Definition reduced (g : t) (lat1 lat2 lon12 : num) : Reduced :=
  let phi := lat1 * GeoMath.degree in
  let sbet1 := _f1 g * Math_sin phi in
  let cbet1 := if lat1 =? #(-90) then Accuracy.tiny else Math_cos phi in
  let t := GeoMath.hypot sbet1 cbet1 in
  let sbet1 := sbet1 / t in
  let cbet1 := cbet1 / t in
  let phi := lat2 * GeoMath.degree in
  let sbet2 := _f1 g * Math_sin phi in
  let cbet2 := if Math_abs lat2 =? #90 then Accuracy.tiny else Math_cos phi in
  let t := GeoMath.hypot sbet2 cbet2 in
  let sbet2 := sbet2 / t in
  let cbet2 := cbet2 / t in
  let '(sbet2, cbet2) :=
    if cbet1 <? - sbet1 then
      if cbet2 =? cbet1
      then (if sbet2 <? #0 then sbet1 else - sbet1, cbet2)
      else (sbet2, cbet2)
    else
      if Math_abs sbet2 =? - sbet1 then (sbet2, cbet1) else (sbet2, cbet2) in
  let dn1 := Math_sqrt (#1 + _ep2 g * GeoMath.sq sbet1) in
  let dn2 := Math_sqrt (#1 + _ep2 g * GeoMath.sq sbet2) in
  let lam12 := lon12 * GeoMath.degree in
  let slam12 := if lon12 =? #180 then #0 else Math_sin lam12 in
  let clam12 := Math_cos lam12 in
  mkReduced sbet1 cbet1 sbet2 cbet2 dn1 dn2 lam12 slam12 clam12.

(** The local variables the strategies assign. *)
Record Sol : Type := mkSol {
  s_salp1 : num;
  s_calp1 : num;
  s_salp2 : num;
  s_calp2 : num;
  s_sig12 : num;
  s_s12x : num;
  s_m12x : num;
  s_M12 : num;      (* vals.M12 *)
  s_M21 : num;      (* vals.M21 *)
  s_a12 : num;      (* vals.a12 *)
  s_omg12 : num;
  s_meridian : bool
}.

Definition Sol0 (meridian : bool) : Sol :=
  mkSol #0 #0 #0 #0 #0 #0 #0 #0 #0 #0 #0 meridian.

(** [if (meridian) { ... }]: the endpoints on one meridian. *)
Definition meridional (g : t) (r : Reduced) (scalep : bool) (C1a C2a : list num)
    (s : Sol) : Sol :=
  let calp1 := r_clam12 r in
  let salp1 := r_slam12 r in
  let calp2 := #1 in
  let salp2 := #0 in
  let ssig1 := r_sbet1 r in
  let csig1 := calp1 * r_cbet1 r in
  let ssig2 := r_sbet2 r in
  let csig2 := calp2 * r_cbet2 r in
  let sig12 := Math_atan2 (Math_max (csig1 * ssig2 - ssig1 * csig2) #0)
                          (csig1 * csig2 + ssig1 * ssig2) in
  let nvalsx := Lengths g (_n g) sig12 ssig1 csig1 (r_dn1 r) ssig2 csig2
                  (r_dn2 r) (r_cbet1 r) (r_cbet2 r) scalep C1a C2a in
  let s12x := L_s12b nvalsx in
  let m12x := L_m12b nvalsx in
  let M12 := if scalep then L_M12 nvalsx else s_M12 s in
  let M21 := if scalep then L_M21 nvalsx else s_M21 s in
  if (sig12 <? #1) || (m12x >=? #0) then
    mkSol salp1 calp1 salp2 calp2 sig12 (s12x * _b g) (m12x * _b g) M12 M21
          (sig12 / GeoMath.degree) (s_omg12 s) true
  else
    mkSol salp1 calp1 salp2 calp2 sig12 s12x m12x M12 M21
          (s_a12 s) (s_omg12 s) false.

(** The test of the equatorial branch, without [!meridian]. *)
Definition equatorial_test (g : t) (r : Reduced) : bool :=
  (r_sbet1 r =? #0) &&
  ((_f g <=? #0) || (r_lam12 r <=? Math_PI - _f g * Math_PI)).

(** The geodesic runs along the equator. *)
Definition equatorial (g : t) (r : Reduced) (lon12 : num) (scalep : bool)
    (s : Sol) : Sol :=
  let s12x := _a g * r_lam12 r in
  let sig12 := r_lam12 r / _f1 g in
  let omg12 := sig12 in
  let m12x := _b g * Math_sin sig12 in
  mkSol #1 #0 #1 #0 sig12 s12x m12x
        (if scalep then Math_cos sig12 else s_M12 s)
        (if scalep then Math_cos sig12 else s_M21 s)
        (lon12 / _f1 g) omg12 (s_meridian s).

(** The variables of the Newton/bisection loop. *)
Record LoopState : Type := mkLoop {
  lp_salp1 : num;
  lp_calp1 : num;
  lp_salp1a : num;
  lp_calp1a : num;
  lp_salp1b : num;
  lp_calp1b : num;
  lp_tripn : bool;
  lp_tripb : bool;
  lp_salp2 : num;
  lp_calp2 : num;
  lp_sig12 : num;
  lp_ssig1 : num;
  lp_csig1 : num;
  lp_ssig2 : num;
  lp_csig2 : num;
  lp_eps : num;
  lp_omg12 : num
}.

(** How one pass through the loop body ends: [break], the [continue] after a
    Newton step, or the bisection at the end of the body. *)
Inductive Step : Type := Converged | Newton | Bisect.

Definition loop_body (g : t) (r : Reduced) (C1a C2a C3a : list num)
    (numit : nat) (st : LoopState) : LoopState * Step :=
  let salp1 := lp_salp1 st in
  let calp1 := lp_calp1 st in
  let nvals := Lambda12 g (r_sbet1 r) (r_cbet1 r) (r_dn1 r)
                 (r_sbet2 r) (r_cbet2 r) (r_dn2 r) salp1 calp1
                 (numit <? Accuracy.maxit1)%nat C1a C2a C3a in
  let v := La_lam12 nvals - r_lam12 r in
  let st1 := mkLoop salp1 calp1 (lp_salp1a st) (lp_calp1a st)
               (lp_salp1b st) (lp_calp1b st) (lp_tripn st) (lp_tripb st)
               (La_salp2 nvals) (La_calp2 nvals) (La_sig12 nvals)
               (La_ssig1 nvals) (La_csig1 nvals) (La_ssig2 nvals)
               (La_csig2 nvals) (La_eps nvals) (La_domg12 nvals) in
  let dv := La_dlam12 nvals in
  if lp_tripb st ||
     negb (Math_abs v >=? (if lp_tripn st then #8 else #2) * Accuracy.tol0)
  then (st1, Converged)
  else
    let '(salp1a, calp1a, salp1b, calp1b) :=
      if (v >? #0) && ((numit <? Accuracy.maxit1)%nat ||
                       (calp1 / salp1 >? lp_calp1b st / lp_salp1b st))
      then (lp_salp1a st, lp_calp1a st, salp1, calp1)
      else if (v <? #0) && ((numit <? Accuracy.maxit1)%nat ||
                            (calp1 / salp1 <? lp_calp1a st / lp_salp1a st))
      then (salp1, calp1, lp_salp1b st, lp_calp1b st)
      else (lp_salp1a st, lp_calp1a st, lp_salp1b st, lp_calp1b st) in
    let upd salp1 calp1 tripn tripb :=
      mkLoop salp1 calp1 salp1a calp1a salp1b calp1b tripn tripb
             (lp_salp2 st1) (lp_calp2 st1) (lp_sig12 st1) (lp_ssig1 st1)
             (lp_csig1 st1) (lp_ssig2 st1) (lp_csig2 st1) (lp_eps st1)
             (lp_omg12 st1) in
    let bisect :=
      let salp1 := (salp1a + salp1b) / #2 in
      let calp1 := (calp1a + calp1b) / #2 in
      let t := GeoMath.hypot salp1 calp1 in
      let salp1 := salp1 / t in
      let calp1 := calp1 / t in
      let tripb :=
        (Math_abs (salp1a - salp1) + (calp1a - calp1) <? Accuracy.tolb) ||
        (Math_abs (salp1 - salp1b) + (calp1 - calp1b) <? Accuracy.tolb) in
      (upd salp1 calp1 false tripb, Bisect) in
    if (numit <? Accuracy.maxit1)%nat && (dv >? #0) then
      let dalp1 := - v / dv in
      let sdalp1 := Math_sin dalp1 in
      let cdalp1 := Math_cos dalp1 in
      let nsalp1 := salp1 * cdalp1 + calp1 * sdalp1 in
      if (nsalp1 >? #0) && (Math_abs dalp1 <? Math_PI) then
        let calp1 := calp1 * cdalp1 - salp1 * sdalp1 in
        let salp1 := Math_max #0 nsalp1 in
        let t := GeoMath.hypot salp1 calp1 in
        let salp1 := salp1 / t in
        let calp1 := calp1 / t in
        (upd salp1 calp1 (Math_abs v <=? #16 * Accuracy.tol0) (lp_tripb st),
         Newton)
      else bisect
    else bisect.

(** [for (...; numit < maxit2; ++numit) body]: [todo] is [maxit2 - numit], the
    passes the loop condition still allows.  The result carries, besides the
    variables, how each pass ended. *)
Fixpoint solve_loop (g : t) (r : Reduced) (C1a C2a C3a : list num)
    (todo numit : nat) (st : LoopState) : LoopState * list Step :=
  match todo with
  | O => (st, [])
  | S todo' =>
      match loop_body g r C1a C2a C3a numit st with
      | (st', Converged) => (st', [Converged])
      | (st', k) =>
          let '(st'', ks) := solve_loop g r C1a C2a C3a todo' (S numit) st' in
          (st'', k :: ks)
      end
  end.

(** [else if (!meridian) { ... }]: the starting guess and its refinement. *)
Definition general (g : t) (r : Reduced) (scalep : bool)
    (C1a C2a C3a : list num) (s : Sol) : Sol * list Step :=
  let nvals := InverseStart g (r_sbet1 r) (r_cbet1 r) (r_dn1 r)
                 (r_sbet2 r) (r_cbet2 r) (r_dn2 r) (r_lam12 r) C1a C2a in
  let sig12 := IS_sig12 nvals in
  let salp1 := IS_salp1 nvals in
  let calp1 := IS_calp1 nvals in
  if sig12 >=? #0 then
    let dnm := IS_dnm nvals in
    (mkSol salp1 calp1 (IS_salp2 nvals) (IS_calp2 nvals) sig12
           (sig12 * _b g * dnm)
           (GeoMath.sq dnm * _b g * Math_sin (sig12 / dnm))
           (if scalep then Math_cos (sig12 / dnm) else s_M12 s)
           (if scalep then Math_cos (sig12 / dnm) else s_M21 s)
           (sig12 / GeoMath.degree)
           (r_lam12 r / (_f1 g * dnm)) (s_meridian s), [])
  else
    let st0 := mkLoop salp1 calp1 Accuracy.tiny #1 Accuracy.tiny #(-1)
                 false false (s_salp2 s) (s_calp2 s) sig12 #0 #0 #0 #0 #0
                 (s_omg12 s) in
    let '(st, steps) := solve_loop g r C1a C2a C3a Accuracy.maxit2 0 st0 in
    let nvals := Lengths g (lp_eps st) (lp_sig12 st) (lp_ssig1 st) (lp_csig1 st)
                   (r_dn1 r) (lp_ssig2 st) (lp_csig2 st) (r_dn2 r)
                   (r_cbet1 r) (r_cbet2 r) scalep C1a C2a in
    (mkSol (lp_salp1 st) (lp_calp1 st) (lp_salp2 st) (lp_calp2 st)
           (lp_sig12 st)
           (L_s12b nvals * _b g) (L_m12b nvals * _b g)
           (if scalep then L_M12 nvals else s_M12 s)
           (if scalep then L_M21 nvals else s_M21 s)
           (lp_sig12 st / GeoMath.degree)
           (r_lam12 r - lp_omg12 st) (s_meridian s), steps).

(** The strategies in their priority order, on the canonical configuration. *)
Definition solve (g : t) (lat1 lat2 lon12 : num) (outmask : Z)
    : Reduced * Sol * list Step :=
  let r := reduced g lat1 lat2 lon12 in
  let C1a := new_Array (Accuracy.nc1 + 1) in
  let C2a := new_Array (Accuracy.nc2 + 1) in
  let C3a := new_Array Accuracy.nc3 in
  let scalep := has outmask GeodesicMask.GEODESICSCALE in
  let meridian := (lat1 =? #(-90)) || (r_slam12 r =? #0) in
  let s := Sol0 meridian in
  let s := if meridian then meridional g r scalep C1a C2a s else s in
  if negb (s_meridian s) && equatorial_test g r then
    (r, equatorial g r lon12 scalep s, [])
  else if negb (s_meridian s) then
    let '(s, steps) := general g r scalep C1a C2a C3a s in (r, s, steps)
  else (r, s, []).

(** [if (outmask & AREA) { ... }] up to [vals.S12 += this._c2 * alp12]. *)
Definition area (g : t) (r : Reduced) (s : Sol) : num :=
  let salp1 := s_salp1 s in
  let calp1 := s_calp1 s in
  let salp2 := s_salp2 s in
  let calp2 := s_calp2 s in
  let salp0 := salp1 * r_cbet1 r in
  let calp0 := GeoMath.hypot calp1 (salp1 * r_sbet1 r) in
  let S12 :=
    if (calp0 !=? #0) && (salp0 !=? #0) then
      let ssig1 := r_sbet1 r in
      let csig1 := calp1 * r_cbet1 r in
      let ssig2 := r_sbet2 r in
      let csig2 := calp2 * r_cbet2 r in
      let k2 := GeoMath.sq calp0 * _ep2 g in
      let eps := k2 / (#2 * (#1 + Math_sqrt (#1 + k2)) + k2) in
      let A4 := GeoMath.sq (_a g) * calp0 * salp0 * _e2 g in
      let t := GeoMath.hypot ssig1 csig1 in
      let ssig1 := ssig1 / t in
      let csig1 := csig1 / t in
      let t := GeoMath.hypot ssig2 csig2 in
      let ssig2 := ssig2 / t in
      let csig2 := csig2 / t in
      let C4a := C4f g eps (new_Array Accuracy.nc4) in
      let B41 := SinCosSeries false ssig1 csig1 C4a Accuracy.nc4 in
      let B42 := SinCosSeries false ssig2 csig2 C4a Accuracy.nc4 in
      A4 * (B42 - B41)
    else #0 in
  let alp12 :=
    if negb (s_meridian s) && (s_omg12 s <? #3 / #4 * Math_PI) &&
       (r_sbet2 r - r_sbet1 r <? #7 / #4) then
      let somg12 := Math_sin (s_omg12 s) in
      let domg12 := #1 + Math_cos (s_omg12 s) in
      let dbet1 := #1 + r_cbet1 r in
      let dbet2 := #1 + r_cbet2 r in
      #2 * Math_atan2 (somg12 * (r_sbet1 r * dbet2 + r_sbet2 r * dbet1))
                      (domg12 * (r_sbet1 r * r_sbet2 r + dbet1 * dbet2))
    else
      let salp12 := salp2 * calp1 - calp2 * salp1 in
      let calp12 := calp2 * calp1 + salp2 * salp1 in
      let '(salp12, calp12) :=
        if (salp12 =? #0) && (calp12 <? #0)
        then (Accuracy.tiny * calp1, #(-1))
        else (salp12, calp12) in
      Math_atan2 salp12 calp12 in
  S12 + _c2 g * alp12.

(** The outputs: the mask selects the fields, the signs of the canonical
    reduction are undone. *)
Definition outputs (g : t) (c : Canon) (r : Reduced) (s : Sol) (outmask : Z)
    : InverseVals :=
  let swapp := c_swapp c in
  let lonsign := c_lonsign c in
  let latsign := c_latsign c in
  let s12 := if has outmask GeodesicMask.DISTANCE then #0 + s_s12x s else #0 in
  let m12 := if has outmask GeodesicMask.REDUCEDLENGTH then #0 + s_m12x s
             else #0 in
  let S12 := if has outmask GeodesicMask.AREA
             then area g r s * (swapp * lonsign * latsign) + #0
             else #0 in
  let scalep := has outmask GeodesicMask.GEODESICSCALE in
  let '(salp1, calp1, salp2, calp2, M12, M21) :=
    if swapp <? #0 then
      (s_salp2 s, s_calp2 s, s_salp1 s, s_calp1 s,
       if scalep then s_M21 s else s_M12 s,
       if scalep then s_M12 s else s_M21 s)
    else (s_salp1 s, s_calp1 s, s_salp2 s, s_calp2 s, s_M12 s, s_M21 s) in
  let salp1 := salp1 * (swapp * lonsign) in
  let calp1 := calp1 * (swapp * latsign) in
  let salp2 := salp2 * (swapp * lonsign) in
  let calp2 := calp2 * (swapp * latsign) in
  let azimuth := has outmask GeodesicMask.AZIMUTH in
  mkInverse M12 M21 (s_a12 s) s12 m12 S12
    (if azimuth then #0 - Math_atan2 (- salp1) calp1 / GeoMath.degree else #0)
    (if azimuth then #0 - Math_atan2 (- salp2) calp2 / GeoMath.degree else #0).

(** [GenInverse] with the record of how the passes of its loop ended. *)
Definition GenInverse_run (g : t) (lat1 lon1 lat2 lon2 : num) (outmask : Z)
    : InverseVals * list Step :=
  let outmask := Z.land outmask GeodesicMask.OUT_ALL in
  let c := canonical lat1 lon1 lat2 lon2 in
  let '(r, s, steps) := solve g (c_lat1 c) (c_lat2 c) (c_lon12 c) outmask in
  (outputs g c r s outmask, steps).

Definition GenInverse (g : t) (lat1 lon1 lat2 lon2 : num) (outmask : Z)
    : InverseVals :=
  fst (GenInverse_run g lat1 lon1 lat2 lon2 outmask).

End Defs.

Arguments t : clear implicits.
Arguments LengthsVals : clear implicits.
Arguments InverseStartVals : clear implicits.
Arguments Lambda12Vals : clear implicits.
Arguments InverseVals : clear implicits.
Arguments Canon : clear implicits.
Arguments Reduced : clear implicits.
Arguments Sol : clear implicits.
Arguments LoopState : clear implicits.

End Geodesic.

(** ** GeodesicLine *)

Module GeodesicLine.
Section Defs.

Context {num : Type} `{Number num}.
Local Open Scope js_scope.

(** The ray.  The constructor assigns the series fields only under the
    capability that needs them; a field never assigned is [undefined]
    ([None]). *)
Record t : Type := mk {
  _a : num;
  _f : num;
  _b : num;
  _c2 : num;
  _f1 : num;
  _caps : Z;
  _lat1 : num;
  _lon1 : num;
  _azi1 : num;
  _salp1 : num;
  _calp1 : num;
  _dn1 : num;
  _salp0 : num;
  _calp0 : num;
  _ssig1 : num;
  _somg1 : num;
  _csig1 : num;
  _comg1 : num;
  _k2 : num;
  _A1m1 : option num;
  _C1a : option (list num);
  _B11 : option num;
  _stau1 : option num;
  _ctau1 : option num;
  _C1pa : option (list num);
  _A2m1 : option num;
  _C2a : option (list num);
  _B21 : option num;
  _C3a : option (list num);
  _A3c : option num;
  _B31 : option num;
  _C4a : option (list num);
  _A4 : option num;
  _B41 : option num
}.

(** An [undefined] field in an arithmetic expression is NaN. *)
Definition val (o : option num) : num :=
  match o with Some x => x | None => NaN end.

Definition bind {A B : Type} (m : result A) (k : A -> result B) : result B :=
  match m with Ok a => k a | Throw e => Throw e end.

(** [SinCosSeries] on a field: [c[--k]] on [undefined] raises a TypeError,
    and every call with [n >= 1] reads [c]. *)
Definition series (sinp : bool) (sinx cosx : num) (c : option (list num))
    (n : nat) : result num :=
  match c with
  | Some c => Ok (Geodesic.SinCosSeries sinp sinx cosx c n)
  | None => if (n =? 0)%nat
            then Ok (Geodesic.SinCosSeries sinp sinx cosx [] n)
            else Throw TypeError
  end.

(** The constructor.  [caps] is a mask of the bits 0 to 14, where the 32-bit
    [|] of the code and [Z.lor] agree. *)
Definition new (geod : Geodesic.t num) (lat1 lon1 azi1 : num) (caps : Z) : t :=
  let caps := if (caps =? 0)%Z then GeodesicMask.ALL
              else Z.lor (Z.lor caps GeodesicMask.LATITUDE)
                         GeodesicMask.AZIMUTH in
  let azi1 := Geodesic.AngRound (GeoMath.angNormalize azi1) in
  let lon1 := GeoMath.angNormalize lon1 in
  let alp1 := azi1 * GeoMath.degree in
  let salp1 := if azi1 =? #(-180) then #0 else Math_sin alp1 in
  let calp1 := if Math_abs azi1 =? #90 then #0 else Math_cos alp1 in
  let phi := lat1 * GeoMath.degree in
  let sbet1 := Geodesic._f1 geod * Math_sin phi in
  let cbet1 := if Math_abs lat1 =? #90 then Accuracy.tiny else Math_cos phi in
  let t := GeoMath.hypot sbet1 cbet1 in
  let sbet1 := sbet1 / t in
  let cbet1 := cbet1 / t in
  let dn1 := Math_sqrt (#1 + Geodesic._ep2 geod * GeoMath.sq sbet1) in
  let salp0 := salp1 * cbet1 in
  let calp0 := GeoMath.hypot calp1 (salp1 * sbet1) in
  let ssig1 := sbet1 in
  let somg1 := salp0 * sbet1 in
  let comg1 := if (sbet1 !=? #0) || (calp1 !=? #0) then cbet1 * calp1
               else #1 in
  let csig1 := comg1 in
  let t := GeoMath.hypot ssig1 csig1 in
  let ssig1 := ssig1 / t in
  let csig1 := csig1 / t in
  let k2 := GeoMath.sq calp0 * Geodesic._ep2 geod in
  let eps := k2 / (#2 * (#1 + Math_sqrt (#1 + k2)) + k2) in
  let C1a := Geodesic.C1f eps (new_Array (Accuracy.nc1 + 1)) in
  let B11 := Geodesic.SinCosSeries true ssig1 csig1 C1a Accuracy.nc1 in
  let s := Math_sin B11 in
  let c := Math_cos B11 in
  let C2a := Geodesic.C2f eps (new_Array (Accuracy.nc2 + 1)) in
  let C3a := Geodesic.C3f geod eps (new_Array Accuracy.nc3) in
  let C4a := Geodesic.C4f geod eps (new_Array Accuracy.nc4) in
  let on (cap : Z) {A : Type} (x : A) : option A :=
    if has caps cap then Some x else None in
  mk (Geodesic._a geod) (Geodesic._f geod) (Geodesic._b geod)
     (Geodesic._c2 geod) (Geodesic._f1 geod) caps lat1 lon1 azi1
     salp1 calp1 dn1 salp0 calp0 ssig1 somg1 csig1 comg1 k2
     (on GeodesicMask.CAP_C1 (Geodesic.A1m1f eps))
     (on GeodesicMask.CAP_C1 C1a)
     (on GeodesicMask.CAP_C1 B11)
     (on GeodesicMask.CAP_C1 (ssig1 * c + csig1 * s))
     (on GeodesicMask.CAP_C1 (csig1 * c - ssig1 * s))
     (on GeodesicMask.CAP_C1p
         (Geodesic.C1pf eps (new_Array (Accuracy.nc1p + 1))))
     (on GeodesicMask.CAP_C2 (Geodesic.A2m1f eps))
     (on GeodesicMask.CAP_C2 C2a)
     (on GeodesicMask.CAP_C2
         (Geodesic.SinCosSeries true ssig1 csig1 C2a Accuracy.nc2))
     (on GeodesicMask.CAP_C3 C3a)
     (on GeodesicMask.CAP_C3
         (- Geodesic._f geod * salp0 * Geodesic.A3f geod eps))
     (on GeodesicMask.CAP_C3
         (Geodesic.SinCosSeries true ssig1 csig1 C3a (Accuracy.nc3 - 1)))
     (on GeodesicMask.CAP_C4 C4a)
     (on GeodesicMask.CAP_C4
         (GeoMath.sq (Geodesic._a geod) * calp0 * salp0 * Geodesic._e2 geod))
     (on GeodesicMask.CAP_C4
         (Geodesic.SinCosSeries false ssig1 csig1 C4a Accuracy.nc4)).

(** The result of a position query.  [vals.S12] is assigned only when the
    area is asked for and is not a property of the object otherwise. *)
Record PositionVals : Type := mkPosition {
  pos_a12 : num;
  pos_s12 : num;
  pos_lon2 : num;
  pos_lat2 : num;
  pos_azi2 : num;
  pos_m12 : num;
  pos_M12 : num;
  pos_M21 : num;
  pos_S12 : option num
}.

(** Reading a property of the returned object by name, as [vals.name] does:
    the object literal of [GenPosition] has the eight keys below, [S12] is
    added under AREA, and any other name reads [undefined]. *)
Definition get (vals : PositionVals) (name : string) : option num :=
  if String.eqb name "a12" then Some (pos_a12 vals)
  else if String.eqb name "s12" then Some (pos_s12 vals)
  else if String.eqb name "lon2" then Some (pos_lon2 vals)
  else if String.eqb name "lat2" then Some (pos_lat2 vals)
  else if String.eqb name "azi2" then Some (pos_azi2 vals)
  else if String.eqb name "m12" then Some (pos_m12 vals)
  else if String.eqb name "M12" then Some (pos_M12 vals)
  else if String.eqb name "M21" then Some (pos_M21 vals)
  else if String.eqb name "S12" then pos_S12 vals
  else None.

Notation "x <- m ;; k" := (bind m (fun x => k))
  (at level 61, m at next level, right associativity).
Notation "' pat <- m ;; k" := (bind m (fun x => match x with pat => k end))
  (at level 61, pat pattern, m at next level, right associativity).

Definition GenPosition (l : t) (arcmode : bool) (s12_a12 : num) (outmask : Z)
    : result PositionVals :=
  let outmask := Z.land outmask (Z.land (_caps l) GeodesicMask.OUT_ALL) in
  if negb (arcmode ||
           has (_caps l) (Z.land GeodesicMask.DISTANCE_IN GeodesicMask.OUT_ALL))
  then Ok (mkPosition NaN #0 #0 #0 #0 #0 #0 #0 None)
  else
  let A1m1 := val (_A1m1 l) in
  let B11 := val (_B11 l) in
  let ssig1 := _ssig1 l in
  let csig1 := _csig1 l in
  (* sig12 and its sine and cosine, and B12 as the branch leaves it *)
  '(sig12, ssig12, csig12, B12) <-
    (if arcmode then
       let sig12 := s12_a12 * GeoMath.degree in
       let s12a := Math_abs s12_a12 in
       let s12a := s12a - #180 * Math_floor (s12a / #180) in
       Ok (sig12,
           if s12a =? #0 then #0 else Math_sin sig12,
           if s12a =? #90 then #0 else Math_cos sig12,
           #0)
     else
       let tau12 := s12_a12 / (_b l * (#1 + A1m1)) in
       let s := Math_sin tau12 in
       let c := Math_cos tau12 in
       b <- series true (val (_stau1 l) * c + val (_ctau1 l) * s)
                        (val (_ctau1 l) * c - val (_stau1 l) * s)
                        (_C1pa l) Accuracy.nc1p ;;
       let B12 := - b in
       let sig12 := tau12 - (B12 - B11) in
       let ssig12 := Math_sin sig12 in
       let csig12 := Math_cos sig12 in
       if Math_abs (_f l) >? #1 / #100 then
         let ssig2 := ssig1 * csig12 + csig1 * ssig12 in
         let csig2 := csig1 * csig12 - ssig1 * ssig12 in
         B12 <- series true ssig2 csig2 (_C1a l) Accuracy.nc1 ;;
         let serr := (#1 + A1m1) * (sig12 + (B12 - B11)) - s12_a12 / _b l in
         let sig12 := sig12 - serr / Math_sqrt (#1 + _k2 l * GeoMath.sq ssig2) in
         Ok (sig12, Math_sin sig12, Math_cos sig12, B12)
       else Ok (sig12, ssig12, csig12, B12)) ;;
  let ssig2 := ssig1 * csig12 + csig1 * ssig12 in
  let csig2 := csig1 * csig12 - ssig1 * ssig12 in
  let dn2 := Math_sqrt (#1 + _k2 l * GeoMath.sq ssig2) in
  AB1 <-
    (if has outmask (Z.lor (Z.lor GeodesicMask.DISTANCE
                                  GeodesicMask.REDUCEDLENGTH)
                           GeodesicMask.GEODESICSCALE) then
       B12 <- (if arcmode || (Math_abs (_f l) >? #1 / #100)
               then series true ssig2 csig2 (_C1a l) Accuracy.nc1
               else Ok B12) ;;
       Ok ((#1 + A1m1) * (B12 - B11))
     else Ok #0) ;;
  let sbet2 := _calp0 l * ssig2 in
  let cbet2 := GeoMath.hypot (_salp0 l) (_calp0 l * csig2) in
  let '(cbet2, csig2) := if cbet2 =? #0 then (Accuracy.tiny, Accuracy.tiny)
                         else (cbet2, csig2) in
  let somg2 := _salp0 l * ssig2 in
  let comg2 := csig2 in
  let salp2 := _salp0 l in
  let calp2 := _calp0 l * csig2 in
  let omg12 := Math_atan2 (somg2 * _comg1 l - comg2 * _somg1 l)
                          (comg2 * _comg1 l + somg2 * _somg1 l) in
  let s12 := if has outmask GeodesicMask.DISTANCE
             then (if arcmode then _b l * ((#1 + A1m1) * sig12 + AB1)
                   else s12_a12)
             else #0 in
  lon2 <-
    (if has outmask GeodesicMask.LONGITUDE then
       B32 <- series true ssig2 csig2 (_C3a l) (Accuracy.nc3 - 1) ;;
       let lam12 := omg12 + val (_A3c l) * (sig12 + (B32 - val (_B31 l))) in
       let lon12 := lam12 / GeoMath.degree in
       let lon12 := GeoMath.angNormalize2 lon12 in
       Ok (GeoMath.angNormalize (_lon1 l + lon12))
     else Ok #0) ;;
  let lat2 := if has outmask GeodesicMask.LATITUDE
              then Math_atan2 sbet2 (_f1 l * cbet2) / GeoMath.degree
              else #0 in
  let azi2 := if has outmask GeodesicMask.AZIMUTH
              then #0 - Math_atan2 (- salp2) calp2 / GeoMath.degree
              else #0 in
  '(m12, M12, M21) <-
    (if has outmask (Z.lor GeodesicMask.REDUCEDLENGTH
                           GeodesicMask.GEODESICSCALE) then
       B22 <- series true ssig2 csig2 (_C2a l) Accuracy.nc2 ;;
       let A2m1 := val (_A2m1 l) in
       let AB2 := (#1 + A2m1) * (B22 - val (_B21 l)) in
       let J12 := (A1m1 - A2m1) * sig12 + (AB1 - AB2) in
       let m12 := if has outmask GeodesicMask.REDUCEDLENGTH
                  then _b l * ((dn2 * (csig1 * ssig2) -
                                _dn1 l * (ssig1 * csig2)) -
                               csig1 * csig2 * J12)
                  else #0 in
       if has outmask GeodesicMask.GEODESICSCALE then
         let t := _k2 l * (ssig2 - ssig1) * (ssig2 + ssig1) /
                  (_dn1 l + dn2) in
         Ok (m12,
             csig12 + (t * ssig2 - csig2 * J12) * ssig1 / _dn1 l,
             csig12 - (t * ssig1 - csig1 * J12) * ssig2 / dn2)
       else Ok (m12, #0, #0)
     else Ok (#0, #0, #0)) ;;
  S12 <-
    (if has outmask GeodesicMask.AREA then
       B42 <- series false ssig2 csig2 (_C4a l) Accuracy.nc4 ;;
       let '(salp12, calp12) :=
         if (_calp0 l =? #0) || (_salp0 l =? #0) then
           let salp12 := salp2 * _calp1 l - calp2 * _salp1 l in
           let calp12 := calp2 * _calp1 l + salp2 * _salp1 l in
           if (salp12 =? #0) && (calp12 <? #0)
           then (Accuracy.tiny * _calp1 l, #(-1))
           else (salp12, calp12)
         else
           (_calp0 l * _salp0 l *
              (if csig12 <=? #0
               then csig1 * (#1 - csig12) + ssig12 * ssig1
               else ssig12 * (csig1 * ssig12 / (#1 + csig12) + ssig1)),
            GeoMath.sq (_salp0 l) + GeoMath.sq (_calp0 l) * csig1 * csig2) in
       Ok (Some (_c2 l * Math_atan2 salp12 calp12 +
                 val (_A4 l) * (B42 - val (_B41 l))))
     else Ok None) ;;
  Ok (mkPosition (if arcmode then s12_a12 else sig12 / GeoMath.degree)
                 s12 lon2 lat2 azi2 m12 M12 M21 S12).

End Defs.

Arguments t : clear implicits.
Arguments PositionVals : clear implicits.

End GeodesicLine.

(** ** Interface *)

Module Interface.
Section Defs.

Context {num : Type} `{Number num}.
Local Open Scope js_scope.

Notation "x <- m ;; k" := (GeodesicLine.bind m (fun x => k))
  (at level 61, m at next level, right associativity).

(** The singleton holds one ellipsoid.  The source builds it from the
    constants of [ol.ellipsoid.WGS84]; the functions below use it only
    through the field. *)
Record t : Type := mk {
  geodesic_ : Geodesic.t num
}.

Record InverseResult : Type := mkInverseResult {
  distance : num;
  initialBearing : num;
  finalBearing : num
}.

Record Point : Type := mkPoint {
  lat : num;
  lon : num
}.

(** [goog.isDef(opt_outmask) ? opt_outmask : dflt] *)
Definition or_default (opt_outmask : option Z) (dflt : Z) : Z :=
  match opt_outmask with Some m => m | None => dflt end.

(** [goog.asserts.assert(cond, message)] *)
Definition assert (cond : bool) : result unit :=
  if cond then Ok tt else Throw AssertionError.

(** A coordinate is the array [[lon, lat]]. *)
Definition inverse (this : t) (c1 c2 : list num) (opt_outmask : option Z)
    : InverseResult :=
  let outmask := or_default opt_outmask
                   (Z.lor GeodesicMask.DISTANCE GeodesicMask.AZIMUTH) in
  let genInverseResult :=
    Geodesic.GenInverse (geodesic_ this) (aget c1 1) (aget c1 0)
      (aget c2 1) (aget c2 0) outmask in
  mkInverseResult (Geodesic.inv_s12 genInverseResult)
                  (Geodesic.inv_azi1 genInverseResult)
                  (Geodesic.inv_azi2 genInverseResult).

Definition genDirect_ (this : t) (lat1 lon1 azi1 : num) (arcmode : bool)
    (s12_a12 : num) (outmask : Z) : result (GeodesicLine.PositionVals num) :=
  let line :=
    GeodesicLine.new (geodesic_ this) lat1 lon1 azi1
      (Z.lor outmask (if arcmode then GeodesicMask.NONE
                      else GeodesicMask.DISTANCE_IN)) in
  GeodesicLine.GenPosition line arcmode s12_a12 outmask.

Definition direct (this : t) (c : list num) (distance bearing : num)
    (opt_outmask : option Z) : result (list num) :=
  let outmask := or_default opt_outmask
                   (Z.lor (Z.lor GeodesicMask.LATITUDE GeodesicMask.LONGITUDE)
                          GeodesicMask.AZIMUTH) in
  genDirectResult <- genDirect_ this (aget c 1) (aget c 0) bearing false
                       distance outmask ;;
  Ok [GeodesicLine.pos_lon2 genDirectResult;
      GeodesicLine.pos_lat2 genDirectResult].

(** [if (!k || k < 4) k = 24]: the number of sides.  [k] is a count, an
    integer; [new Array(k + 1)] accepts no other number that passes the
    test, and accepts a length below [2^32] only: the statements about
    [circle] and [envelope] take [k < 2^32 - 1]. *)
Definition sides (k : Z) : nat :=
  if (k =? 0)%Z || (k <? 4)%Z then 24%nat else Z.to_nat k.

(** [for (i = 0; i <= k; ++i) { ...; points[i] = {lat: ..., lon: ...}; }]
    with [todo = k + 1 - i] passes to go: the points from [i] on. *)
Fixpoint circle_loop (this : t) (lat1 lon1 azi1 s12 : num) (k todo i : nat)
    : result (list Point) :=
  match todo with
  | O => Ok []
  | S todo' =>
      let azi1a := azi1 + (#(Z.of_nat k) - #(Z.of_nat i)) * #360 /
                          #(Z.of_nat k) in
      let azi1a := if azi1a >=? #180 then azi1a - #360 else azi1a in
      vals <- genDirect_ this lat1 lon1 azi1a false s12
                (Z.lor GeodesicMask.LATITUDE GeodesicMask.LONGITUDE) ;;
      points <- circle_loop this lat1 lon1 azi1 s12 k todo' (S i) ;;
      Ok (mkPoint (GeodesicLine.pos_lat2 vals) (GeodesicLine.pos_lon2 vals)
          :: points)
  end.

Definition circle (this : t) (lat1 lon1 azi1 s12 : num) (k : Z)
    : result (list Point) :=
  _ <- assert (Math_abs lat1 <=? #90) ;;
  _ <- assert ((lon1 >=? #(-540)) && (lon1 <? #540)) ;;
  _ <- assert ((azi1 >=? #(-540)) && (azi1 <? #540)) ;;
  _ <- assert (isFinite s12) ;;
  let lon1 := GeoMath.angNormalize lon1 in
  let azi1 := GeoMath.angNormalize azi1 in
  let k := sides k in
  circle_loop this lat1 lon1 azi1 s12 k (S k) 0.

(** The masks of [envelope]. *)
Definition envelope_caps : Z :=
  Z.lor (Z.lor (Z.lor (Z.lor (Z.lor GeodesicMask.LATITUDE
                                    GeodesicMask.LONGITUDE)
                             GeodesicMask.DISTANCE_IN)
                      GeodesicMask.DISTANCE)
               GeodesicMask.REDUCEDLENGTH)
        GeodesicMask.GEODESICSCALE.

Definition envelope_mask : Z :=
  Z.lor (Z.lor GeodesicMask.DISTANCE GeodesicMask.REDUCEDLENGTH)
        GeodesicMask.GEODESICSCALE.

(** [while (true) { s12 = ...; if (... || ++j > 10) break; vals = ...; }]
    with [todo = 10 - j]: the distance the loop leaves in [s12]. *)
Fixpoint envelope_refine (line : GeodesicLine.t num) (todo : nat)
    (vals : GeodesicLine.PositionVals num) : result num :=
  let s12 := GeodesicLine.pos_s12 vals -
             GeodesicLine.pos_m12 vals / GeodesicLine.pos_M21 vals in
  if Math_abs (GeodesicLine.pos_m12 vals) <?
     GeodesicLine._a line * Accuracy.tol2 * (#1 / #10)
  then Ok s12
  else
    match todo with
    | O => Ok s12
    | S todo' =>
        vals <- GeodesicLine.GenPosition line false s12 envelope_mask ;;
        envelope_refine line todo' vals
    end.

Fixpoint envelope_loop (this : t) (lat1 lon1 ord : num) (k todo i : nat)
    : result (list Point) :=
  match todo with
  | O => Ok []
  | S todo' =>
      let azi1 := #(-180) + #(Z.of_nat i) * #360 / #(Z.of_nat k) in
      let line := GeodesicLine.new (geodesic_ this) lat1 lon1 azi1
                    envelope_caps in
      vals <- GeodesicLine.GenPosition line true (#180 * ord) envelope_mask ;;
      s12 <- envelope_refine line 10 vals ;;
      vals <- GeodesicLine.GenPosition line false s12
                (Z.lor GeodesicMask.LATITUDE GeodesicMask.LONGITUDE) ;;
      points <- envelope_loop this lat1 lon1 ord k todo' (S i) ;;
      Ok (mkPoint (GeodesicLine.pos_lat2 vals) (GeodesicLine.pos_lon2 vals)
          :: points)
  end.

Definition envelope (this : t) (lat1 lon1 : num) (k : Z) (ord : num)
    : result (list Point) :=
  _ <- assert (Math_abs lat1 <=? #90) ;;
  _ <- assert ((lon1 >=? #(-540)) && (lon1 <? #540)) ;;
  let lon1 := GeoMath.angNormalize lon1 in
  let k := sides k in
  let ord := if truthy ord then ord else #1 in
  envelope_loop this lat1 lon1 ord k (S k) 0.

End Defs.

Arguments t : clear implicits.
Arguments InverseResult : clear implicits.
Arguments Point : clear implicits.

End Interface.

(** ** The two instances of the number interface *)

(** *** Doubles

    [PrimFloat] is binary64 with round-to-nearest-even, the arithmetic of a
    JavaScript number.  What the language leaves to the host (the
    transcendental functions, and here also [floor] and [%]) is a
    parameter. *)
Module Double.

Record Host : Type := mkHost {
  h_rem : float -> float -> float;
  h_floor : float -> float;
  h_sin : float -> float;
  h_cos : float -> float;
  h_atan : float -> float;
  h_log : float -> float;
  h_atan2 : float -> float -> float;
  h_pow : float -> float -> float
}.

Definition literal (z : Z) : float :=
  match z with
  | Z0 => PrimFloat.zero
  | Zpos _ => PrimFloat.of_uint63 (Uint63.of_Z z)
  | Zneg p => PrimFloat.opp (PrimFloat.of_uint63 (Uint63.of_Z (Zpos p)))
  end.

(** [Math.max] and [Math.min]: NaN if an argument is; [+0] is above [-0]. *)
Definition max (x y : float) : float :=
  if PrimFloat.is_nan x || PrimFloat.is_nan y then PrimFloat.nan
  else if PrimFloat.ltb x y then y
  else if PrimFloat.ltb y x then x
  else if PrimFloat.get_sign x then y else x.

Definition min (x y : float) : float :=
  if PrimFloat.is_nan x || PrimFloat.is_nan y then PrimFloat.nan
  else if PrimFloat.ltb x y then x
  else if PrimFloat.ltb y x then y
  else if PrimFloat.get_sign x then x else y.

Definition number (h : Host) : Number float := {|
  of_Z := literal;
  NaN := PrimFloat.nan;
  nadd := PrimFloat.add;
  nsub := PrimFloat.sub;
  nmul := PrimFloat.mul;
  ndiv := PrimFloat.div;
  nrem := h_rem h;
  nneg := PrimFloat.opp;
  neqb := PrimFloat.eqb;
  nltb := PrimFloat.ltb;
  nleb := PrimFloat.leb;
  isFinite := PrimFloat.is_finite;
  Math_PI := 0x1.921fb54442d18p+1%float;
  Math_abs := PrimFloat.abs;
  Math_sqrt := PrimFloat.sqrt;
  Math_floor := h_floor h;
  Math_sin := h_sin h;
  Math_cos := h_cos h;
  Math_atan := h_atan h;
  Math_log := h_log h;
  Math_atan2 := h_atan2 h;
  Math_pow := h_pow h;
  Math_max := max;
  Math_min := min
|}.

(** A host without the functions; enough to run the arithmetic. *)
Definition no_host : Host :=
  let no1 := fun _ : float => PrimFloat.nan in
  let no2 := fun _ _ : float => PrimFloat.nan in
  mkHost no2 no1 no1 no1 no1 no1 no2 no2.

Definition bare : Number float := number no_host.

End Double.

(** *** Real numbers

    The arithmetic the algorithms are designed in: no rounding, no NaN (the
    field [NaN] is the value the field operations give to [0 / 0]), one
    zero.  [Math.pow] is used on non-negative bases only. *)
Module Ideal.

Definition eqb (x y : R) : bool := if Req_dec_T x y then true else false.
Definition ltb (x y : R) : bool := if Rlt_dec x y then true else false.
Definition leb (x y : R) : bool := if Rle_dec x y then true else false.

(** The integer part, rounding toward zero, as [%] uses it. *)
Definition trunc (q : R) : Z :=
  if Rle_dec 0 q then Int_part q else (- Int_part (- q))%Z.

Definition rem (x y : R) : R := (x - y * IZR (trunc (x / y)))%R.

(** [Math.atan2] with the one zero of the reals: for [y = 0] and [x < 0] it
    is [PI], the value of the code at a positive zero; the [- PI] of the
    code at a negative zero has no counterpart here. *)
Definition atan2 (y x : R) : R :=
  if Rlt_dec 0 x then atan (y / x)
  else if Rlt_dec x 0 then
    if Rle_dec 0 y then (atan (y / x) + PI)%R else (atan (y / x) - PI)%R
  else if Rlt_dec 0 y then (PI / 2)%R
  else if Rlt_dec y 0 then (- PI / 2)%R
  else 0%R.

Definition pow (x y : R) : R :=
  if Req_dec_T x 0 then (if Req_dec_T y 0 then 1%R else 0%R)
  else Rpower x y.

#[global] Instance number : Number R := {|
  of_Z := IZR;
  NaN := (0 / 0)%R;
  nadd := Rplus;
  nsub := Rminus;
  nmul := Rmult;
  ndiv := Rdiv;
  nrem := rem;
  nneg := Ropp;
  neqb := eqb;
  nltb := ltb;
  nleb := leb;
  isFinite := fun _ => true;
  Math_PI := PI;
  Math_abs := Rabs;
  Math_sqrt := sqrt;
  Math_floor := fun x => IZR (Int_part x);
  Math_sin := sin;
  Math_cos := cos;
  Math_atan := atan;
  Math_log := ln;
  Math_atan2 := atan2;
  Math_pow := pow;
  Math_max := Rmax;
  Math_min := Rmin
|}.

End Ideal.

(** ** Vocabulary of the statements *)

Section Vocabulary.

Context {num : Type} `{Number num}.
Local Open Scope js_scope.

(** The record a distance query gets from a ray without distance input. *)
Definition unavailable : GeodesicLine.PositionVals num :=
  GeodesicLine.mkPosition NaN #0 #0 #0 #0 #0 #0 #0 None.

(** A ray whose series are assigned wherever one of its output bits needs
    them: what the constructor builds from a mask of the vocabulary. *)
Definition consistent (l : GeodesicLine.t num) : Prop :=
  let c := GeodesicLine._caps l in
  (Z.testbit c 10 || Z.testbit c 12 || Z.testbit c 13 = true ->
   GeodesicLine._C1a l <> None) /\
  (Z.testbit c 11 = true ->
   GeodesicLine._C1pa l <> None /\ GeodesicLine._C1a l <> None) /\
  (Z.testbit c 12 || Z.testbit c 13 = true -> GeodesicLine._C2a l <> None) /\
  (Z.testbit c 8 = true -> GeodesicLine._C3a l <> None) /\
  (Z.testbit c 14 = true -> GeodesicLine._C4a l <> None).



End Vocabulary.

(** A mask whose output bits come with the capability bits of the table. *)
Definition closed (m : Z) : bool :=
  implb (Z.testbit m 8) (Z.testbit m 3) &&
  implb (Z.testbit m 10) (Z.testbit m 0) &&
  implb (Z.testbit m 11) (Z.testbit m 0 && Z.testbit m 1) &&
  implb (Z.testbit m 12) (Z.testbit m 0 && Z.testbit m 2) &&
  implb (Z.testbit m 13) (Z.testbit m 0 && Z.testbit m 2) &&
  implb (Z.testbit m 14) (Z.testbit m 4).

Section Longitudes.

Context {num : Type} `{Number num}.

(** The signed longitude difference [GenInverse] starts from. *)
Definition lon_difference (lon1 lon2 : num) : num :=
  Geodesic.AngRound
    (GeoMath.angDiff (GeoMath.angNormalize lon1) (GeoMath.angNormalize lon2)).

End Longitudes.


(** The capability set the constructor stores for the argument [caps]. *)
Definition stored_caps (caps : Z) : Z :=
  if (caps =? 0)%Z then GeodesicMask.ALL
  else Z.lor (Z.lor caps GeodesicMask.LATITUDE) GeodesicMask.AZIMUTH.

(** The series the evaluator is specified by, over the reals: the sum of
    [f i] for [i] from [lo], [n] terms. *)
Definition series_sum (f : nat -> R) (lo n : nat) : R :=
  fold_right Rplus 0%R (map f (seq lo n)).

(** The terms [c i * F i] from [k] up to (not including) [k0]: what is left
    of a series when the recurrence has come down to [k]. *)
Definition series_tail (c : list R) (F : Z -> R) (k0 k : nat) : R :=
  series_sum (fun i => (aget c i * F (Z.of_nat i))%R) k (k0 - k).

(** The sums as the specification words them: in the multiples of the angle. *)
Definition stated_sine_series (c : list R) (n : nat) (theta : R) : R :=
  series_sum (fun i => (aget c i * sin (INR i * theta))%R) 1 n.

Definition stated_cosine_series (c : list R) (n : nat) (theta : R) : R :=
  series_sum (fun i => (aget c i * cos (INR i * theta))%R) 1 n.

(** The sums of the geodesic series: the sine series runs over the even
    multiples of the angle, the cosine series over the odd ones. *)
Definition sine_series (c : list R) (n : nat) (theta : R) : R :=
  series_sum (fun i => (aget c i * sin (2 * INR i * theta))%R) 1 n.

Definition cosine_series (c : list R) (n : nat) (theta : R) : R :=
  series_sum (fun i => (aget c i * cos ((2 * INR i + 1) * theta))%R) 0 n.

(** The unit sphere ([a = 1], [f = 0]) as the constructor builds it, and a
    ray on it from latitude alone. *)
Definition sphere : Geodesic.t R :=
  Geodesic.mk 1%R 0%R 1%R 0%R 0%R 0%R 1%R 1%R
    (1 / 10 * Accuracy.tol2 /
     sqrt (Rmax (1 / 1000) (Rabs 0) * Rmin 1 (1 - 0 / 2) / 2))%R
    (Geodesic.A3coeff 0%R) (Geodesic.C3coeff 0%R) (Geodesic.C4coeff 0%R).

Definition latitude_ray : GeodesicLine.t R :=
  GeodesicLine.new sphere 0%R 0%R 0%R
    (GeodesicMask.mask [GeodesicMask.Latitude]).

(** A field of the ray that the constructor has assigned. *)
Definition assigned {A : Type} (o : option A) : bool :=
  match o with Some _ => true | None => false end.

(** The outcome [m] is a value exactly when [b] holds, and a TypeError
    otherwise. *)
Definition raises_unless {A : Type} (m : result A) (b : bool) : Prop :=
  match m with
  | Ok _ => b = true
  | Throw e => e = TypeError /\ b = false
  end.

Section Reads.

Context {num : Type} `{Number num}.
Local Open Scope js_scope.

(** The series fields a position query reads, given its mode, the
    flattening and the outputs selected by [outmask] and the ray's [caps]:
    [_C1pa], and [_C1a] on a flattening above 1/100, to turn a distance into
    an arc; [_C1a] for the distance, the reduced length or the scale (in
    distance mode only on a flattening above 1/100); [_C3a] for the
    longitude; [_C2a] for the reduced length or the scale; [_C4a] for the
    area.  [readable] says that all of them are assigned. *)
Definition readable (l : GeodesicLine.t num) (arcmode : bool) (outmask : Z)
    : bool :=
  let sel k := Z.testbit outmask k && Z.testbit (GeodesicLine._caps l) k in
  let flat := Math_abs (GeodesicLine._f l) >? #1 / #100 in
  (arcmode ||
   (assigned (GeodesicLine._C1pa l) &&
    (negb flat || assigned (GeodesicLine._C1a l)))) &&
  (implb ((sel 10%Z || sel 12%Z || sel 13%Z) && (arcmode || flat))
         (assigned (GeodesicLine._C1a l)) &&
   (implb (sel 8%Z) (assigned (GeodesicLine._C3a l)) &&
    (implb (sel 12%Z || sel 13%Z) (assigned (GeodesicLine._C2a l)) &&
     implb (sel 14%Z) (assigned (GeodesicLine._C4a l))))).

End Reads.

(** The masks of [Interface.direct] when no mask is given: what it asks of
    the position, and what [genDirect_] makes the ray able to do. *)
Definition direct_mask : Z :=
  Z.lor (Z.lor GeodesicMask.LATITUDE GeodesicMask.LONGITUDE)
        GeodesicMask.AZIMUTH.

Definition direct_caps : Z :=
  Z.lor (Z.lor (Z.lor GeodesicMask.LATITUDE GeodesicMask.LONGITUDE)
               GeodesicMask.AZIMUTH)
        GeodesicMask.DISTANCE_IN.

(** * Properties *)

(** ** Capability masks *)

Lemma has_bit (m k : Z) : (0 <= k)%Z -> has m (Z.shiftl 1 k) = Z.testbit m k.
Proof.
  intros Hk. unfold has. rewrite Z.shiftl_1_l.
  destruct (Z.testbit m k) eqn:Hb.
  - apply negb_true_iff, Z.eqb_neq. intros E.
    assert (Ht : Z.testbit (Z.land m (2 ^ k)) k = true).
    { rewrite Z.land_spec, Hb, Z.pow2_bits_true; auto. }
    rewrite E, Z.bits_0 in Ht. discriminate.
  - apply negb_false_iff, Z.eqb_eq, Z.bits_inj'. intros n Hn.
    rewrite Z.land_spec, Z.bits_0, Z.pow2_bits_eqb by assumption.
    destruct (Z.eqb_spec k n) as [->|]; [rewrite Hb|]; auto using andb_false_r.
Qed.

Lemma has_lor (m a b : Z) : has m (Z.lor a b) = has m a || has m b.
Proof.
  unfold has. rewrite Z.land_lor_distr_r.
  destruct (Z.eqb_spec (Z.land m a) 0) as [Ea|Ea];
    destruct (Z.eqb_spec (Z.land m b) 0) as [Eb|Eb]; simpl;
    try (rewrite Ea); try (rewrite Eb);
    rewrite ?Z.lor_0_l, ?Z.lor_0_r, ?Z.eqb_refl; simpl; try reflexivity;
    apply negb_true_iff, Z.eqb_neq; rewrite ?Z.lor_eq_0_iff; tauto.
Qed.

Lemma has_0 (m : Z) : has m 0 = false.
Proof. unfold has. now rewrite Z.land_0_r. Qed.

(** Every [if (m & FLAG)] of the code, as a test of bits of [m]. *)
Ltac mask_bits :=
  unfold GeodesicMask.DISTANCE_IN, GeodesicMask.REDUCEDLENGTH,
    GeodesicMask.GEODESICSCALE, GeodesicMask.DISTANCE, GeodesicMask.AREA,
    GeodesicMask.LONGITUDE, GeodesicMask.LATITUDE, GeodesicMask.AZIMUTH,
    GeodesicMask.CAP_C1, GeodesicMask.CAP_C1p, GeodesicMask.CAP_C2,
    GeodesicMask.CAP_C3, GeodesicMask.CAP_C4, GeodesicMask.CAP_NONE in *;
  repeat (rewrite ?has_lor, ?has_0, ?orb_false_r in *);
  repeat (rewrite has_bit in * by lia);
  repeat (rewrite ?Z.land_spec, ?Z.lor_spec in *).

(** The same for an [outmask] cut down with [OUT_ALL]. *)
Ltac out_bits :=
  mask_bits;
  repeat match goal with
  | |- context [Z.testbit GeodesicMask.OUT_ALL ?k] =>
      let b := eval vm_compute in (Z.testbit GeodesicMask.OUT_ALL k) in
      change (Z.testbit GeodesicMask.OUT_ALL k) with b
  end;
  rewrite ?andb_true_r, ?andb_false_r, ?orb_false_r.

Lemma has_out (m flag : Z) :
  has (Z.land m GeodesicMask.OUT_ALL) flag =
  has m (Z.land GeodesicMask.OUT_ALL flag).
Proof. unfold has. now rewrite Z.land_assoc. Qed.

(** C4: the capability bits contained in each output flag are those of the
    table (LATITUDE none, LONGITUDE C3, AZIMUTH none, DISTANCE C1,
    DISTANCE_IN C1 and C1p, REDUCEDLENGTH and GEODESICSCALE C1 and C2,
    AREA C4), and besides them a flag has only its own output bit. *)
Theorem flag_capabilities :
  let caps := GeodesicMask.caps_of in
  let own (f k : Z) := Z.land f (Z.lnot GeodesicMask.CAP_ALL) = Z.shiftl 1 k in
  (caps GeodesicMask.LATITUDE = [] /\ own GeodesicMask.LATITUDE 7%Z) /\
  (caps GeodesicMask.LONGITUDE = [GeodesicMask.CAP_C3] /\
   own GeodesicMask.LONGITUDE 8%Z) /\
  (caps GeodesicMask.AZIMUTH = [] /\ own GeodesicMask.AZIMUTH 9%Z) /\
  (caps GeodesicMask.DISTANCE = [GeodesicMask.CAP_C1] /\
   own GeodesicMask.DISTANCE 10%Z) /\
  (caps GeodesicMask.DISTANCE_IN = [GeodesicMask.CAP_C1; GeodesicMask.CAP_C1p] /\
   own GeodesicMask.DISTANCE_IN 11%Z) /\
  (caps GeodesicMask.REDUCEDLENGTH = [GeodesicMask.CAP_C1; GeodesicMask.CAP_C2] /\
   own GeodesicMask.REDUCEDLENGTH 12%Z) /\
  (caps GeodesicMask.GEODESICSCALE = [GeodesicMask.CAP_C1; GeodesicMask.CAP_C2] /\
   own GeodesicMask.GEODESICSCALE 13%Z) /\
  (caps GeodesicMask.AREA = [GeodesicMask.CAP_C4] /\
   own GeodesicMask.AREA 14%Z).
Proof. cbv zeta. repeat split; reflexivity. Qed.

(** ** Position queries *)

Section PositionFacts.

Context {num : Type} `{Number num}.
Local Open Scope js_scope.

Lemma distance_in_bit (c : Z) :
  has c (Z.land GeodesicMask.DISTANCE_IN GeodesicMask.OUT_ALL) = Z.testbit c 11.
Proof.
  change (Z.land GeodesicMask.DISTANCE_IN GeodesicMask.OUT_ALL)
    with (Z.shiftl 1 11).
  apply has_bit; lia.
Qed.

Lemma series_assigned (sinp : bool) (sinx cosx : num) (c : option (list num))
    (n : nat) :
  c <> None -> exists y, GeodesicLine.series sinp sinx cosx c n = Ok y.
Proof. destruct c; [simpl; eauto | congruence]. Qed.

Lemma om_distance (o c : Z) :
  has (Z.land o (Z.land c GeodesicMask.OUT_ALL)) GeodesicMask.DISTANCE =
  Z.testbit o 10 && Z.testbit c 10.
Proof. out_bits. reflexivity. Qed.

Lemma om_longitude (o c : Z) :
  has (Z.land o (Z.land c GeodesicMask.OUT_ALL)) GeodesicMask.LONGITUDE =
  Z.testbit o 8 && Z.testbit c 8.
Proof. out_bits. reflexivity. Qed.

Lemma om_latitude (o c : Z) :
  has (Z.land o (Z.land c GeodesicMask.OUT_ALL)) GeodesicMask.LATITUDE =
  Z.testbit o 7 && Z.testbit c 7.
Proof. out_bits. reflexivity. Qed.

Lemma om_azimuth (o c : Z) :
  has (Z.land o (Z.land c GeodesicMask.OUT_ALL)) GeodesicMask.AZIMUTH =
  Z.testbit o 9 && Z.testbit c 9.
Proof. out_bits. reflexivity. Qed.

Lemma om_reducedlength (o c : Z) :
  has (Z.land o (Z.land c GeodesicMask.OUT_ALL)) GeodesicMask.REDUCEDLENGTH =
  Z.testbit o 12 && Z.testbit c 12.
Proof. out_bits. reflexivity. Qed.

Lemma om_geodesicscale (o c : Z) :
  has (Z.land o (Z.land c GeodesicMask.OUT_ALL)) GeodesicMask.GEODESICSCALE =
  Z.testbit o 13 && Z.testbit c 13.
Proof. out_bits. reflexivity. Qed.

Lemma om_area (o c : Z) :
  has (Z.land o (Z.land c GeodesicMask.OUT_ALL)) GeodesicMask.AREA =
  Z.testbit o 14 && Z.testbit c 14.
Proof. out_bits. reflexivity. Qed.

Lemma bind_cases {A B : Type} (m : result A) (k : A -> result B)
    (Q : A -> Prop) (P : B -> Prop) (R : Prop) :
  match m with Ok a => Q a | Throw _ => R end ->
  (forall a, Q a -> match k a with Ok r => P r | Throw _ => R end) ->
  match GeodesicLine.bind m k with Ok r => P r | Throw _ => R end.
Proof.
  destruct m as [a|e]; cbn; intros Hm Hk; [exact (Hk a Hm) | exact Hm].
Qed.

(** A series call raises only on a field that was never assigned. *)
Lemma series_cases (sinp : bool) (sinx cosx : num) (c : option (list num))
    (n : nat) (R : Prop) :
  (c = None -> R) ->
  match GeodesicLine.series sinp sinx cosx c n with
  | Ok _ => True
  | Throw _ => R
  end.
Proof.
  intros Hc. destruct c; cbn; [exact I|].
  destruct (n =? 0)%nat; auto.
Qed.

(** The mask discipline of [GenPosition]: a query that passes the
    distance-input guard returns a record in which a field is assigned only
    if its bit is in [outmask] and in the ray's [caps]; it raises only on a
    ray that is not consistent. *)
Lemma GenPosition_fields (l : GeodesicLine.t num) (arcmode : bool)
    (v : num) (outmask : Z) :
  arcmode || Z.testbit (GeodesicLine._caps l) 11 = true ->
  let sel k := Z.testbit outmask k && Z.testbit (GeodesicLine._caps l) k in
  match GeodesicLine.GenPosition l arcmode v outmask with
  | Ok r =>
    (arcmode = true -> GeodesicLine.pos_a12 r = v) /\
    (sel 7%Z = false -> GeodesicLine.pos_lat2 r = #0) /\
    (sel 8%Z = false -> GeodesicLine.pos_lon2 r = #0) /\
    (sel 9%Z = false -> GeodesicLine.pos_azi2 r = #0) /\
    (sel 10%Z = false -> GeodesicLine.pos_s12 r = #0) /\
    (sel 10%Z = true -> arcmode = false -> GeodesicLine.pos_s12 r = v) /\
    (sel 12%Z = false -> GeodesicLine.pos_m12 r = #0) /\
    (sel 13%Z = false ->
     GeodesicLine.pos_M12 r = #0 /\ GeodesicLine.pos_M21 r = #0) /\
    (sel 14%Z = false -> GeodesicLine.pos_S12 r = None)
  | Throw _ => ~ consistent l
  end.
Proof.
  intros Hguard sel.
  unfold GeodesicLine.GenPosition.
  rewrite distance_in_bit, Hguard. cbv beta iota delta [negb].
  rewrite !has_lor, om_distance, om_longitude, om_latitude, om_azimuth,
    om_reducedlength, om_geodesicscale, om_area.
  fold (sel 7%Z) (sel 8%Z) (sel 9%Z) (sel 10%Z) (sel 12%Z) (sel 13%Z)
    (sel 14%Z).
  assert (Hsel : forall k, sel k = true ->
                           Z.testbit (GeodesicLine._caps l) k = true).
  { intros k Hk. apply andb_true_iff in Hk. tauto. }
  apply bind_cases with (Q := fun _ => True).
  { destruct arcmode; [exact I|]. cbn [orb] in Hguard.
    apply bind_cases with (Q := fun _ => True).
    - apply series_cases. intros E (_ & HC1p & _).
      destruct (HC1p Hguard); congruence.
    - intros b _.
      destruct (Math_abs (GeodesicLine._f l) >? #1 / #100); [|exact I].
      apply bind_cases with (Q := fun _ => True); [|intros; exact I].
      apply series_cases. intros E (_ & HC1p & _).
      destruct (HC1p Hguard); congruence. }
  intros [[[sig12 ssig12] csig12] B12] _.
  apply bind_cases with (Q := fun _ => True).
  { destruct (sel 10%Z || sel 12%Z || sel 13%Z) eqn:E; [|exact I].
    apply bind_cases with (Q := fun _ => True); [|intros; exact I].
    match goal with
    | |- context [if ?b then GeodesicLine.series _ _ _ _ _ else _] =>
        destruct b; [|exact I]
    end.
    apply series_cases. intros E1 (HC1 & _). revert E1. apply HC1.
    apply orb_true_iff in E as [E|E];
      [apply orb_true_iff in E as [E|E]|]; apply Hsel in E;
      rewrite E, ?orb_true_r; reflexivity. }
  intros AB1 _.
  match goal with
  | |- context [if ?b then (Accuracy.tiny, Accuracy.tiny) else _] => destruct b
  end.
  all: apply bind_cases with (Q := fun lon2 => sel 8%Z = false -> lon2 = #0);
    [ destruct (sel 8%Z) eqn:E8; [|reflexivity];
      apply bind_cases with (Q := fun _ => True);
      [ apply series_cases; intros E3 (_ & _ & _ & HC3 & _); revert E3;
        apply HC3, Hsel, E8
      | intros; discriminate ]
    | intros lon2 Hlon2 ].
  all: apply bind_cases with
         (Q := fun x => let '(m12, M12, M21) := x in
                        (sel 12%Z = false -> m12 = #0) /\
                        (sel 13%Z = false -> M12 = #0 /\ M21 = #0));
    [ destruct (sel 12%Z) eqn:E12; destruct (sel 13%Z) eqn:E13; cbn [orb];
      try (split; auto; fail);
      (apply bind_cases with (Q := fun _ => True);
       [ apply series_cases; intros E2 (_ & _ & HC2 & _); revert E2;
         apply HC2; rewrite ?(Hsel _ E12), ?(Hsel _ E13), ?orb_true_r;
         reflexivity
       | intros; split; intros; auto; discriminate ])
    | intros [[m12 M12] M21] [Hm12 HM] ].
  all: apply bind_cases with (Q := fun S12 => sel 14%Z = false -> S12 = None);
    [ destruct (sel 14%Z) eqn:E14; [|reflexivity];
      apply bind_cases with (Q := fun _ => True);
      [ apply series_cases; intros E4 (_ & _ & _ & _ & HC4); revert E4;
        apply HC4, Hsel, E14
      | intros;
        repeat match goal with
               | |- context [if ?b then _ else _] => destruct b
               end; discriminate ]
    | intros S12 HS12; cbn ].
  all: repeat split; auto.
  all: try (intros ->; reflexivity).
  all: try (intros -> ->; reflexivity).
  all: match goal with
       | E : _ = false |- _ => destruct (HM E); assumption
       end.
Qed.



End PositionFacts.

Section RayFacts.

Context {num : Type} `{Number num}.
Local Open Scope js_scope.

Lemma closed_lor (a b : Z) :
  closed a = true -> closed b = true -> closed (Z.lor a b) = true.
Proof.
  unfold closed. rewrite !andb_true_iff, !Z.lor_spec.
  intros (((((A1 & A2) & A3) & A4) & A5) & A6)
         (((((B1 & B2) & B3) & B4) & B5) & B6).
  repeat split;
    repeat match goal with
           | |- context [Z.testbit ?m ?k] => destruct (Z.testbit m k)
           end; cbn in *; congruence.
Qed.

Lemma closed_mask (fs : list GeodesicMask.flag) :
  closed (GeodesicMask.mask fs) = true.
Proof.
  induction fs as [|f fs IH]; [reflexivity|].
  cbn [GeodesicMask.mask fold_right]. apply closed_lor; [|exact IH].
  destruct f; reflexivity.
Qed.

Lemma closed_stored (caps : Z) :
  closed caps = true -> closed (stored_caps caps) = true.
Proof.
  intros Hc. unfold stored_caps. destruct (caps =? 0)%Z; [reflexivity|].
  repeat apply closed_lor; auto.
Qed.

Lemma new_caps (g : Geodesic.t num) (lat1 lon1 azi1 : num) (caps : Z) :
  GeodesicLine._caps (GeodesicLine.new g lat1 lon1 azi1 caps) =
  stored_caps caps.
Proof. reflexivity. Qed.

Lemma new_consistent (g : Geodesic.t num) (lat1 lon1 azi1 : num) (caps : Z) :
  closed caps = true ->
  consistent (GeodesicLine.new g lat1 lon1 azi1 caps).
Proof.
  intros Hc. apply closed_stored in Hc. unfold consistent.
  rewrite new_caps. cbv zeta. unfold closed in Hc.
  unfold GeodesicLine.new.
  cbn [GeodesicLine._C1a GeodesicLine._C1pa GeodesicLine._C2a
       GeodesicLine._C3a GeodesicLine._C4a].
  fold (stored_caps caps).
  change GeodesicMask.CAP_C1 with (Z.shiftl 1 0).
  change GeodesicMask.CAP_C1p with (Z.shiftl 1 1).
  change GeodesicMask.CAP_C2 with (Z.shiftl 1 2).
  change GeodesicMask.CAP_C3 with (Z.shiftl 1 3).
  change GeodesicMask.CAP_C4 with (Z.shiftl 1 4).
  rewrite !has_bit by lia.
  rewrite !andb_true_iff in Hc.
  destruct Hc as (((((A1 & A2) & A3) & A4) & A5) & A6).
  set (c := stored_caps caps) in *.
  assert (B0 : Z.testbit c 10 || Z.testbit c 12 || Z.testbit c 13 = true ->
               Z.testbit c 0 = true).
  { revert A2 A4 A5.
    destruct (Z.testbit c 10), (Z.testbit c 12), (Z.testbit c 13),
      (Z.testbit c 0); cbn; congruence. }
  assert (B1 : Z.testbit c 11 = true ->
               Z.testbit c 1 = true /\ Z.testbit c 0 = true).
  { revert A3. destruct (Z.testbit c 11), (Z.testbit c 0), (Z.testbit c 1);
      cbn; intuition congruence. }
  assert (B2 : Z.testbit c 12 || Z.testbit c 13 = true ->
               Z.testbit c 2 = true).
  { revert A4 A5.
    destruct (Z.testbit c 12), (Z.testbit c 13), (Z.testbit c 0),
      (Z.testbit c 2); cbn; congruence. }
  assert (B3 : Z.testbit c 8 = true -> Z.testbit c 3 = true).
  { revert A1. destruct (Z.testbit c 8), (Z.testbit c 3); cbn; congruence. }
  assert (B4 : Z.testbit c 14 = true -> Z.testbit c 4 = true).
  { revert A6. destruct (Z.testbit c 14), (Z.testbit c 4); cbn; congruence. }
  split; [|split; [|split; [|split]]]; intros Hb.
  - rewrite (B0 Hb). discriminate.
  - rewrite (proj1 (B1 Hb)), (proj2 (B1 Hb)). split; discriminate.
  - rewrite (B2 Hb). discriminate.
  - rewrite (B3 Hb). discriminate.
  - rewrite (B4 Hb). discriminate.
Qed.

(** A ray built from flags of the vocabulary is consistent. *)
Lemma new_mask_consistent (g : Geodesic.t num) (lat1 lon1 azi1 : num)
    (fs : list GeodesicMask.flag) :
  consistent (GeodesicLine.new g lat1 lon1 azi1 (GeodesicMask.mask fs)).
Proof. apply new_consistent, closed_mask. Qed.

Lemma GenPosition_consistent (l : GeodesicLine.t num) (arcmode : bool)
    (v : num) (outmask : Z) :
  consistent l ->
  exists r, GeodesicLine.GenPosition l arcmode v outmask = Ok r.
Proof.
  intros Hl.
  destruct (arcmode || Z.testbit (GeodesicLine._caps l) 11) eqn:Hg.
  - pose proof (GenPosition_fields l arcmode v outmask Hg) as Hf.
    cbv zeta in Hf.
    destruct (GeodesicLine.GenPosition l arcmode v outmask); [eauto|].
    contradiction.
  - unfold GeodesicLine.GenPosition. rewrite distance_in_bit, Hg. cbn. eauto.
Qed.

(** C1, amended: on every ray whose capability set lacks the DISTANCE_IN
    output bit, a distance-mode [GenPosition] returns, for every distance
    and output mask and without raising, the record whose [a12] is NaN and
    whose other fields are 0.  [GenPosition] has no assignment to the ray,
    so the ray the query leaves is the ray it was given, and an arc-mode
    query on it that returns has the arc it was asked for in [a12].  When
    the ray was built by the constructor from flags of the vocabulary,
    every arc-mode query on it does return, for every arc and mask. *)
Theorem GenPosition_without_distance_in (l : GeodesicLine.t num) (s12 : num)
    (outmask : Z) :
  Z.testbit (GeodesicLine._caps l) 11 = false ->
  GeodesicLine.GenPosition l false s12 outmask = Ok unavailable /\
  (forall a12 mask r,
     GeodesicLine.GenPosition l true a12 mask = Ok r ->
     GeodesicLine.pos_a12 r = a12) /\
  (forall g lat1 lon1 azi1 fs,
     l = GeodesicLine.new g lat1 lon1 azi1 (GeodesicMask.mask fs) ->
     forall a12 mask,
       exists r, GeodesicLine.GenPosition l true a12 mask = Ok r /\
                 GeodesicLine.pos_a12 r = a12).
Proof.
  intros Hbit.
  assert (Harc : forall a12 mask r,
             GeodesicLine.GenPosition l true a12 mask = Ok r ->
             GeodesicLine.pos_a12 r = a12).
  { intros a12 mask r Hr.
    pose proof (GenPosition_fields l true a12 mask eq_refl) as Hf.
    cbv zeta in Hf. rewrite Hr in Hf. apply Hf. reflexivity. }
  split; [|split].
  - unfold GeodesicLine.GenPosition. rewrite distance_in_bit, Hbit.
    reflexivity.
  - exact Harc.
  - intros g lat1 lon1 azi1 fs El a12 mask.
    destruct (@GenPosition_consistent l true a12 mask) as [r Hr].
    { rewrite El. apply new_mask_consistent. }
    exists r. split; [exact Hr | exact (Harc a12 mask r Hr)].
Qed.


End RayFacts.

Lemma GenPosition_without_distance_in_witness :
  Z.testbit (GeodesicLine._caps latitude_ray) 11 = false /\
  GeodesicLine.GenPosition latitude_ray false 1000%R GeodesicMask.DISTANCE =
    Ok unavailable /\
  (forall a12 mask,
     exists r, GeodesicLine.GenPosition latitude_ray true a12 mask = Ok r /\
               GeodesicLine.pos_a12 r = a12).
Proof.
  assert (Hb : Z.testbit (GeodesicLine._caps latitude_ray) 11 = false)
    by reflexivity.
  destruct (GenPosition_without_distance_in latitude_ray 1000%R
              GeodesicMask.DISTANCE Hb) as (H1 & _ & H3).
  split; [exact Hb|]. split; [exact H1|].
  exact (H3 sphere 0%R 0%R 0%R [GeodesicMask.Latitude] eq_refl).
Defined.

(** ** The inverse solver: iteration budget and mask discipline *)

Section InverseFacts.

Context {num : Type} `{Number num}.
Local Open Scope js_scope.

Variable g : Geodesic.t num.

(** A pass ends in a Newton step only among the first [maxit1]. *)
Lemma loop_body_Newton (r : Geodesic.Reduced num) (C1a C2a C3a : list num)
    (numit : nat) (st : Geodesic.LoopState num) :
  snd (Geodesic.loop_body g r C1a C2a C3a numit st) = Geodesic.Newton ->
  (numit < Accuracy.maxit1)%nat.
Proof.
  unfold Geodesic.loop_body.
  destruct (numit <? Accuracy.maxit1)%nat eqn:E.
  - intros _. apply Nat.ltb_lt, E.
  - cbv zeta. cbn [andb orb].
    repeat match goal with
           | |- context [if ?b then _ else _] => destruct b
           end; cbn; intros; discriminate.
Qed.

Lemma solve_loop_length (r : Geodesic.Reduced num) (C1a C2a C3a : list num)
    (todo numit : nat) (st : Geodesic.LoopState num) :
  (length (snd (Geodesic.solve_loop g r C1a C2a C3a todo numit st)) <= todo)%nat.
Proof.
  revert numit st. induction todo as [|todo IH]; intros numit st; cbn.
  - lia.
  - destruct (Geodesic.loop_body g r C1a C2a C3a numit st) as [st' k].
    specialize (IH (S numit) st').
    destruct (Geodesic.solve_loop g r C1a C2a C3a todo (S numit) st')
      as [st'' ks].
    destruct k; cbn in *; lia.
Qed.

Lemma solve_loop_Newton (r : Geodesic.Reduced num) (C1a C2a C3a : list num)
    (todo numit : nat) (st : Geodesic.LoopState num) (i : nat) :
  nth_error (snd (Geodesic.solve_loop g r C1a C2a C3a todo numit st)) i =
    Some Geodesic.Newton ->
  (numit + i < Accuracy.maxit1)%nat.
Proof.
  revert numit st i. induction todo as [|todo IH]; intros numit st i; cbn.
  - destruct i; discriminate.
  - pose proof (loop_body_Newton r C1a C2a C3a numit st) as HN.
    destruct (Geodesic.loop_body g r C1a C2a C3a numit st) as [st' k].
    specialize (IH (S numit) st').
    destruct (Geodesic.solve_loop g r C1a C2a C3a todo (S numit) st')
      as [st'' ks].
    cbn [snd] in *.
    destruct k; cbn [snd].
    + destruct i as [|[|i]]; discriminate.
    + destruct i as [|i]; cbn.
      * intros _. specialize (HN eq_refl). lia.
      * intros Hi. specialize (IH i Hi). lia.
    + destruct i as [|i]; cbn; [discriminate|].
      intros Hi. specialize (IH i Hi). lia.
Qed.

(** The passes of [GenInverse] are those of one run of the loop, or none. *)
Lemma GenInverse_run_steps (lat1 lon1 lat2 lon2 : num) (outmask : Z) :
  let steps := snd (Geodesic.GenInverse_run g lat1 lon1 lat2 lon2 outmask) in
  steps = [] \/
  exists r C1a C2a C3a st,
    steps = snd (Geodesic.solve_loop g r C1a C2a C3a Accuracy.maxit2 0 st).
Proof.
  unfold Geodesic.GenInverse_run, Geodesic.solve. cbv zeta.
  match goal with
  | |- context [if ?b then Geodesic.meridional _ _ _ _ _ _ else _] =>
      set (s := if b then _ else _)
  end.
  destruct (negb (Geodesic.s_meridian s) && Geodesic.equatorial_test g _);
    [left; reflexivity|].
  destruct (negb (Geodesic.s_meridian s)); [|left; reflexivity].
  unfold Geodesic.general.
  destruct (Geodesic.IS_sig12 _ >=? #0); [left; reflexivity|].
  cbv zeta.
  match goal with
  | |- context [Geodesic.solve_loop g ?r ?a ?b ?c ?n ?i ?st] =>
      right; exists r, a, b, c, st;
      destruct (Geodesic.solve_loop g r a b c n i st); reflexivity
  end.
Qed.

(** C3: [GenInverse] is a total function: for every ellipsoid, pair of
    points and mask it returns a record.  Its refinement loop makes at most
    [maxit2 = 20 + 53 + 10 = 83] passes, a Newton step ends a pass only
    among the first [maxit1 = 20], and when the passes are used up the loop
    hands the azimuth it has to the rest of the function. *)
Theorem GenInverse_budget (lat1 lon1 lat2 lon2 : num) (outmask : Z) :
  let steps := snd (Geodesic.GenInverse_run g lat1 lon1 lat2 lon2 outmask) in
  Accuracy.maxit1 = 20%nat /\
  Accuracy.maxit2 = (20 + 53 + 10)%nat /\
  (length steps <= 83)%nat /\
  (forall i, nth_error steps i = Some Geodesic.Newton -> (i < 20)%nat) /\
  (forall r C1a C2a C3a numit st,
     Geodesic.solve_loop g r C1a C2a C3a 0 numit st = (st, [])) /\
  Geodesic.GenInverse g lat1 lon1 lat2 lon2 outmask =
    fst (Geodesic.GenInverse_run g lat1 lon1 lat2 lon2 outmask).
Proof.
  intros steps.
  split; [reflexivity|]. split; [reflexivity|].
  destruct (GenInverse_run_steps lat1 lon1 lat2 lon2 outmask)
    as [E | (r & C1a & C2a & C3a & st & E)]; fold steps in E; rewrite E.
  - repeat split; cbn; try lia. intros [|i]; discriminate.
  - split; [apply (solve_loop_length r C1a C2a C3a Accuracy.maxit2 0 st)|].
    split; [|split; reflexivity].
    intros i Hi.
    apply (solve_loop_Newton r C1a C2a C3a Accuracy.maxit2 0 st i Hi).
Qed.

Lemma outputs_azimuth (c : Geodesic.Canon num) (r : Geodesic.Reduced num)
    (s : Geodesic.Sol num) (outmask : Z) :
  has outmask GeodesicMask.AZIMUTH = false ->
  Geodesic.inv_azi1 (Geodesic.outputs g c r s outmask) = #0 /\
  Geodesic.inv_azi2 (Geodesic.outputs g c r s outmask) = #0.
Proof.
  intros E. unfold Geodesic.outputs. rewrite E.
  destruct (Geodesic.c_swapp c <? #0); cbn; auto.
Qed.

End InverseFacts.

Section MaskDiscipline.

Context {num : Type} `{Number num}.
Local Open Scope js_scope.

(** C7, amended: with an output mask of the DISTANCE flag alone,
    [GenInverse] returns [azi1 = azi2 = 0] for every ellipsoid and pair of
    points; and on every ray that the constructor has built from flags of
    the vocabulary [GenPosition], in either mode, returns a record with
    [lat2], [lon2] and [azi2] at 0, a record that has no [azi1] (the
    azimuth at the first point is an input of the ray, not an output).  On
    any other ray the query may raise instead; a record it returns has the
    same zeros. *)
Theorem distance_only (g : Geodesic.t num) :
  (forall lat1 lon1 lat2 lon2,
     let vals := Geodesic.GenInverse g lat1 lon1 lat2 lon2
                   GeodesicMask.DISTANCE in
     Geodesic.inv_azi1 vals = #0 /\ Geodesic.inv_azi2 vals = #0) /\
  (forall (l : GeodesicLine.t num) arcmode v r,
     GeodesicLine.GenPosition l arcmode v GeodesicMask.DISTANCE = Ok r ->
     GeodesicLine.pos_lat2 r = #0 /\ GeodesicLine.pos_lon2 r = #0 /\
     GeodesicLine.pos_azi2 r = #0 /\ GeodesicLine.get r "azi1" = None) /\
  (forall lat1 lon1 azi1 fs arcmode v,
     exists r,
       GeodesicLine.GenPosition
         (GeodesicLine.new g lat1 lon1 azi1 (GeodesicMask.mask fs))
         arcmode v GeodesicMask.DISTANCE = Ok r /\
       GeodesicLine.pos_lat2 r = #0 /\ GeodesicLine.pos_lon2 r = #0 /\
       GeodesicLine.pos_azi2 r = #0 /\ GeodesicLine.get r "azi1" = None).
Proof.
  assert (Hzero : forall (l : GeodesicLine.t num) arcmode v r,
            GeodesicLine.GenPosition l arcmode v GeodesicMask.DISTANCE =
              Ok r ->
            GeodesicLine.pos_lat2 r = #0 /\ GeodesicLine.pos_lon2 r = #0 /\
            GeodesicLine.pos_azi2 r = #0 /\
            GeodesicLine.get r "azi1" = None).
  { intros l arcmode v r Hr.
    destruct (arcmode || Z.testbit (GeodesicLine._caps l) 11) eqn:Hg.
    + pose proof (GenPosition_fields l arcmode v GeodesicMask.DISTANCE Hg)
        as Hf.
      cbv zeta in Hf. rewrite Hr in Hf.
      destruct Hf as (_ & Hlat & Hlon & Hazi & _).
      repeat split; [apply Hlat | apply Hlon | apply Hazi]; reflexivity.
    + unfold GeodesicLine.GenPosition in Hr.
      rewrite distance_in_bit, Hg in Hr. cbn in Hr.
      injection Hr as <-. repeat split. }
  split; [|split].
  - intros lat1 lon1 lat2 lon2 vals. subst vals.
    unfold Geodesic.GenInverse, Geodesic.GenInverse_run.
    destruct (Geodesic.solve g _ _ _ _) as [[r s] steps]. cbn [fst].
    apply outputs_azimuth. reflexivity.
  - exact Hzero.
  - intros lat1 lon1 azi1 fs arcmode v.
    destruct (@GenPosition_consistent _ _
                (GeodesicLine.new g lat1 lon1 azi1 (GeodesicMask.mask fs))
                arcmode v GeodesicMask.DISTANCE
                (new_mask_consistent g lat1 lon1 azi1 fs)) as [r Hr].
    exists r. split; [exact Hr | exact (Hzero _ _ _ _ Hr)].
Qed.

End MaskDiscipline.

(** C7, as stated, fails on one field: the object [GenPosition] returns has
    no [azi1].  On the unit sphere, the ray from (0, 0) at azimuth 0 with
    every capability, asked in arc mode at arc 0 under DISTANCE alone,
    returns a record in which [azi2] reads 0 and [azi1] reads [undefined]. *)
Lemma position_without_azi1 :
  exists r,
    GeodesicLine.GenPosition (GeodesicLine.new sphere 0%R 0%R 0%R 0) true 0%R
      GeodesicMask.DISTANCE = Ok r /\
    GeodesicLine.get r "azi2" = Some 0%R /\
    GeodesicLine.get r "azi1" = None.
Proof.
  set (l := GeodesicLine.new sphere 0%R 0%R 0%R 0).
  destruct (@GenPosition_consistent R _ l true 0%R GeodesicMask.DISTANCE)
    as [r Hr]; [apply new_consistent; reflexivity|].
  exists r. split; [exact Hr|]. split; [|reflexivity].
  pose proof (GenPosition_fields l true 0%R GeodesicMask.DISTANCE eq_refl)
    as Hf.
  cbv zeta in Hf. rewrite Hr in Hf. destruct Hf as (_ & _ & _ & Hazi & _).
  change (GeodesicLine.get r "azi2") with (Some (GeodesicLine.pos_azi2 r)).
  f_equal. apply Hazi. reflexivity.
Qed.

(** ** Over the reals: the angle helpers *)

(** The operations of the interface at the reals, unfolded. *)
Ltac ideal :=
  cbn [of_Z NaN nadd nsub nmul ndiv nrem nneg neqb nltb nleb isFinite
       Math_PI Math_abs Math_sqrt Math_floor Math_sin Math_cos Math_atan
       Math_log Math_atan2 Math_pow Math_max Math_min Ideal.number] in *.

Lemma leb_true (x y : R) : (x <= y)%R -> Ideal.leb x y = true.
Proof. intros Hx. unfold Ideal.leb. destruct (Rle_dec x y); tauto. Qed.

Lemma leb_false (x y : R) : (y < x)%R -> Ideal.leb x y = false.
Proof. intros Hx. unfold Ideal.leb. destruct (Rle_dec x y); [lra | tauto]. Qed.

Lemma ltb_true (x y : R) : (x < y)%R -> Ideal.ltb x y = true.
Proof. intros Hx. unfold Ideal.ltb. destruct (Rlt_dec x y); tauto. Qed.

Lemma ltb_false (x y : R) : (y <= x)%R -> Ideal.ltb x y = false.
Proof. intros Hx. unfold Ideal.ltb. destruct (Rlt_dec x y); [lra | tauto]. Qed.

Lemma eqb_true (x y : R) : x = y -> Ideal.eqb x y = true.
Proof. intros Hx. unfold Ideal.eqb. destruct (Req_dec_T x y); tauto. Qed.

Lemma eqb_false (x y : R) : x <> y -> Ideal.eqb x y = false.
Proof. intros Hx. unfold Ideal.eqb. destruct (Req_dec_T x y); tauto. Qed.

(** Decide the comparisons of the goal that linear arithmetic settles. *)
Ltac compare :=
  repeat match goal with
  | |- context [Ideal.leb ?x ?y] =>
      first [rewrite (@leb_true x y) by lra | rewrite (@leb_false x y) by lra]
  | |- context [Ideal.ltb ?x ?y] =>
      first [rewrite (@ltb_true x y) by lra | rewrite (@ltb_false x y) by lra]
  | |- context [Ideal.eqb ?x ?y] =>
      first [rewrite (@eqb_true x y) by lra | rewrite (@eqb_false x y) by lra]
  end.

Lemma angNormalize_cases (x : R) :
  GeoMath.angNormalize x =
  if Rle_dec 180 x then (x - 360)%R
  else if Rlt_dec x (-180) then (x + 360)%R else x.
Proof.
  unfold GeoMath.angNormalize. ideal. unfold Ideal.leb, Ideal.ltb.
  destruct (Rle_dec 180 x), (Rlt_dec x (-180)); reflexivity.
Qed.

(** C8, as stated, fails: [angNormalize] subtracts or adds 360 at most once,
    so 1000 is sent to 640, outside [-180, 180). *)
Lemma angNormalize_1000 :
  ~ (-180 <= GeoMath.angNormalize 1000%R < 180)%R.
Proof.
  rewrite angNormalize_cases.
  destruct (Rle_dec 180 1000); [lra|].
  exfalso. apply n. lra.
Qed.

(** C8, amended: on its restricted input range, [-540 <= x < 540],
    [angNormalize x] lies in [-180, 180) and differs from [x] by a multiple
    of 360. *)
Theorem angNormalize_range (x : R) :
  (-540 <= x < 540)%R ->
  (-180 <= GeoMath.angNormalize x < 180)%R /\
  exists k : Z, GeoMath.angNormalize x = (x + 360 * IZR k)%R.
Proof.
  intros Hx. rewrite angNormalize_cases.
  destruct (Rle_dec 180 x); [|destruct (Rlt_dec x (-180))].
  - split; [lra|]. exists (-1)%Z. lra.
  - split; [lra|]. exists 1%Z. lra.
  - split; [lra|]. exists 0%Z. lra.
Qed.

Lemma angNormalize_range_witness :
  (-540 <= 270 < 540)%R /\
  ((-180 <= GeoMath.angNormalize 270%R < 180)%R /\
   exists k : Z, GeoMath.angNormalize 270%R = (270 + 360 * IZR k)%R).
Proof.
  assert (H : (-540 <= 270 < 540)%R) by lra.
  split; [exact H | exact (angNormalize_range H)].
Defined.

(** On doubles the same input runs to the same value. *)
Example angNormalize_1000_double :
  @GeoMath.angNormalize float (Double.number Double.no_host) 1000%float =
  640%float.
Proof. vm_compute. reflexivity. Qed.

(** ** Over the reals: the series evaluator *)

Section Clenshaw.

(** The recurrence of [SinCosSeries] sums [c i * F i] for any [F] that
    satisfies the three-term relation with the multiplier [ar]. *)
Variable c : list R.
Variable ar : R.
Variable F : Z -> R.
Hypothesis F_rec : forall k : Z, (F (k + 1) + F (k - 1) = ar * F k)%R.

(** The terms from [k] up to (not including) [k0]. *)
Variable k0 : nat.
Local Abbreviation tail := (series_tail c F k0).

Lemma tail_last : tail k0 = 0%R.
Proof. unfold series_tail, series_sum. now rewrite Nat.sub_diag. Qed.

Lemma tail_pred (k : nat) :
  (k < k0)%nat ->
  tail k = (aget c k * F (Z.of_nat k) + tail (S k))%R.
Proof.
  intros Hk. unfold series_tail, series_sum.
  replace (k0 - k)%nat with (S (k0 - S k)) by lia. reflexivity.
Qed.

Lemma clenshaw_step (k : nat) (y0 y1 : R) :
  (k < k0)%nat ->
  tail (S k) = (y0 * F (Z.of_nat (S k)) - y1 * F (Z.of_nat k))%R ->
  tail k = ((ar * y0 - y1 + aget c k) * F (Z.of_nat k) -
            y0 * F (Z.of_nat k - 1))%R.
Proof.
  intros Hk Hinv. rewrite (tail_pred Hk), Hinv.
  pose proof (F_rec (Z.of_nat k)) as Hr.
  replace (Z.of_nat (S k)) with (Z.of_nat k + 1)%Z by lia.
  nra.
Qed.

Lemma SinCosSeries_loop_sums (m : nat) :
  forall (k : nat) (y0 y1 : R),
    (2 * m <= k <= k0)%nat ->
    tail k = (y0 * F (Z.of_nat k) - y1 * F (Z.of_nat k - 1))%R ->
    let '(z0, z1) := Geodesic.SinCosSeries_loop m ar c k y0 y1 in
    tail (k - 2 * m) =
    (z0 * F (Z.of_nat (k - 2 * m)) - z1 * F (Z.of_nat (k - 2 * m) - 1))%R.
Proof.
  induction m as [|m IH]; intros k y0 y1 Hk Hinv.
  - cbn. now rewrite Nat.sub_0_r.
  - destruct k as [|[|k]]; try lia.
    cbn [Geodesic.SinCosSeries_loop pred]. ideal.
    replace (S (S k) - 2 * S m)%nat with (k - 2 * m)%nat by lia.
    apply IH; [lia|].
    assert (H1 : tail (S k) =
                 ((ar * y0 - y1 + aget c (S k)) * F (Z.of_nat (S k)) -
                  y0 * F (Z.of_nat (S k) - 1))%R).
    { apply clenshaw_step; [lia|].
      replace (Z.of_nat (S k)) with (Z.of_nat (S (S k)) - 1)%Z by lia.
      exact Hinv. }
    replace (Z.of_nat k - 1)%Z with (Z.of_nat k - 1)%Z by lia.
    apply clenshaw_step; [lia|].
    replace (Z.of_nat k) with (Z.of_nat (S k) - 1)%Z by lia.
    exact H1.
Qed.

End Clenshaw.

Lemma double_angle_multiplier (theta : R) :
  (2 * (cos theta - sin theta) * (cos theta + sin theta) =
   2 * cos (2 * theta))%R.
Proof. rewrite cos_2a. ring. Qed.

Lemma even_multiples_rec (theta : R) (k : Z) :
  (sin (2 * IZR (k + 1) * theta) + sin (2 * IZR (k - 1) * theta) =
   2 * cos (2 * theta) * sin (2 * IZR k * theta))%R.
Proof.
  rewrite plus_IZR, minus_IZR.
  replace (2 * (IZR k + 1) * theta)%R
    with (2 * IZR k * theta + 2 * theta)%R by ring.
  replace (2 * (IZR k - 1) * theta)%R
    with (2 * IZR k * theta - 2 * theta)%R by ring.
  rewrite sin_plus, sin_minus. ring.
Qed.

Lemma odd_multiples_rec (theta : R) (k : Z) :
  (cos ((2 * IZR (k + 1) + 1) * theta) + cos ((2 * IZR (k - 1) + 1) * theta) =
   2 * cos (2 * theta) * cos ((2 * IZR k + 1) * theta))%R.
Proof.
  rewrite plus_IZR, minus_IZR.
  replace ((2 * (IZR k + 1) + 1) * theta)%R
    with ((2 * IZR k + 1) * theta + 2 * theta)%R by ring.
  replace ((2 * (IZR k - 1) + 1) * theta)%R
    with ((2 * IZR k + 1) * theta - 2 * theta)%R by ring.
  rewrite cos_plus, cos_minus. ring.
Qed.

Lemma series_sum_ext (f h : nat -> R) (lo n : nat) :
  (forall i, f i = h i) -> series_sum f lo n = series_sum h lo n.
Proof.
  intros E. unfold series_sum. revert lo.
  induction n as [|n IH]; intros lo; cbn; [reflexivity|].
  now rewrite E, IH.
Qed.

(** C9, as stated, fails: the sine sum is not over the multiples [i * theta].
    With one coefficient [c1 = 1] and [theta = PI / 2] the evaluator gives
    [sin PI = 0] where the stated sum is [sin (PI / 2) = 1]. *)
Lemma SinCosSeries_not_single_multiples :
  Geodesic.SinCosSeries true (sin (PI / 2)) (cos (PI / 2)) [0; 1]%R 1 <>
  stated_sine_series [0; 1]%R 1 (PI / 2).
Proof.
  unfold stated_sine_series, series_sum, Geodesic.SinCosSeries, aget.
  cbn. ideal. rewrite sin_PI2, cos_PI2.
  replace (1 * (PI / 2))%R with (PI / 2)%R by ring.
  rewrite sin_PI2. lra.
Qed.

(** C9, amended: for every order [n], coefficients [c] and angle [theta],
    [SinCosSeries] called with [sin theta] and [cos theta] returns, by the
    Clenshaw recurrence with the multiplier [2 (cos theta - sin theta)
    (cos theta + sin theta) = 2 cos (2 theta)], the sine series over the even
    multiples, [c 1 sin (2 theta) + ... + c n sin (2 n theta)], and the
    cosine series over the odd multiples,
    [c 0 cos theta + ... + c (n-1) cos ((2 n - 1) theta)]. *)
Theorem SinCosSeries_sums (n : nat) (c : list R) (theta : R) :
  Geodesic.SinCosSeries true (sin theta) (cos theta) c n =
    sine_series c n theta /\
  Geodesic.SinCosSeries false (sin theta) (cos theta) c n =
    cosine_series c n theta.
Proof.
  pose proof (Nat.div2_odd n) as Hn.
  set (ar := (2 * (cos theta - sin theta) * (cos theta + sin theta))%R).
  assert (Har : ar = (2 * cos (2 * theta))%R)
    by apply double_angle_multiplier.
  split.
  - (* sines: F k = sin (2 k theta), the terms below k0 = n + 1 *)
    set (F := fun k : Z => sin (2 * IZR k * theta)).
    assert (Frec : forall k, (F (k + 1)%Z + F (k - 1)%Z = ar * F k)%R).
    { intros k. unfold F. rewrite Har. apply even_multiples_rec. }
    unfold Geodesic.SinCosSeries. ideal. fold ar.
    replace (n + 1)%nat with (S n) by lia. cbn [pred].
    pose proof (@SinCosSeries_loop_sums c ar F Frec (S n) (Nat.div2 n)) as HL.
    cbv beta in HL.
    assert (Hend : forall z0 z1 : R,
      series_sum (fun i => (aget c i * F (Z.of_nat i))%R) 1 (S n - 1) =
        (z0 * F 1%Z - z1 * F 0%Z)%R ->
      (2 * sin theta * cos theta * z0)%R = sine_series c n theta).
    { intros z0 z1 Hz. unfold sine_series.
      replace (S n - 1)%nat with n in Hz by lia.
      erewrite series_sum_ext; [rewrite Hz|].
      - unfold F. replace (2 * 0 * theta)%R with 0%R by ring.
        replace (2 * 1 * theta)%R with (2 * theta)%R by ring.
        rewrite sin_0, sin_2a. ring.
      - intros i. unfold F. now rewrite INR_IZR_INZ. }
    destruct (Nat.odd n) eqn:Hodd; cbn [Nat.b2n] in Hn.
    + specialize (HL n (aget c n) 0%R).
      destruct (Geodesic.SinCosSeries_loop (Nat.div2 n) ar c n (aget c n) 0%R)
        as [z0 z1].
      replace (n - 2 * Nat.div2 n)%nat with 1%nat in HL by lia.
      apply (Hend z0 z1). apply HL; [lia|].
      rewrite (@tail_pred c F (S n) n) by lia.
      rewrite tail_last. ring.
    + specialize (HL (S n) 0%R 0%R).
      destruct (Geodesic.SinCosSeries_loop (Nat.div2 n) ar c (S n) 0%R 0%R)
        as [z0 z1].
      replace (S n - 2 * Nat.div2 n)%nat with 1%nat in HL by lia.
      apply (Hend z0 z1). apply HL; [lia|].
      rewrite tail_last. ring.
  - (* cosines: F k = cos ((2 k + 1) theta), the terms below k0 = n *)
    set (F := fun k : Z => cos ((2 * IZR k + 1) * theta)).
    assert (Frec : forall k, (F (k + 1)%Z + F (k - 1)%Z = ar * F k)%R).
    { intros k. unfold F. rewrite Har. apply odd_multiples_rec. }
    unfold Geodesic.SinCosSeries. ideal. fold ar.
    rewrite Nat.add_0_r.
    pose proof (@SinCosSeries_loop_sums c ar F Frec n (Nat.div2 n)) as HL.
    cbv beta in HL.
    assert (Hend : forall z0 z1 : R,
      series_sum (fun i => (aget c i * F (Z.of_nat i))%R) 0 (n - 0) =
        (z0 * F 0%Z - z1 * F (0 - 1)%Z)%R ->
      (cos theta * (z0 - z1))%R = cosine_series c n theta).
    { intros z0 z1 Hz. unfold cosine_series.
      rewrite Nat.sub_0_r in Hz.
      erewrite series_sum_ext; [rewrite Hz|].
      - unfold F. cbn [Z.sub Z.add Z.opp Z.pos_sub].
        replace ((2 * 0 + 1) * theta)%R with theta by ring.
        replace ((2 * -1 + 1) * theta)%R with (- theta)%R by ring.
        rewrite cos_neg. ring.
      - intros i. unfold F. now rewrite INR_IZR_INZ. }
    destruct (Nat.odd n) eqn:Hodd; cbn [Nat.b2n] in Hn.
    + destruct n as [|n']; [discriminate|]. cbn [pred].
      specialize (HL n' (aget c n') 0%R).
      destruct (Geodesic.SinCosSeries_loop (Nat.div2 (S n')) ar c n'
                  (aget c n') 0%R) as [z0 z1].
      replace (n' - 2 * Nat.div2 (S n'))%nat with 0%nat in HL by lia.
      apply (Hend z0 z1). apply HL; [lia|].
      rewrite (@tail_pred c F (S n') n') by lia.
      rewrite tail_last.
      replace (Z.of_nat n' - 1)%Z with (Z.of_nat n' - 1)%Z by lia. ring.
    + specialize (HL n 0%R 0%R).
      destruct (Geodesic.SinCosSeries_loop (Nat.div2 n) ar c n 0%R 0%R)
        as [z0 z1].
      replace (n - 2 * Nat.div2 n)%nat with 0%nat in HL by lia.
      apply (Hend z0 z1). apply HL; [lia|].
      rewrite tail_last. ring.
Qed.

(** ** Over the reals: the inverse solver on the equator *)

Lemma AngRound_real (x : R) : Geodesic.AngRound x = x.
Proof.
  unfold Geodesic.AngRound. ideal. unfold Ideal.ltb.
  destruct (Rlt_dec (Rabs x) (1 / 16)), (Rlt_dec x 0).
  - rewrite Rabs_left by lra. ring.
  - rewrite Rabs_right by lra. ring.
  - rewrite Rabs_left by lra. ring.
  - rewrite Rabs_right by lra. ring.
Qed.

Lemma angDiff_real (x y : R) :
  GeoMath.angDiff x y =
  if Rlt_dec 180 (y - x) then (y - x - 360)%R
  else if Rle_dec (y - x) (-180) then (y - x + 360)%R
  else (y - x)%R.
Proof.
  unfold GeoMath.angDiff. ideal. unfold Ideal.ltb, Ideal.leb.
  repeat match goal with
         | |- context [Rlt_dec ?a ?b] => destruct (Rlt_dec a b)
         | |- context [Rle_dec ?a ?b] => destruct (Rle_dec a b)
         end; lra.
Qed.

Lemma truthy_real (x : R) : truthy x = negb (Ideal.eqb x 0).
Proof.
  unfold truthy. ideal. rewrite (eqb_true (eq_refl x)). apply andb_true_r.
Qed.

(** Over the reals [GeoMath.hypot] is the Euclidean norm. *)
Lemma hypot_real (x y : R) : GeoMath.hypot x y = sqrt (x * x + y * y).
Proof.
  unfold GeoMath.hypot. ideal. rewrite truthy_real.
  set (a := Rmax (Rabs x) (Rabs y)). set (m := Rmin (Rabs x) (Rabs y)).
  assert (Ha : (0 <= a)%R).
  { unfold a. apply Rle_trans with (Rabs x); [apply Rabs_pos | apply Rmax_l]. }
  assert (Hm : (0 <= m)%R).
  { unfold m. apply Rmin_glb; apply Rabs_pos. }
  assert (Hma : (m <= a)%R).
  { unfold a, m. apply Rle_trans with (Rabs x); [apply Rmin_l | apply Rmax_l]. }
  assert (Hsq : (a * a + m * m = x * x + y * y)%R).
  { unfold a, m, Rmax, Rmin.
    pose proof (Rsqr_abs x) as Hx. pose proof (Rsqr_abs y) as Hy.
    unfold Rsqr in Hx, Hy.
    destruct (Rle_dec (Rabs x) (Rabs y)); lra. }
  rewrite <- Hsq. unfold Ideal.eqb. destruct (Req_dec_T a 0) as [E|E]; cbn.
  - assert (m = 0%R) by lra. subst m. rewrite E, H. now rewrite !Rmult_0_l,
      Rplus_0_l, sqrt_0.
  - replace (a * a + m * m)%R with (a * a * (1 + m / a * (m / a)))%R
      by (field; assumption).
    rewrite sqrt_mult_alt by nra. rewrite sqrt_square by assumption.
    reflexivity.
Qed.

Lemma atan2_on_axis (y : R) :
  (y < 0)%R -> Ideal.atan2 y 0 = (- PI / 2)%R.
Proof.
  intros Hy. unfold Ideal.atan2.
  destruct (Rlt_dec 0 0); [lra|]. destruct (Rlt_dec 0 y); [lra|].
  destruct (Rlt_dec y 0); [reflexivity | lra].
Qed.

Lemma atan2_on_axis_pos (y : R) :
  (0 < y)%R -> Ideal.atan2 y 0 = (PI / 2)%R.
Proof.
  intros Hy. unfold Ideal.atan2.
  destruct (Rlt_dec 0 0); [lra|]. destruct (Rlt_dec 0 y); [reflexivity | lra].
Qed.

(** Both endpoints on the equator: the reduced latitudes. *)
Lemma reduced_equator (g : Geodesic.t R) (lon12 : R) :
  Geodesic.reduced g 0%R 0%R lon12 =
  Geodesic.mkReduced 0%R 1%R 0%R 1%R 1%R 1%R (lon12 * (PI / 180))%R
    (if Ideal.eqb lon12 180 then 0%R else sin (lon12 * (PI / 180)))
    (cos (lon12 * (PI / 180))).
Proof.
  unfold Geodesic.reduced, GeoMath.degree, GeoMath.sq. ideal.
  replace (0 * (PI / 180))%R with 0%R by ring.
  rewrite sin_0, cos_0, Rabs_R0, Rmult_0_r.
  compare. rewrite hypot_real.
  replace (0 * 0 + 1 * 1)%R with 1%R by ring. rewrite sqrt_1.
  replace (0 / 1)%R with 0%R by field. replace (1 / 1)%R with 1%R by field.
  rewrite Rabs_R0. compare.
  replace (1 + Geodesic._ep2 g * (0 * 0))%R with 1%R by ring.
  rewrite sqrt_1. reflexivity.
Qed.

Lemma canonical_equator (lon1 lon2 : R) :
  Geodesic.canonical 0%R lon1 0%R lon2 =
  Geodesic.mkCanon 0%R 0%R (Rabs (lon_difference lon1 lon2)) 1%R
    (if Rle_dec 0 (lon_difference lon1 lon2) then 1%R else (-1)%R) (-1)%R.
Proof.
  unfold Geodesic.canonical. fold (lon_difference lon1 lon2).
  set (d := lon_difference lon1 lon2).
  rewrite AngRound_real. ideal. rewrite Rabs_R0. compare.
  unfold Ideal.leb.
  destruct (Rle_dec 0 d); f_equal; try ring.
  - rewrite Rabs_right by lra. ring.
  - rewrite Rabs_left by lra. ring.
Qed.

Lemma sin_lam12_pos (lon12 : R) :
  (0 < lon12 < 180)%R -> (0 < sin (lon12 * (PI / 180)))%R.
Proof.
  intros Hl. pose proof PI_RGT_0 as Hpi. apply sin_gt_0.
  - apply Rmult_lt_0_compat; lra.
  - replace PI with (180 * (PI / 180))%R at 2 by field.
    apply Rmult_lt_compat_r; lra.
Qed.

(** Between equatorial points less than 180 degrees apart the solver takes
    the equatorial branch whenever its test on [lam12] holds. *)
Lemma solve_equatorial (g : Geodesic.t R) (lon12 : R) (outmask : Z) :
  (0 < lon12 < 180)%R ->
  (Geodesic._f g <= 0 \/
   lon12 * (PI / 180) <= PI - Geodesic._f g * PI)%R ->
  let r := Geodesic.reduced g 0%R 0%R lon12 in
  Geodesic.solve g 0%R 0%R lon12 outmask =
  (r, Geodesic.equatorial g r lon12
        (has outmask GeodesicMask.GEODESICSCALE) (Geodesic.Sol0 false), []).
Proof.
  intros Hl Hf r. unfold Geodesic.solve. fold r.
  assert (Hs : Geodesic.r_slam12 r = sin (lon12 * (PI / 180))).
  { unfold r. rewrite reduced_equator. cbn. now rewrite eqb_false by lra. }
  assert (Hm : (0%R =? #(-90))%js || (Geodesic.r_slam12 r =? #0)%js = false).
  { rewrite Hs. ideal. pose proof (sin_lam12_pos Hl).
    rewrite !eqb_false by lra. reflexivity. }
  cbv zeta. rewrite Hm. cbn [Geodesic.Sol0 Geodesic.s_meridian negb andb].
  assert (Ht : Geodesic.equatorial_test g r = true).
  { unfold Geodesic.equatorial_test, r. rewrite reduced_equator.
    cbn [Geodesic.r_sbet1 Geodesic.r_lam12]. ideal.
    rewrite eqb_true by reflexivity. cbn [andb].
    destruct Hf as [Hf|Hf].
    - now rewrite leb_true by assumption.
    - rewrite (leb_true Hf). apply orb_true_r. }
  rewrite Ht. reflexivity.
Qed.

(** The tests of [GenInverse] on [outmask & OUT_ALL], by bits. *)
Lemma inv_distance (m : Z) :
  has (Z.land m GeodesicMask.OUT_ALL) GeodesicMask.DISTANCE = Z.testbit m 10.
Proof. out_bits. reflexivity. Qed.

Lemma inv_reducedlength (m : Z) :
  has (Z.land m GeodesicMask.OUT_ALL) GeodesicMask.REDUCEDLENGTH =
  Z.testbit m 12.
Proof. out_bits. reflexivity. Qed.

Lemma inv_geodesicscale (m : Z) :
  has (Z.land m GeodesicMask.OUT_ALL) GeodesicMask.GEODESICSCALE =
  Z.testbit m 13.
Proof. out_bits. reflexivity. Qed.

Lemma inv_azimuth (m : Z) :
  has (Z.land m GeodesicMask.OUT_ALL) GeodesicMask.AZIMUTH = Z.testbit m 9.
Proof. out_bits. reflexivity. Qed.

Lemma inv_area (m : Z) :
  has (Z.land m GeodesicMask.OUT_ALL) GeodesicMask.AREA = Z.testbit m 14.
Proof. out_bits. reflexivity. Qed.

Lemma quarter_turn : ((PI / 2) / (PI / 180) = 90)%R.
Proof. pose proof PI_RGT_0. field. lra. Qed.

(** The record [GenInverse] returns from the equatorial branch. *)
Lemma GenInverse_equatorial (g : Geodesic.t R) (lon1 lon2 : R) (outmask : Z) :
  let d := lon_difference lon1 lon2 in
  let lam12 := (Rabs d * (PI / 180))%R in
  (0 < Rabs d < 180)%R ->
  (Geodesic._f g <= 0 \/ lam12 <= PI - Geodesic._f g * PI)%R ->
  let vals := Geodesic.GenInverse g 0%R lon1 0%R lon2 outmask in
  let east := if Rle_dec 0 d then 90%R else (-90)%R in
  Geodesic.inv_a12 vals = (Rabs d / Geodesic._f1 g)%R /\
  Geodesic.inv_s12 vals =
    (if Z.testbit outmask 10 then Geodesic._a g * lam12 else 0)%R /\
  Geodesic.inv_M12 vals =
    (if Z.testbit outmask 13 then cos (lam12 / Geodesic._f1 g) else 0%R) /\
  Geodesic.inv_M21 vals =
    (if Z.testbit outmask 13 then cos (lam12 / Geodesic._f1 g) else 0%R) /\
  Geodesic.inv_azi1 vals = (if Z.testbit outmask 9 then east else 0%R) /\
  Geodesic.inv_azi2 vals = (if Z.testbit outmask 9 then east else 0%R).
Proof.
  intros d lam12 Hd Hf vals east. subst vals.
  unfold Geodesic.GenInverse, Geodesic.GenInverse_run.
  rewrite canonical_equator. fold d.
  cbn [Geodesic.c_lat1 Geodesic.c_lat2 Geodesic.c_lon12].
  rewrite (solve_equatorial g _ Hd Hf). cbn [fst].
  unfold Geodesic.outputs, Geodesic.equatorial.
  rewrite reduced_equator.
  cbn [Geodesic.c_swapp Geodesic.c_lonsign Geodesic.c_latsign
       Geodesic.s_salp1 Geodesic.s_calp1 Geodesic.s_salp2 Geodesic.s_calp2
       Geodesic.s_s12x Geodesic.s_m12x Geodesic.s_M12 Geodesic.s_M21
       Geodesic.s_a12 Geodesic.Sol0 Geodesic.r_lam12].
  rewrite inv_distance, inv_geodesicscale, inv_azimuth.
  ideal. compare.
  cbn [Geodesic.inv_a12 Geodesic.inv_s12 Geodesic.inv_M12 Geodesic.inv_M21
       Geodesic.inv_azi1 Geodesic.inv_azi2].
  fold lam12.
  assert (Hazi : (0 - Ideal.atan2
                        (- (1 * (1 * (if Rle_dec 0 d then 1 else -1))))
                        (0 * (1 * -1)) / GeoMath.degree)%R = east).
  { unfold east, GeoMath.degree. ideal.
    replace (0 * (1 * -1))%R with 0%R by ring.
    destruct (Rle_dec 0 d).
    - rewrite atan2_on_axis by lra.
      replace (- PI / 2 / (PI / 180))%R with (- (PI / 2 / (PI / 180)))%R
        by (pose proof PI_RGT_0; field; lra).
      rewrite quarter_turn. ring.
    - rewrite atan2_on_axis_pos by lra. rewrite quarter_turn. ring. }
  rewrite Hazi.
  repeat split; try reflexivity.
  destruct (Z.testbit outmask 10); [ring | reflexivity].
Qed.

(** Settle the case distinctions of the real comparisons in the goal. *)
Ltac decide_R :=
  repeat match goal with
         | |- context [Rle_dec ?a ?b] => destruct (Rle_dec a b); try lra
         | |- context [Rlt_dec ?a ?b] => destruct (Rlt_dec a b); try lra
         end.

Lemma lon_difference_real (lon1 lon2 : R) :
  lon_difference lon1 lon2 =
  GeoMath.angDiff (GeoMath.angNormalize lon1) (GeoMath.angNormalize lon2).
Proof. unfold lon_difference. apply AngRound_real. Qed.

Lemma lon_difference_east : lon_difference 0%R 90%R = 90%R.
Proof.
  rewrite lon_difference_real, !angNormalize_cases. decide_R.
  rewrite angDiff_real. decide_R.
Qed.

Lemma lon_difference_west : lon_difference 0%R (-90)%R = (-90)%R.
Proof.
  rewrite lon_difference_real, !angNormalize_cases. decide_R.
  rewrite angDiff_real. decide_R.
Qed.

(** What the constructor stores. *)
Lemma new_fields (a f0 : R) (g : Geodesic.t R) :
  Geodesic.new a f0 = Ok g ->
  Geodesic._a g = a /\
  (Geodesic._f1 g = 1 - Geodesic._f g)%R /\
  (Geodesic._b g = a * Geodesic._f1 g)%R /\
  (0 < a)%R /\ (0 < Geodesic._b g)%R.
Proof.
  unfold Geodesic.new. ideal. cbn [andb].
  unfold Ideal.ltb at 1.
  destruct (Rlt_dec 0 a) as [Ha|Ha]; cbn [negb]; [|discriminate].
  match goal with
  | |- context [Ideal.ltb 0 ?b] =>
      unfold Ideal.ltb at 1; destruct (Rlt_dec 0 b) as [Hb|Hb]
  end; cbn [negb]; [|discriminate].
  intros E. injection E as <-. cbn. auto.
Qed.

Lemma new_sphere : Geodesic.new 1%R 0%R = Ok sphere.
Proof.
  unfold Geodesic.new, sphere, GeoMath.sq. ideal. compare. cbn [andb negb].
  replace (0 * (2 - 0))%R with 0%R by ring. compare.
  replace (0 / (2 - 0))%R with 0%R by field.
  replace (0 / ((1 - 0) * (1 - 0)))%R with 0%R by field.
  replace (1 - 0)%R with 1%R by ring.
  replace ((1 * 1 + 1 * 1 * (1 * 1) * 1) / 2)%R with 1%R by field.
  replace (1 * 1)%R with 1%R by ring.
  reflexivity.
Qed.

(** C6, as stated, fails: the branch gives the azimuth 90 only to the east.
    On the unit sphere ([f = 0]) from longitude 0 to longitude -90 on the
    equator, [lam12 = PI / 2 <= PI - f PI], and [azi1 = azi2 = -90]. *)
Lemma equatorial_westward :
  let vals := Geodesic.GenInverse sphere 0%R 0%R 0%R (-90)%R
                (Z.lor GeodesicMask.DISTANCE GeodesicMask.AZIMUTH) in
  (0 <= Geodesic._f sphere)%R /\
  (Geodesic.r_lam12 (Geodesic.reduced sphere 0%R 0%R 90%R) <=
   PI - Geodesic._f sphere * PI)%R /\
  Geodesic.inv_azi1 vals = (-90)%R /\
  Geodesic.inv_azi2 vals = (-90)%R /\
  Geodesic.inv_azi1 vals <> 90%R.
Proof.
  pose proof PI_RGT_0 as Hpi.
  assert (Hd : (0 < Rabs (lon_difference 0 (-90)) < 180)%R).
  { rewrite lon_difference_west, Rabs_left; lra. }
  assert (Hf : (Geodesic._f sphere <= 0 \/
                Rabs (lon_difference 0 (-90)) * (PI / 180) <=
                PI - Geodesic._f sphere * PI)%R) by (left; cbn; lra).
  pose proof (GenInverse_equatorial sphere 0%R (-90)%R
                (Z.lor GeodesicMask.DISTANCE GeodesicMask.AZIMUTH) Hd Hf)
    as (_ & _ & _ & _ & H1 & H2).
  rewrite lon_difference_west in H1, H2.
  change (Z.testbit (Z.lor GeodesicMask.DISTANCE GeodesicMask.AZIMUTH) 9)
    with true in H1, H2.
  destruct (Rle_dec 0 (-90)) as [Hle|_]; [lra|].
  cbv zeta. rewrite reduced_equator. cbn [Geodesic.r_lam12 Geodesic._f sphere].
  repeat split; try assumption; try lra.
Qed.

(** C6, amended: over the reals, for an ellipsoid of flattening [f >= 0]
    and two points on the equator whose longitudes differ by [d],
    [1/16 <= |d| < 180] degrees, with [lam12 = |d| PI / 180 <= PI - f PI],
    [GenInverse] takes the equatorial branch: [a12 = |d| / (1 - f)]; when
    the distance is asked for, [s12 = a lam12]; when the geodesic scale is,
    [M12 = M21 = cos (lam12 / (1 - f))]; when the azimuth is,
    [azi1 = azi2 = 90] if the second point lies to the east ([d >= 0]) and
    [-90] if it lies to the west.  The lower bound is where [AngRound]
    leaves the difference as it is, on doubles as over the reals
    ([AngRound_large_double]): a difference below 1/16 is rounded to a
    multiple of [2^-57], the smallest to 0 ([AngRound_double]), and two
    points the rounding makes coincide are taken by the meridian branch. *)
Theorem equatorial_geodesic (a f0 : R) (g : Geodesic.t R) (lon1 lon2 : R)
    (outmask : Z) :
  Geodesic.new a f0 = Ok g ->
  let f := Geodesic._f g in
  let d := lon_difference lon1 lon2 in
  let lam12 := (Rabs d * (PI / 180))%R in
  (0 <= f)%R -> (1 / 16 <= Rabs d < 180)%R -> (lam12 <= PI - f * PI)%R ->
  let vals := Geodesic.GenInverse g 0%R lon1 0%R lon2 outmask in
  Geodesic.inv_a12 vals = (Rabs d / (1 - f))%R /\
  (Z.testbit outmask 10 = true -> Geodesic.inv_s12 vals = (a * lam12)%R) /\
  (Z.testbit outmask 13 = true ->
   Geodesic.inv_M12 vals = cos (lam12 / (1 - f)) /\
   Geodesic.inv_M21 vals = cos (lam12 / (1 - f))) /\
  (Z.testbit outmask 9 = true ->
   ((0 <= d)%R ->
    Geodesic.inv_azi1 vals = 90%R /\ Geodesic.inv_azi2 vals = 90%R) /\
   ((d < 0)%R ->
    Geodesic.inv_azi1 vals = (-90)%R /\ Geodesic.inv_azi2 vals = (-90)%R)).
Proof.
  intros Hg f d lam12 Hf Hd16 Hl vals.
  assert (Hd : (0 < Rabs d < 180)%R) by lra.
  destruct (@new_fields a f0 g Hg) as (Ha & Hf1 & _).
  pose proof (GenInverse_equatorial g lon1 lon2 outmask Hd (or_intror Hl))
    as (H1 & H2 & H3 & H4 & H5 & H6).
  fold d lam12 vals in H1, H2, H3, H4, H5, H6.
  rewrite Hf1, ?Ha in *. fold f in H1, H3, H4.
  split; [exact H1|]. split; [|split].
  - intros E. now rewrite H2, E.
  - intros E. now rewrite H3, H4, E.
  - intros E. rewrite H5, H6, E.
    destruct (Rle_dec 0 d); split; intros; try lra; auto.
Qed.

Lemma equatorial_geodesic_witness :
  Geodesic.new 1%R 0%R = Ok sphere /\
  (0 <= Geodesic._f sphere)%R /\
  (1 / 16 <= Rabs (lon_difference 0 90) < 180)%R /\
  (Rabs (lon_difference 0 90) * (PI / 180) <=
   PI - Geodesic._f sphere * PI)%R /\
  Geodesic.inv_a12 (Geodesic.GenInverse sphere 0%R 0%R 0%R 90%R
                      GeodesicMask.ALL) =
    (Rabs (lon_difference 0 90) / (1 - Geodesic._f sphere))%R.
Proof.
  pose proof PI_RGT_0 as Hpi.
  assert (H1 : (0 <= Geodesic._f sphere)%R) by (cbn; lra).
  assert (H2 : (1 / 16 <= Rabs (lon_difference 0 90) < 180)%R).
  { rewrite lon_difference_east, Rabs_right; lra. }
  assert (H3 : (Rabs (lon_difference 0 90) * (PI / 180) <=
                PI - Geodesic._f sphere * PI)%R).
  { rewrite lon_difference_east, Rabs_right by lra. cbn. lra. }
  repeat split; try assumption; try apply new_sphere; try apply H2.
  exact (proj1 (@equatorial_geodesic 1%R 0%R sphere 0%R 90%R GeodesicMask.ALL
                  new_sphere H1 H2 H3)).
Defined.

(** ** Over the reals: exchanging the two points *)


Lemma A1m1f_0 : Geodesic.A1m1f 0%R = 0%R.
Proof. unfold Geodesic.A1m1f, GeoMath.sq. ideal. field. Qed.

Lemma A2m1f_0 : Geodesic.A2m1f 0%R = 0%R.
Proof. unfold Geodesic.A2m1f, GeoMath.sq. ideal. field. Qed.









(** The canonical configuration over the reals. *)
Lemma canonical_real (lat1 lon1 lat2 lon2 : R) :
  Geodesic.canonical lat1 lon1 lat2 lon2 =
  let d := lon_difference lon1 lon2 in
  let lonsign := if Rle_dec 0 d then 1%R else (-1)%R in
  if Rle_dec (Rabs lat2) (Rabs lat1) then
    let latsign := if Rlt_dec lat1 0 then 1%R else (-1)%R in
    Geodesic.mkCanon (lat1 * latsign)%R (lat2 * latsign)%R (d * lonsign)%R
      1%R lonsign latsign
  else
    let latsign := if Rlt_dec lat2 0 then 1%R else (-1)%R in
    Geodesic.mkCanon (lat2 * latsign)%R (lat1 * latsign)%R (d * lonsign)%R
      (-1)%R (lonsign * -1)%R latsign.
Proof.
  unfold Geodesic.canonical. fold (lon_difference lon1 lon2).
  rewrite !AngRound_real. ideal. unfold Ideal.leb, Ideal.ltb. cbv zeta.
  destruct (Rle_dec (Rabs lat2) (Rabs lat1)).
  - destruct (Rlt_dec 1 0); [lra|].
    destruct (Rlt_dec lat1 0), (Rle_dec 0 (lon_difference lon1 lon2));
      reflexivity.
  - destruct (Rlt_dec (-1) 0); [|lra].
    destruct (Rlt_dec lat2 0), (Rle_dec 0 (lon_difference lon1 lon2));
      reflexivity.
Qed.








(** ** Over the reals: the helpers of GeoMath *)

(** The remainder [x % 360] has the sign of [x] and is less than 360 in
    absolute value. *)
Lemma rem_360 (x : R) :
  (-360 < Ideal.rem x 360 < 360)%R /\
  exists k : Z, Ideal.rem x 360 = (x + 360 * IZR k)%R.
Proof.
  unfold Ideal.rem, Ideal.trunc. set (q := (x / 360)%R).
  assert (Hx : x = (360 * q)%R) by (unfold q; field).
  destruct (Rle_dec 0 q) as [Hq|Hq].
  - destruct (base_Int_part q) as [H1 H2]. split; [lra|].
    exists (- Int_part q)%Z. rewrite opp_IZR. lra.
  - destruct (base_Int_part (- q)) as [H1 H2]. rewrite opp_IZR. split; [lra|].
    exists (Int_part (- q)). lra.
Qed.

(** X1: over the reals, [angNormalize2 x] lies in [-180, 180) for every
    [x], with no restriction on the input, and differs from [x] by a
    multiple of 360. *)
Theorem angNormalize2_range (x : R) :
  (-180 <= GeoMath.angNormalize2 x < 180)%R /\
  exists k : Z, GeoMath.angNormalize2 x = (x + 360 * IZR k)%R.
Proof.
  unfold GeoMath.angNormalize2. ideal.
  destruct (rem_360 x) as [Hr [k Hk]].
  rewrite angNormalize_cases.
  destruct (Rle_dec 180 (Ideal.rem x 360));
    [|destruct (Rlt_dec (Ideal.rem x 360) (-180))].
  - split; [lra|]. exists (k - 1)%Z. rewrite minus_IZR. lra.
  - split; [lra|]. exists (k + 1)%Z. rewrite plus_IZR. lra.
  - split; [lra|]. exists k. lra.
Qed.

(** X2: over the reals, for [x] and [y] in [-180, 180), [angDiff x y] lies
    in (-180, 180] (the half-open end is the other one than for
    [angNormalize]) and differs from [y - x] by a multiple of 360. *)
Theorem angDiff_range (x y : R) :
  (-180 <= x < 180)%R -> (-180 <= y < 180)%R ->
  (-180 < GeoMath.angDiff x y <= 180)%R /\
  exists k : Z, GeoMath.angDiff x y = (y - x + 360 * IZR k)%R.
Proof.
  intros Hx Hy. rewrite angDiff_real.
  destruct (Rlt_dec 180 (y - x)); [|destruct (Rle_dec (y - x) (-180))].
  - split; [lra|]. exists (-1)%Z. lra.
  - split; [lra|]. exists 1%Z. lra.
  - split; [lra|]. exists 0%Z. lra.
Qed.

Lemma angDiff_range_witness :
  (-180 <= -170 < 180)%R /\ (-180 <= 170 < 180)%R /\
  ((-180 < GeoMath.angDiff (-170)%R 170%R <= 180)%R /\
   exists k : Z, GeoMath.angDiff (-170)%R 170%R = (170 - -170 + 360 * IZR k)%R).
Proof.
  assert (H1 : (-180 <= -170 < 180)%R) by lra.
  assert (H2 : (-180 <= 170 < 180)%R) by lra.
  split; [exact H1|]. split; [exact H2|]. exact (angDiff_range H1 H2).
Defined.

(** X3: over the reals, [hypot x y] is the Euclidean length
    [sqrt (x * x + y * y)]; the guard on the larger argument makes
    [hypot 0 0] the number 0 and not a division by zero, and [hypot] is 0
    only there. *)
Theorem hypot_euclid (x y : R) :
  GeoMath.hypot x y = sqrt (x * x + y * y) /\
  GeoMath.hypot 0%R 0%R = 0%R /\
  (GeoMath.hypot x y = 0%R -> x = 0%R /\ y = 0%R).
Proof.
  rewrite !hypot_real. split; [reflexivity|]. split.
  - replace (0 * 0 + 0 * 0)%R with 0%R by ring. apply sqrt_0.
  - intros E. apply sqrt_eq_0 in E; [|nra]. nra.
Qed.

Lemma cube_root_pos (y : R) :
  (0 < y)%R ->
  (Rpower y (1 / 3) * Rpower y (1 / 3) * Rpower y (1 / 3) = y)%R.
Proof.
  intros Hy. rewrite <- !Rpower_plus.
  replace (1 / 3 + 1 / 3 + 1 / 3)%R with 1%R by field.
  apply Rpower_1, Hy.
Qed.

(** X4: over the reals, [cbrt x] is a cube root of [x] for every [x],
    negative and zero included, and [cbrt] is odd. *)
Theorem cbrt_cube (x : R) :
  (GeoMath.cbrt x * GeoMath.cbrt x * GeoMath.cbrt x = x)%R /\
  GeoMath.cbrt (- x)%R = (- GeoMath.cbrt x)%R.
Proof.
  assert (Hp : forall y : R, (0 < y)%R ->
                             Ideal.pow y (1 / 3) = Rpower y (1 / 3)).
  { intros y Hy. unfold Ideal.pow. destruct (Req_dec_T y 0); [lra|reflexivity]. }
  assert (H0 : Ideal.pow 0 (1 / 3) = 0%R).
  { unfold Ideal.pow. destruct (Req_dec_T 0 0); [|lra].
    destruct (Req_dec_T (1 / 3) 0); [lra|reflexivity]. }
  unfold GeoMath.cbrt. ideal. unfold Ideal.ltb.
  destruct (Rlt_dec x 0) as [Hx|Hx]; [|destruct (Req_dec_T x 0) as [Hx0|Hx0]].
  - destruct (Rlt_dec (- x) 0); [lra|].
    rewrite Rabs_Ropp, Rabs_left by assumption.
    rewrite Hp by lra. pose proof (@cube_root_pos (- x)%R ltac:(lra)).
    split; [lra|ring].
  - subst x. rewrite Ropp_0. destruct (Rlt_dec 0 0); [lra|].
    rewrite Rabs_R0, H0. split; ring.
  - destruct (Rlt_dec (- x) 0); [|lra].
    rewrite Rabs_Ropp, Rabs_right by lra.
    rewrite Hp by lra. pose proof (@cube_root_pos x ltac:(lra)).
    split; [lra|ring].
Qed.

Lemma log1p_real (x : R) : GeoMath.log1p x = ln (1 + x).
Proof.
  unfold GeoMath.log1p. ideal. unfold Ideal.eqb.
  destruct (Req_dec_T (1 + x - 1) 0) as [E|E].
  - replace x with 0%R by lra. now rewrite Rplus_0_r, ln_1.
  - field. lra.
Qed.

Lemma tanh_half_ln (u : R) :
  (0 < u)%R -> tanh (ln u / 2) = ((u - 1) / (u + 1))%R.
Proof.
  intros Hu. unfold tanh, sinh, cosh.
  set (e := exp (ln u / 2)).
  assert (He : (0 < e)%R) by apply exp_pos.
  assert (Hee : (e * e = u)%R).
  { unfold e. rewrite <- exp_plus.
    replace (ln u / 2 + ln u / 2)%R with (ln u) by field. apply exp_ln, Hu. }
  rewrite exp_Ropp. fold e. rewrite <- Hee. field. nra.
Qed.

(** X5: over the reals, for [-1 < x < 1], [log1p x] is [ln (1 + x)],
    [atanh x] is [ln ((1 + x) / (1 - x)) / 2], and [atanh] inverts the
    hyperbolic tangent: [tanh (atanh x) = x]. *)
Theorem atanh_inverse (x : R) :
  (-1 < x < 1)%R ->
  GeoMath.log1p x = ln (1 + x) /\
  GeoMath.atanh x = (ln ((1 + x) / (1 - x)) / 2)%R /\
  tanh (GeoMath.atanh x) = x.
Proof.
  intros Hx. split; [apply log1p_real|].
  assert (Ha : GeoMath.atanh x = (ln ((1 + x) / (1 - x)) / 2)%R).
  { unfold GeoMath.atanh. rewrite log1p_real. ideal. unfold Ideal.ltb.
    destruct (Rlt_dec x 0) as [H0|H0].
    - rewrite Rabs_left by assumption.
      replace (1 + 2 * - x / (1 - - x))%R with (/ ((1 + x) / (1 - x)))%R
        by (field; lra).
      rewrite ln_Rinv; [field|].
      apply Rdiv_lt_0_compat; lra.
    - rewrite Rabs_right by lra.
      replace (1 + 2 * x / (1 - x))%R with ((1 + x) / (1 - x))%R
        by (field; lra).
      reflexivity. }
  split; [exact Ha|].
  rewrite Ha, tanh_half_ln by (apply Rdiv_lt_0_compat; lra).
  field. lra.
Qed.

Lemma atanh_inverse_witness :
  (-1 < 1 / 2 < 1)%R /\ tanh (GeoMath.atanh (1 / 2)%R) = (1 / 2)%R.
Proof.
  assert (H : (-1 < 1 / 2 < 1)%R) by lra.
  split; [exact H|]. exact (proj2 (proj2 (atanh_inverse H))).
Defined.

(** ** The accumulator *)

Lemma sum_real (u v : R) : GeoMath.sum u v = ((u + v)%R, 0%R).
Proof. unfold GeoMath.sum. ideal. f_equal. ring. Qed.

Lemma add_real (acc : Accumulator.t R) (y : R) :
  Accumulator.add acc y =
  Accumulator.mk (Accumulator._s acc + Accumulator._t acc + y)%R 0%R.
Proof.
  unfold Accumulator.add. rewrite !sum_real. cbn [fst snd]. ideal.
  unfold Ideal.eqb.
  destruct (Req_dec_T (y + Accumulator._t acc + Accumulator._s acc) 0) as [E|E].
  - f_equal. lra.
  - f_equal; ring.
Qed.

(** X6: over the reals, where the two-word sum has no rounding to
    compensate: after any sequence of [add] calls on an accumulator started
    at [s0], [sum()] is [s0] plus the numbers added and the correction word
    [_t] is 0; [sum(y)] is that sum plus [y]; [Negate] negates the sum, and
    twice gives the accumulator back. *)
Theorem accumulator_exact (s0 : R) (ys : list R) :
  let acc := fold_left Accumulator.add ys (Accumulator.new s0 None) in
  Accumulator.sum acc None = (s0 + fold_right Rplus 0 ys)%R /\
  Accumulator._t acc = 0%R /\
  (forall y, Accumulator.sum acc (Some y) =
             (s0 + fold_right Rplus 0 ys + y)%R) /\
  Accumulator.sum (Accumulator.Negate acc) None =
    (- (s0 + fold_right Rplus 0 ys))%R /\
  Accumulator.Negate (Accumulator.Negate acc) = acc.
Proof.
  intros acc.
  assert (Hacc : acc = Accumulator.mk (s0 + fold_right Rplus 0 ys)%R 0%R).
  { unfold acc, Accumulator.new, Accumulator.set. ideal.
    generalize s0. clear acc s0.
    induction ys as [|y ys IH]; intros s0; cbn [fold_left fold_right].
    - f_equal. ring.
    - rewrite add_real. cbn [Accumulator._s Accumulator._t].
      rewrite IH. f_equal. ring. }
  rewrite Hacc. cbn [Accumulator.sum Accumulator._s Accumulator._t].
  split; [reflexivity|]. split; [reflexivity|]. split; [|split].
  - intros y. unfold Accumulator.new, Accumulator.set. rewrite add_real.
    cbn. ring.
  - cbn. ideal. ring.
  - unfold Accumulator.Negate. cbn. ideal. f_equal; ring.
Qed.

(** ** The ellipsoid *)

(** X7: over the reals, the constructor of [Geodesic] returns an ellipsoid
    exactly when the radius is positive and the flattening is not 1; any
    other pair of arguments fails one of its two assertions.  (A flattening
    above 1 is read as its inverse, and 1 gives a polar radius of 0.) *)
Theorem new_accepts (a f : R) :
  match Geodesic.new a f with
  | Ok g => (0 < a)%R /\ f <> 1%R
  | Throw e => e = AssertionError /\ ((a <= 0)%R \/ f = 1%R)
  end.
Proof.
  unfold Geodesic.new. ideal. cbn [andb].
  unfold Ideal.ltb at 1.
  destruct (Rlt_dec 0 a) as [Ha|Ha]; cbn [negb]; [|split; [reflexivity|lra]].
  match goal with
  | |- context [Ideal.ltb 0 ?b] =>
      unfold Ideal.ltb at 1; destruct (Rlt_dec 0 b) as [Hb|Hb]
  end; cbn [negb].
  - split; [assumption|]. intros ->. revert Hb. compare. lra.
  - split; [reflexivity|]. right. revert Hb. unfold Ideal.leb.
    destruct (Rle_dec f 1) as [Hf|Hf]; intros Hb.
    + destruct (Req_dec_T f 1); [assumption|]. exfalso. apply Hb. nra.
    + exfalso. apply Hb.
      assert (0 < 1 / f < 1)%R.
      { split; [apply Rdiv_lt_0_compat; lra|].
        apply Rmult_lt_reg_r with f; [lra|]. field_simplify; lra. }
      nra.
Qed.

Lemma new_radius (a f : R) (g : Geodesic.t R) :
  Geodesic.new a f = Ok g -> (0 < a)%R.
Proof.
  unfold Geodesic.new. ideal. unfold Ideal.ltb.
  destruct (Rlt_dec 0 a); [trivial|]. cbn [andb negb]. discriminate.
Qed.

Lemma new_value (a f : R) (g : Geodesic.t R) :
  Geodesic.new a f = Ok g ->
  let f' := (if Rle_dec f 1 then f else 1 / f)%R in
  let n := (f' / (2 - f'))%R in
  g = Geodesic.mk a f' (1 - f')%R (f' * (2 - f'))%R
        (f' * (2 - f') / ((1 - f') * (1 - f')))%R n (a * (1 - f'))%R
        (Geodesic._c2 g) (Geodesic._etol2 g)
        (Geodesic.A3coeff n) (Geodesic.C3coeff n) (Geodesic.C4coeff n).
Proof.
  unfold Geodesic.new, GeoMath.sq. ideal. unfold Ideal.leb.
  destruct (Rle_dec f 1); (destruct (negb _); [discriminate|]);
    (destruct (negb _); [discriminate|]);
    intros E; injection E as <-; reflexivity.
Qed.

Lemma new_sphere_c2 (a : R) (g : Geodesic.t R) :
  Geodesic.new a 0%R = Ok g -> Geodesic._c2 g = (a * a)%R.
Proof.
  unfold Geodesic.new, GeoMath.sq. ideal. compare.
  replace (0 * (2 - 0))%R with 0%R by ring. compare.
  destruct (negb _); [discriminate|]. destruct (negb _); [discriminate|].
  intros E. injection E as <-. cbn. field.
Qed.

(** X8: over the reals, the fields of the ellipsoid the constructor
    returns: [_a] is the radius; [_f] is the flattening, or [1 / f] when
    [f > 1], and is below 1; the polar radius [_b = _a (1 - _f)] is
    positive; [_f1 = b / a], [_e2 = (a^2 - b^2) / a^2],
    [_ep2 = (a^2 - b^2) / b^2] and [_n = (a - b) / (a + b)]; on a sphere
    [_c2 = a^2]; a flattening above 1 and its inverse give the same
    ellipsoid; the three coefficient tables have 6, 15 and 21 entries. *)
Theorem new_ellipsoid (a f : R) (g : Geodesic.t R) :
  Geodesic.new a f = Ok g ->
  let b := Geodesic._b g in
  Geodesic._a g = a /\
  Geodesic._f g = (if Rle_dec f 1 then f else 1 / f)%R /\
  (Geodesic._f g < 1)%R /\ (0 < b)%R /\
  b = (a * (1 - Geodesic._f g))%R /\
  Geodesic._f1 g = (b / a)%R /\
  Geodesic._e2 g = ((a * a - b * b) / (a * a))%R /\
  Geodesic._ep2 g = ((a * a - b * b) / (b * b))%R /\
  Geodesic._n g = ((a - b) / (a + b))%R /\
  (f = 0%R -> Geodesic._c2 g = (a * a)%R) /\
  (1 < f -> Geodesic.new a (1 / f) = Ok g)%R /\
  (length (Geodesic._A3x g) = 6 /\ length (Geodesic._C3x g) = 15 /\
   length (Geodesic._C4x g) = 21)%nat.
Proof.
  intros Hg b.
  pose proof (@new_radius a f g Hg) as Ha.
  destruct (@new_fields a f g Hg) as (_ & _ & _ & _ & Hb). fold b in Hb.
  pose proof (@new_value a f g Hg) as Hv. cbv zeta in Hv.
  set (f' := (if Rle_dec f 1 then f else 1 / f)%R) in *.
  assert (Eb : b = (a * (1 - f'))%R) by (unfold b; rewrite Hv; reflexivity).
  assert (Hlt : (f' < 1)%R) by nra.
  assert (Ef : Geodesic._f g = f') by (rewrite Hv; reflexivity).
  split; [rewrite Hv; reflexivity|]. split; [exact Ef|].
  rewrite Ef. split; [exact Hlt|]. split; [exact Hb|]. split; [exact Eb|].
  split; [rewrite Eb, Hv; cbn; field; lra|].
  split; [rewrite Eb, Hv; cbn; field; lra|].
  split; [rewrite Eb, Hv; cbn; field; lra|].
  split; [rewrite Eb, Hv; cbn; field; split; lra|].
  split; [|split].
  - intros ->. apply new_sphere_c2, Hg.
  - intros Hf. rewrite <- Hg. unfold Geodesic.new. ideal.
    assert (0 < 1 / f < 1)%R.
    { split; [apply Rdiv_lt_0_compat; lra|].
      apply Rmult_lt_reg_r with f; [lra|]. field_simplify; lra. }
    rewrite (@leb_false f 1) by lra. rewrite (@leb_true (1 / f) 1) by lra.
    reflexivity.
  - rewrite Hv. cbn. auto.
Qed.

Lemma new_ellipsoid_witness :
  Geodesic.new 1%R 0%R = Ok sphere /\ Geodesic._c2 sphere = (1 * 1)%R.
Proof.
  split; [exact new_sphere|].
  destruct (@new_ellipsoid 1%R 0%R sphere new_sphere)
    as (_ & _ & _ & _ & _ & _ & _ & _ & _ & Hc & _).
  exact (Hc eq_refl).
Defined.

(** ** The series evaluator and the coefficient tables *)

Section SeriesFacts.

Context {num : Type} `{Number num}.
Local Open Scope js_scope.

Lemma aget_nil (j : nat) : aget (@nil num) j = NaN.
Proof. destruct j; reflexivity. Qed.

Lemma aget_aset_same (c : list num) (k : nat) (v : num) :
  aget (aset c k v) k = v.
Proof.
  unfold aget. revert c.
  induction k as [|k IH]; intros [|x c]; cbn [aset nth]; auto.
Qed.

Lemma aget_aset_other (c : list num) (k j : nat) (v : num) :
  j <> k -> aget (aset c k v) j = aget c j.
Proof.
  unfold aget. revert c j.
  induction k as [|k IH]; intros [|x c] [|j] Hj; cbn [aset nth]; auto;
    try congruence.
  - now destruct j.
  - rewrite (IH [] j) by congruence. now destruct j.
Qed.

(** The loop reads [c] only at the [2 n] indices below [k]. *)
Lemma SinCosSeries_loop_reads (ar : num) (c c' : list num) (n : nat) :
  forall (k : nat) (y0 y1 : num),
    (2 * n <= k)%nat ->
    (forall i, (k - 2 * n <= i < k)%nat -> aget c i = aget c' i) ->
    Geodesic.SinCosSeries_loop n ar c k y0 y1 =
    Geodesic.SinCosSeries_loop n ar c' k y0 y1.
Proof.
  induction n as [|n IH]; intros k y0 y1 Hk Hc; [reflexivity|].
  destruct k as [|[|k]]; try lia.
  cbn [Geodesic.SinCosSeries_loop pred].
  rewrite (Hc (S k)) by lia. rewrite (Hc k) by lia.
  apply IH; [lia|]. intros i Hi. apply Hc. lia.
Qed.

(** X9: [SinCosSeries(sinp, sinx, cosx, c, n)] reads only [n] entries of
    [c]: those of index 1 to [n] for a sine series, 0 to [n - 1] for a
    cosine series.  Two arrays that agree there give the same sum; in
    particular [c[0]] of a sine series is never read. *)
Theorem SinCosSeries_reads (sinp : bool) (sinx cosx : num) (c c' : list num)
    (n : nat) :
  let lo := if sinp then 1%nat else 0%nat in
  (forall i, (lo <= i < lo + n)%nat -> aget c i = aget c' i) ->
  Geodesic.SinCosSeries sinp sinx cosx c n =
  Geodesic.SinCosSeries sinp sinx cosx c' n.
Proof.
  intros lo Hc. unfold Geodesic.SinCosSeries.
  pose proof (Nat.div2_odd n) as Hn.
  assert (Hk : (n + (if sinp then 1 else 0) = lo + n)%nat)
    by (unfold lo; destruct sinp; lia).
  rewrite Hk.
  destruct (Nat.odd n) eqn:Hodd; cbn [Nat.b2n] in Hn.
  - rewrite (Hc (pred (lo + n))) by lia.
    rewrite (@SinCosSeries_loop_reads _ c c') ; [reflexivity|lia|].
    intros i Hi. apply Hc. lia.
  - rewrite (@SinCosSeries_loop_reads _ c c'); [reflexivity|lia|].
    intros i Hi. apply Hc. lia.
Qed.

End SeriesFacts.

Lemma SinCosSeries_reads_witness :
  Geodesic.SinCosSeries true (1 / 2)%R (1 / 3)%R [5; 1; 2]%R 2 =
  Geodesic.SinCosSeries true (1 / 2)%R (1 / 3)%R [7; 1; 2; 9]%R 2.
Proof.
  apply (@SinCosSeries_reads R _ true (1 / 2)%R (1 / 3)%R
           [5; 1; 2]%R [7; 1; 2; 9]%R 2).
  intros [|[|[|i]]] Hi; try reflexivity; cbn in Hi; lia.
Defined.

(** X10: at the order the library is configured for (2), with the tables
    [A3coeff], [C3coeff] and [C4coeff] left at their order-6 layout, over
    the reals: [A3f] is [_A3x[0] + eps _A3x[1]]; [C3f] fills [c[1]] with
    [eps _C3x[0]]; [C4f] fills [c[0]] with [_C4x[0] + eps _C4x[1]] and
    [c[1]] with [eps _C4x[2]]. *)
Theorem order_two_coefficients (g : Geodesic.t R) (eps : R) (c : list R) :
  Geodesic.A3f g eps =
    (aget (Geodesic._A3x g) 0 + eps * aget (Geodesic._A3x g) 1)%R /\
  aget (Geodesic.C3f g eps c) 1 = (eps * aget (Geodesic._C3x g) 0)%R /\
  aget (Geodesic.C4f g eps c) 0 =
    (aget (Geodesic._C4x g) 0 + eps * aget (Geodesic._C4x g) 1)%R /\
  aget (Geodesic.C4f g eps c) 1 = (eps * aget (Geodesic._C4x g) 2)%R.
Proof.
  unfold Geodesic.A3f, Geodesic.C3f, Geodesic.C4f.
  change Accuracy.na3x with 2%nat. change Accuracy.nc3 with 2%nat.
  change Accuracy.nc3x with 1%nat. change Accuracy.nc4 with 2%nat.
  change Accuracy.nc4x with 3%nat.
  repeat (cbn [Geodesic.A3f_loop Geodesic.C3f_rows Geodesic.C4f_rows
               Geodesic.scale_loop Geodesic.horner Nat.sub Nat.add pred];
          unfold Accuracy.nc3, Accuracy.nc4,
            Accuracy.GEOGRAPHICLIB_GEODESIC_ORDER).
  ideal.
  repeat rewrite ?aget_aset_same, ?(@aget_aset_other R _ _ 1 0),
    ?(@aget_aset_other R _ _ 0 1) by lia.
  repeat split; ring.
Qed.

(** ** The inverse solver: every output under its flag *)

Section InverseMask.

Context {num : Type} `{Number num}.
Local Open Scope js_scope.

Variable g : Geodesic.t num.

(** Without the geodesic scale no strategy assigns [M12] or [M21]. *)
Lemma solve_scale_off (lat1 lat2 lon12 : num) (outmask : Z) :
  has outmask GeodesicMask.GEODESICSCALE = false ->
  let s := snd (fst (Geodesic.solve g lat1 lat2 lon12 outmask)) in
  Geodesic.s_M12 s = #0 /\ Geodesic.s_M21 s = #0.
Proof.
  intros E. unfold Geodesic.solve. rewrite E. cbv zeta.
  set (r := Geodesic.reduced g lat1 lat2 lon12).
  destruct ((lat1 =? #(-90)) || (Geodesic.r_slam12 r =? #0)).
  - unfold Geodesic.meridional. cbv zeta.
    match goal with
    | |- context [if ?b then Geodesic.mkSol _ _ _ _ _ _ _ _ _ _ _ true else _] =>
        destruct b
    end; cbn [Geodesic.s_meridian negb andb].
    + cbn. auto.
    + destruct (Geodesic.equatorial_test g r); cbn [fst snd].
      * cbn. auto.
      * unfold Geodesic.general. cbv zeta.
        destruct (Geodesic.IS_sig12 _ >=? #0); cbn [fst snd].
        -- cbn. auto.
        -- destruct (Geodesic.solve_loop _ _ _ _ _ _ _ _). cbn. auto.
  - cbn [Geodesic.Sol0 Geodesic.s_meridian negb andb].
    destruct (Geodesic.equatorial_test g r); cbn [fst snd].
    + cbn. auto.
    + unfold Geodesic.general. cbv zeta.
      destruct (Geodesic.IS_sig12 _ >=? #0); cbn [fst snd].
      * cbn. auto.
      * destruct (Geodesic.solve_loop _ _ _ _ _ _ _ _). cbn. auto.
Qed.

(** X11: [GenInverse] leaves at 0 every output whose flag is not in
    [outmask]: [s12] without DISTANCE, [m12] without REDUCEDLENGTH, [M12]
    and [M21] without GEODESICSCALE, [S12] without AREA, [azi1] and [azi2]
    without AZIMUTH; and only the output bits of the mask matter: the
    result is that of the mask cut to OUT_ALL. *)
Theorem GenInverse_mask (lat1 lon1 lat2 lon2 : num) (outmask : Z) :
  let vals := Geodesic.GenInverse g lat1 lon1 lat2 lon2 outmask in
  (Z.testbit outmask 10 = false -> Geodesic.inv_s12 vals = #0) /\
  (Z.testbit outmask 12 = false -> Geodesic.inv_m12 vals = #0) /\
  (Z.testbit outmask 13 = false ->
   Geodesic.inv_M12 vals = #0 /\ Geodesic.inv_M21 vals = #0) /\
  (Z.testbit outmask 14 = false -> Geodesic.inv_S12 vals = #0) /\
  (Z.testbit outmask 9 = false ->
   Geodesic.inv_azi1 vals = #0 /\ Geodesic.inv_azi2 vals = #0) /\
  vals = Geodesic.GenInverse g lat1 lon1 lat2 lon2
           (Z.land outmask GeodesicMask.OUT_ALL).
Proof.
  intros vals. subst vals.
  unfold Geodesic.GenInverse, Geodesic.GenInverse_run.
  rewrite <- (Z.land_assoc outmask), Z.land_diag.
  set (m := Z.land outmask GeodesicMask.OUT_ALL).
  set (c := Geodesic.canonical lat1 lon1 lat2 lon2).
  pose proof (@solve_scale_off (Geodesic.c_lat1 c) (Geodesic.c_lat2 c)
                (Geodesic.c_lon12 c) m) as Hs.
  destruct (Geodesic.solve g _ _ _ m) as [[r s] steps]. cbn [fst snd] in *.
  unfold Geodesic.outputs. unfold m.
  rewrite inv_distance, inv_reducedlength, inv_geodesicscale, inv_area,
    inv_azimuth.
  unfold m in Hs. rewrite inv_geodesicscale in Hs.
  split; [|split; [|split; [|split; [|split]]]].
  - intros ->. destruct (Geodesic.c_swapp c <? #0); reflexivity.
  - intros ->. destruct (Geodesic.c_swapp c <? #0); reflexivity.
  - intros E. destruct (Hs E) as [H1 H2]. rewrite E.
    destruct (Geodesic.c_swapp c <? #0); cbn; auto.
  - intros ->. destruct (Geodesic.c_swapp c <? #0); reflexivity.
  - intros ->. destruct (Geodesic.c_swapp c <? #0); split; reflexivity.
  - reflexivity.
Qed.

End InverseMask.

(** ** Position queries: when they raise *)

Section PositionErrors.

Context {num : Type} `{Number num}.
Local Open Scope js_scope.

Lemma bind_raises {A B : Type} (m : result A) (k : A -> result B)
    (b1 b2 : bool) :
  raises_unless m b1 -> (forall a, raises_unless (k a) b2) ->
  raises_unless (GeodesicLine.bind m k) (b1 && b2).
Proof.
  unfold raises_unless. destruct m as [a|e]; cbn; intros H1 H2.
  - specialize (H2 a). destruct (k a); rewrite H1; exact H2.
  - destruct H1 as [-> ->]. auto.
Qed.

Lemma series_raises (sinp : bool) (sinx cosx : num) (c : option (list num))
    (n : nat) :
  n <> 0%nat ->
  raises_unless (GeodesicLine.series sinp sinx cosx c n) (assigned c).
Proof.
  intros Hn. destruct c; cbn; [reflexivity|].
  destruct (Nat.eqb_spec n 0); [contradiction|]. cbn. auto.
Qed.

Lemma ok_raises {A : Type} (a : A) : raises_unless (Ok a) true.
Proof. reflexivity. Qed.

Lemma GenPosition_raises (l : GeodesicLine.t num) (arcmode : bool)
    (v : num) (outmask : Z) :
  arcmode || Z.testbit (GeodesicLine._caps l) 11 = true ->
  raises_unless (GeodesicLine.GenPosition l arcmode v outmask)
                (readable l arcmode outmask).
Proof.
  intros Hguard. unfold readable. cbv zeta.
  set (sel := fun k => Z.testbit outmask k && Z.testbit (GeodesicLine._caps l) k).
  set (flat := Math_abs (GeodesicLine._f l) >? #1 / #100).
  unfold GeodesicLine.GenPosition.
  rewrite distance_in_bit, Hguard. cbv beta iota delta [negb].
  rewrite !has_lor, om_distance, om_longitude, om_latitude, om_azimuth,
    om_reducedlength, om_geodesicscale, om_area.
  fold (sel 7%Z) (sel 8%Z) (sel 9%Z) (sel 10%Z) (sel 12%Z) (sel 13%Z)
    (sel 14%Z). fold flat.
  apply bind_raises.
  { destruct arcmode; [apply ok_raises|]. cbn [orb].
    apply bind_raises; [apply series_raises; discriminate|].
    intros b. destruct flat; cbn [negb orb].
    - rewrite <- (andb_true_r (assigned (GeodesicLine._C1a l))).
      apply bind_raises; [apply series_raises; discriminate|].
      intros; apply ok_raises.
    - apply ok_raises. }
  intros [[[sig12 ssig12] csig12] B12].
  apply bind_raises.
  { destruct (sel 10%Z || sel 12%Z || sel 13%Z); cbn [andb implb];
      [|apply ok_raises].
    rewrite <- (andb_true_r (implb _ _)).
    apply bind_raises; [|intros; apply ok_raises].
    destruct (arcmode || flat); cbn [implb];
      [apply series_raises; discriminate | apply ok_raises]. }
  intros AB1.
  match goal with
  | |- context [if ?b then (Accuracy.tiny, Accuracy.tiny) else _] => destruct b
  end.
  all: apply bind_raises;
    [ destruct (sel 8%Z); cbn [implb]; [|apply ok_raises];
      rewrite <- (andb_true_r (assigned _));
      apply bind_raises; [apply series_raises; discriminate|];
      intros; apply ok_raises
    | intros lon2 ].
  all: apply bind_raises;
    [ destruct (sel 12%Z || sel 13%Z); cbn [implb]; [|apply ok_raises];
      rewrite <- (andb_true_r (assigned _));
      apply bind_raises; [apply series_raises; discriminate|];
      intros; destruct (sel 13%Z); apply ok_raises
    | intros [[m12 M12] M21] ].
  all: rewrite <- (andb_true_r (implb (sel 14%Z) _));
    apply bind_raises;
    [ destruct (sel 14%Z); cbn [implb]; [|apply ok_raises];
      rewrite <- (andb_true_r (assigned _));
      apply bind_raises; [apply series_raises; discriminate|];
      intros;
      repeat match goal with
             | |- context [if ?b then _ else _] => destruct b
             end; apply ok_raises
    | intros S12; apply ok_raises ].
Qed.

End PositionErrors.

Section PositionAnswers.

Context {num : Type} `{Number num}.
Local Open Scope js_scope.

(** X12: when [GenPosition] raises.  On every ray, in either mode and for
    every mask, it returns a record exactly when the query is refused (a
    distance query on a ray without DISTANCE_IN, answered by the NaN
    record) or every series field the query reads is assigned; otherwise
    it raises a TypeError, from reading an element of [undefined], and it
    raises nothing else.  This does happen: a ray built with the output bit
    of LONGITUDE alone (bit 8, without the capability C3) raises on an
    arc-mode longitude query. *)
Theorem GenPosition_errors (l : GeodesicLine.t num) (arcmode : bool)
    (v : num) (outmask : Z) :
  raises_unless (GeodesicLine.GenPosition l arcmode v outmask)
    (negb (arcmode || Z.testbit (GeodesicLine._caps l) 11) ||
     readable l arcmode outmask) /\
  (forall g lat1 lon1 azi1,
     GeodesicLine.GenPosition
       (GeodesicLine.new g lat1 lon1 azi1 (Z.shiftl 1 8)) true v
       (Z.shiftl 1 8) = Throw TypeError).
Proof.
  split.
  - destruct (arcmode || Z.testbit (GeodesicLine._caps l) 11) eqn:Hg.
    + apply GenPosition_raises, Hg.
    + unfold GeodesicLine.GenPosition. rewrite distance_in_bit, Hg.
      reflexivity.
  - intros g lat1 lon1 azi1.
    pose proof (@GenPosition_raises _ _
                  (GeodesicLine.new g lat1 lon1 azi1 (Z.shiftl 1 8)) true v
                  (Z.shiftl 1 8) eq_refl) as Hr.
    unfold raises_unless in Hr.
    destruct (GeodesicLine.GenPosition _ true v (Z.shiftl 1 8)) as [r|e].
    + exfalso. revert Hr. unfold readable.
      cbn [GeodesicLine.new GeodesicLine._caps GeodesicLine._C3a orb].
      cbn. discriminate.
    + destruct Hr as [-> _]. reflexivity.
Qed.

(** X13: the constructor of [GeodesicLine] adds LATITUDE and AZIMUTH to
    whatever capabilities it is given, so every ray answers an arc-mode
    query for these two: the query returns a record with the arc in [a12]
    and with [lon2] and [s12] at 0 and no [S12]. *)
Theorem latitude_azimuth_always (g : Geodesic.t num) (lat1 lon1 azi1 : num)
    (caps : Z) (a12 : num) :
  let line := GeodesicLine.new g lat1 lon1 azi1 caps in
  let outmask := Z.lor GeodesicMask.LATITUDE GeodesicMask.AZIMUTH in
  Z.testbit (GeodesicLine._caps line) 7 = true /\
  Z.testbit (GeodesicLine._caps line) 9 = true /\
  exists r,
    GeodesicLine.GenPosition line true a12 outmask = Ok r /\
    GeodesicLine.pos_a12 r = a12 /\ GeodesicLine.pos_lon2 r = #0 /\
    GeodesicLine.pos_s12 r = #0 /\ GeodesicLine.pos_S12 r = None.
Proof.
  intros line outmask.
  assert (H7 : Z.testbit (GeodesicLine._caps line) 7 = true).
  { unfold line. rewrite new_caps. unfold stored_caps.
    destruct (caps =? 0)%Z; [reflexivity|].
    rewrite !Z.lor_spec. change (Z.testbit GeodesicMask.LATITUDE 7) with true.
    now rewrite orb_true_r. }
  assert (H9 : Z.testbit (GeodesicLine._caps line) 9 = true).
  { unfold line. rewrite new_caps. unfold stored_caps.
    destruct (caps =? 0)%Z; [reflexivity|].
    rewrite !Z.lor_spec. change (Z.testbit GeodesicMask.AZIMUTH 9) with true.
    now rewrite orb_true_r. }
  split; [exact H7|]. split; [exact H9|].
  pose proof (@GenPosition_raises _ _ line true a12 outmask eq_refl) as Hr.
  pose proof (GenPosition_fields line true a12 outmask eq_refl) as Hf.
  cbv zeta in Hf. unfold raises_unless in Hr.
  destruct (GeodesicLine.GenPosition line true a12 outmask) as [r|e].
  - exists r. split; [reflexivity|].
    destruct Hf as (Ha & _ & Hlon & _ & Hs & _ & _ & _ & HS).
    split; [apply Ha; reflexivity|].
    split; [apply Hlon; reflexivity|].
    split; [apply Hs; reflexivity | apply HS; reflexivity].
  - exfalso. destruct Hr as [_ Hr]. revert Hr. unfold readable.
    change (Z.testbit outmask 10) with false.
    change (Z.testbit outmask 12) with false.
    change (Z.testbit outmask 13) with false.
    change (Z.testbit outmask 8) with false.
    change (Z.testbit outmask 14) with false.
    cbn. discriminate.
Qed.

(** A ray given the output bit of DISTANCE without the capability C1
    raises on the arc-mode query for the distance. *)
Lemma distance_bit_ray_raises (g : Geodesic.t num) (lat1 lon1 azi1 v : num) :
  GeodesicLine.GenPosition
    (GeodesicLine.new g lat1 lon1 azi1 (Z.shiftl 1 10)) true v
    GeodesicMask.DISTANCE = Throw TypeError.
Proof.
  pose proof (@GenPosition_raises _ _
                (GeodesicLine.new g lat1 lon1 azi1 (Z.shiftl 1 10)) true v
                GeodesicMask.DISTANCE eq_refl) as Hr.
  unfold raises_unless in Hr.
  destruct (GeodesicLine.GenPosition _ true v GeodesicMask.DISTANCE) as [r|e].
  - exfalso. revert Hr. unfold readable.
    cbn [GeodesicLine.new GeodesicLine._caps GeodesicLine._C1a orb].
    cbn. discriminate.
  - destruct Hr as [-> _]. reflexivity.
Qed.

End PositionAnswers.

(** C1, as stated, fails: a ray can lack DISTANCE_IN and still not answer
    arc-mode queries.  On the unit sphere, the ray built with the output bit
    of LONGITUDE alone ([caps = 1 << 8], without the capability C3) lacks
    the DISTANCE_IN bit and refuses a distance query with the NaN record,
    and the arc-mode query for the longitude that follows raises a
    TypeError: the series [_C3a] was never assigned. *)
Lemma longitude_bit_ray_raises :
  let l := GeodesicLine.new sphere 0%R 0%R 0%R (Z.shiftl 1 8) in
  Z.testbit (GeodesicLine._caps l) 11 = false /\
  GeodesicLine.GenPosition l false 1000%R (Z.shiftl 1 8) = Ok unavailable /\
  GeodesicLine.GenPosition l true 0%R (Z.shiftl 1 8) = Throw TypeError.
Proof.
  intros l. split; [reflexivity|]. split.
  - unfold GeodesicLine.GenPosition. rewrite distance_in_bit. reflexivity.
  - pose proof (@GenPosition_raises R _ l true 0%R (Z.shiftl 1 8) eq_refl)
      as Hr.
    unfold raises_unless in Hr.
    destruct (GeodesicLine.GenPosition l true 0%R (Z.shiftl 1 8)) as [r|e].
    + exfalso. revert Hr. unfold readable, l.
      cbn [GeodesicLine.new GeodesicLine._caps GeodesicLine._C3a orb].
      cbn. discriminate.
    + destruct Hr as [-> _]. reflexivity.
Qed.

(** ** The interface *)

Section InterfaceFacts.

Context {num : Type} `{Number num}.
Local Open Scope js_scope.

Lemma stored_caps_bit (caps k : Z) :
  (0 <= k)%Z ->
  Z.testbit caps k = true -> Z.testbit (stored_caps caps) k = true.
Proof.
  intros Hk Hb. unfold stored_caps.
  destruct (Z.eqb_spec caps 0) as [->|_].
  - rewrite Z.bits_0 in Hb. discriminate.
  - rewrite !Z.lor_spec, Hb. reflexivity.
Qed.

(** The ray [genDirect_] builds is consistent and, in distance mode, takes
    a distance. *)
Lemma genDirect_ray (this : Interface.t num) (lat1 lon1 azi1 : num)
    (arcmode : bool) (fs : list GeodesicMask.flag) :
  let line :=
    GeodesicLine.new (Interface.geodesic_ this) lat1 lon1 azi1
      (Z.lor (GeodesicMask.mask fs)
             (if arcmode then GeodesicMask.NONE
              else GeodesicMask.DISTANCE_IN)) in
  consistent line /\
  arcmode || Z.testbit (GeodesicLine._caps line) 11 = true /\
  (forall k, (0 <= k)%Z -> Z.testbit (GeodesicMask.mask fs) k = true ->
             Z.testbit (GeodesicLine._caps line) k = true).
Proof.
  intros line. split; [|split].
  - apply new_consistent, closed_lor; [apply closed_mask|].
    destruct arcmode; reflexivity.
  - destruct arcmode; [reflexivity|]. cbn [orb]. unfold line.
    rewrite new_caps. apply stored_caps_bit; [lia|].
    rewrite Z.lor_spec. apply orb_true_r.
  - intros k Hk Hb. unfold line. rewrite new_caps.
    apply stored_caps_bit; [assumption|]. now rewrite Z.lor_spec, Hb.
Qed.

Lemma genDirect_fields (this : Interface.t num) (lat1 lon1 azi1 : num)
    (arcmode : bool) (v : num) (fs : list GeodesicMask.flag) :
  let outmask := GeodesicMask.mask fs in
  exists r,
    Interface.genDirect_ this lat1 lon1 azi1 arcmode v outmask = Ok r /\
    (arcmode = true -> GeodesicLine.pos_a12 r = v) /\
    (arcmode = false -> Z.testbit outmask 10 = true ->
     GeodesicLine.pos_s12 r = v) /\
    (Z.testbit outmask 7 = false -> GeodesicLine.pos_lat2 r = #0) /\
    (Z.testbit outmask 8 = false -> GeodesicLine.pos_lon2 r = #0) /\
    (Z.testbit outmask 9 = false -> GeodesicLine.pos_azi2 r = #0) /\
    (Z.testbit outmask 10 = false -> GeodesicLine.pos_s12 r = #0).
Proof.
  intros outmask. unfold Interface.genDirect_.
  destruct (genDirect_ray this lat1 lon1 azi1 arcmode fs) as (Hc & Hg & Hb).
  fold outmask in Hb.
  set (line := GeodesicLine.new _ _ _ _ _) in *.
  pose proof (GenPosition_fields line arcmode v outmask Hg) as Hf.
  cbv zeta in Hf.
  destruct (GeodesicLine.GenPosition line arcmode v outmask) as [r|e];
    [|contradiction].
  destruct Hf as (H1 & H2 & H3 & H4 & H5 & H6 & _).
  exists r. split; [reflexivity|]. split; [exact H1|].
  split; [|split; [|split; [|split]]].
  - intros Ha Hd. apply H6; [|exact Ha]. rewrite Hd, (Hb 10%Z); auto; lia.
  - intros E. apply H2. now rewrite E.
  - intros E. apply H3. now rewrite E.
  - intros E. apply H4. now rewrite E.
  - intros E. apply H5. now rewrite E.
Qed.

(** X14: [genDirect_] builds its ray with the capabilities of the mask it
    queries (and DISTANCE_IN in distance mode), so for a mask built from
    flags it always returns a record: with the arc in [a12] in arc mode,
    with the distance in [s12] in distance mode when DISTANCE is asked
    for, and with [lat2], [lon2], [azi2] and [s12] at 0 when their flag is
    not in the mask. *)
Theorem genDirect_answers (this : Interface.t num) (lat1 lon1 azi1 : num)
    (arcmode : bool) (v : num) (fs : list GeodesicMask.flag) :
  let outmask := GeodesicMask.mask fs in
  exists r,
    Interface.genDirect_ this lat1 lon1 azi1 arcmode v outmask = Ok r /\
    (arcmode = true -> GeodesicLine.pos_a12 r = v) /\
    (arcmode = false -> Z.testbit outmask 10 = true ->
     GeodesicLine.pos_s12 r = v) /\
    (Z.testbit outmask 7 = false -> GeodesicLine.pos_lat2 r = #0) /\
    (Z.testbit outmask 8 = false -> GeodesicLine.pos_lon2 r = #0) /\
    (Z.testbit outmask 9 = false -> GeodesicLine.pos_azi2 r = #0) /\
    (Z.testbit outmask 10 = false -> GeodesicLine.pos_s12 r = #0).
Proof. exact (genDirect_fields this lat1 lon1 azi1 arcmode v fs). Qed.

(** X15: [direct] returns a pair [[lon2, lat2]], longitude first, for
    every start, distance and bearing and every mask built from flags; a
    coordinate whose flag is not in the mask comes back as 0; and leaving
    the mask out is asking for LATITUDE, LONGITUDE and AZIMUTH. *)
Theorem direct_answers (this : Interface.t num) (c : list num)
    (distance bearing : num) (fs : list GeodesicMask.flag) :
  let outmask := GeodesicMask.mask fs in
  (exists lon2 lat2,
     Interface.direct this c distance bearing (Some outmask) =
       Ok [lon2; lat2] /\
     (Z.testbit outmask 8 = false -> lon2 = #0) /\
     (Z.testbit outmask 7 = false -> lat2 = #0)) /\
  Interface.direct this c distance bearing None =
  Interface.direct this c distance bearing
    (Some (GeodesicMask.mask [GeodesicMask.Latitude; GeodesicMask.Longitude;
                              GeodesicMask.Azimuth])).
Proof.
  intros outmask. split; [|reflexivity].
  unfold Interface.direct, Interface.or_default.
  destruct (genDirect_fields this (aget c 1) (aget c 0) bearing false
              distance fs) as (r & Hr & _ & _ & Hlat & Hlon & _).
  fold outmask in Hr, Hlat, Hlon. rewrite Hr. cbn [GeodesicLine.bind].
  eauto.
Qed.

Lemma assert_cases (b : bool) :
  Interface.assert b = if b then Ok tt else Throw AssertionError.
Proof. reflexivity. Qed.

Lemma circle_loop_length (this : Interface.t num) (lat1 lon1 azi1 s12 : num)
    (k todo i : nat) :
  exists points,
    Interface.circle_loop this lat1 lon1 azi1 s12 k todo i = Ok points /\
    length points = todo.
Proof.
  revert i. induction todo as [|todo IH]; intros i; cbn [Interface.circle_loop].
  - eauto.
  - cbv zeta.
    match goal with
    | |- context [Interface.genDirect_ this lat1 lon1 ?a false s12 _] =>
        destruct (genDirect_fields this lat1 lon1 a false s12
                    [GeodesicMask.Latitude; GeodesicMask.Longitude])
          as (r & Hr & _)
    end.
    change (GeodesicMask.mask [GeodesicMask.Latitude; GeodesicMask.Longitude])
      with (Z.lor GeodesicMask.LATITUDE GeodesicMask.LONGITUDE) in Hr.
    rewrite Hr. cbn [GeodesicLine.bind].
    destruct (IH (S i)) as (points & Hp & Hl). rewrite Hp.
    cbn [GeodesicLine.bind]. eexists. split; [reflexivity|]. cbn. lia.
Qed.

Lemma sides_cases (k : Z) :
  ((k < 4)%Z /\ Interface.sides k = 24%nat) \/
  ((4 <= k)%Z /\ Z.of_nat (Interface.sides k) = k).
Proof.
  unfold Interface.sides.
  destruct (Z.eqb_spec k 0), (Z.ltb_spec k 4); cbn; try (left; split; lia).
  right. split; lia.
Qed.

(** X16: [circle] raises an AssertionError exactly when one of its four
    checks fails (latitude within 90, longitude and azimuth in
    [-540, 540), finite distance), and raises nothing else; otherwise it
    returns [k + 1] points, or 25 when [k] is below 4 (0 and negative
    counts included).  [k] is below the largest array length. *)
Theorem circle_points (this : Interface.t num) (lat1 lon1 azi1 s12 : num)
    (k : Z) :
  (k < 4294967295)%Z ->
  let valid :=
    (Math_abs lat1 <=? #90) &&
    ((lon1 >=? #(-540)) && (lon1 <? #540)) &&
    ((azi1 >=? #(-540)) && (azi1 <? #540)) && isFinite s12 in
  match Interface.circle this lat1 lon1 azi1 s12 k with
  | Ok points =>
      valid = true /\
      ((k < 4)%Z /\ length points = 25%nat \/
       (4 <= k)%Z /\ Z.of_nat (length points) = (k + 1)%Z)
  | Throw e => e = AssertionError /\ valid = false
  end.
Proof.
  intros _ valid. unfold valid, Interface.circle. rewrite !assert_cases.
  destruct (Math_abs lat1 <=? #90); cbn [GeodesicLine.bind andb]; [|auto].
  destruct ((lon1 >=? #(-540)) && (lon1 <? #540));
    cbn [GeodesicLine.bind andb]; [|auto].
  destruct ((azi1 >=? #(-540)) && (azi1 <? #540));
    cbn [GeodesicLine.bind andb]; [|auto].
  destruct (isFinite s12); cbn [GeodesicLine.bind andb]; [|auto].
  destruct (circle_loop_length this lat1 (GeoMath.angNormalize lon1)
              (GeoMath.angNormalize azi1) s12 (Interface.sides k)
              (S (Interface.sides k)) 0) as (points & Hp & Hl).
  rewrite Hp. split; [reflexivity|]. rewrite Hl.
  destruct (sides_cases k) as [[Hk E]|[Hk E]]; [left|right]; split; lia.
Qed.

Lemma envelope_caps_mask :
  Interface.envelope_caps =
  GeodesicMask.mask [GeodesicMask.Latitude; GeodesicMask.Longitude;
                     GeodesicMask.Distance_in; GeodesicMask.Distance;
                     GeodesicMask.Reducedlength; GeodesicMask.Geodesicscale].
Proof. reflexivity. Qed.

Lemma envelope_refine_returns (line : GeodesicLine.t num) (todo : nat)
    (vals : GeodesicLine.PositionVals num) :
  consistent line ->
  exists s12, Interface.envelope_refine line todo vals = Ok s12.
Proof.
  intros Hc. revert vals.
  induction todo as [|todo IH]; intros vals; cbn [Interface.envelope_refine];
    cbv zeta;
    match goal with |- context [if ?b then _ else _] => destruct b end;
    eauto.
  match goal with
  | |- context [GeodesicLine.GenPosition line false ?s ?m] =>
      destruct (@GenPosition_consistent _ _ line false s m Hc) as [r Hr]
  end.
  rewrite Hr. cbn [GeodesicLine.bind]. apply IH.
Qed.

Lemma envelope_loop_length (this : Interface.t num) (lat1 lon1 ord : num)
    (k todo i : nat) :
  exists points,
    Interface.envelope_loop this lat1 lon1 ord k todo i = Ok points /\
    length points = todo.
Proof.
  revert i. induction todo as [|todo IH]; intros i;
    cbn [Interface.envelope_loop].
  - eauto.
  - cbv zeta.
    match goal with
    | |- context [GeodesicLine.new ?g ?a ?b ?c ?m] =>
        set (line := GeodesicLine.new g a b c m);
        assert (Hc : consistent line)
          by (apply new_consistent; reflexivity)
    end.
    match goal with
    | |- context [GeodesicLine.GenPosition line true ?s ?m] =>
        destruct (@GenPosition_consistent _ _ line true s m Hc) as [r Hr]
    end.
    rewrite Hr. cbn [GeodesicLine.bind].
    destruct (envelope_refine_returns 10 r Hc) as [s12 Hs]. rewrite Hs.
    cbn [GeodesicLine.bind].
    match goal with
    | |- context [GeodesicLine.GenPosition line false ?s ?m] =>
        destruct (@GenPosition_consistent _ _ line false s m Hc) as [r' Hr']
    end.
    rewrite Hr'. cbn [GeodesicLine.bind].
    destruct (IH (S i)) as (points & Hp & Hl). rewrite Hp.
    cbn [GeodesicLine.bind]. eexists. split; [reflexivity|]. cbn. lia.
Qed.

(** X17: [envelope] checks the latitude and the longitude only: it raises
    an AssertionError exactly when one of the two checks fails, and
    otherwise returns [k + 1] points, or 25 when [k] is below 4, whatever
    the order [ord] is.  [k] is below the largest array length. *)
Theorem envelope_points (this : Interface.t num) (lat1 lon1 : num) (k : Z)
    (ord : num) :
  (k < 4294967295)%Z ->
  let valid :=
    (Math_abs lat1 <=? #90) && ((lon1 >=? #(-540)) && (lon1 <? #540)) in
  match Interface.envelope this lat1 lon1 k ord with
  | Ok points =>
      valid = true /\
      ((k < 4)%Z /\ length points = 25%nat \/
       (4 <= k)%Z /\ Z.of_nat (length points) = (k + 1)%Z)
  | Throw e => e = AssertionError /\ valid = false
  end.
Proof.
  intros _ valid. unfold valid, Interface.envelope. rewrite !assert_cases.
  destruct (Math_abs lat1 <=? #90); cbn [GeodesicLine.bind andb]; [|auto].
  destruct ((lon1 >=? #(-540)) && (lon1 <? #540));
    cbn [GeodesicLine.bind andb]; [|auto].
  cbv zeta.
  match goal with
  | |- context [Interface.envelope_loop this ?a ?b ?c ?d ?e ?f] =>
      destruct (envelope_loop_length this a b c d e f) as (points & Hp & Hl)
  end.
  rewrite Hp. split; [reflexivity|]. rewrite Hl.
  destruct (sides_cases k) as [[Hk E]|[Hk E]]; [left|right]; split; lia.
Qed.

End InterfaceFacts.

Lemma circle_points_witness :
  match Interface.circle (Interface.mk sphere) 0%R 0%R 0%R 1%R 6 with
  | Ok points => Z.of_nat (List.length points) = 7%Z
  | Throw e => e = AssertionError
  end.
Proof.
  pose proof (@circle_points R _ (Interface.mk sphere) 0%R 0%R 0%R 1%R 6
                eq_refl) as H.
  cbv zeta in H.
  destruct (Interface.circle (Interface.mk sphere) 0%R 0%R 0%R 1%R 6).
  - destruct H as (_ & [[Hk _]|[_ Hl]]); [lia | exact Hl].
  - exact (proj1 H).
Defined.

Lemma envelope_points_witness :
  match Interface.envelope (Interface.mk sphere) 0%R 0%R 6 1%R with
  | Ok points => Z.of_nat (List.length points) = 7%Z
  | Throw e => e = AssertionError
  end.
Proof.
  pose proof (@envelope_points R _ (Interface.mk sphere) 0%R 0%R 6 1%R
                eq_refl) as H.
  cbv zeta in H.
  destruct (Interface.envelope (Interface.mk sphere) 0%R 0%R 6 1%R).
  - destruct H as (_ & [[Hk _]|[_ Hl]]); [lia | exact Hl].
  - exact (proj1 H).
Defined.

(** ** Over the reals: the distance from a point to itself *)

Lemma lon_difference_same (lon : R) : lon_difference lon lon = 0%R.
Proof.
  rewrite lon_difference_real, angDiff_real.
  set (x := GeoMath.angNormalize lon).
  destruct (Rlt_dec 180 (x - x)); [lra|].
  destruct (Rle_dec (x - x) (-180)); lra.
Qed.

Lemma tiny_pos : (0 <= Accuracy.tiny)%R.
Proof. unfold Accuracy.tiny. ideal. apply sqrt_pos. Qed.

Lemma hypot_pos (x y : R) : (0 <= GeoMath.hypot x y)%R.
Proof. rewrite hypot_real. apply sqrt_pos. Qed.

Lemma div_nonneg (x t : R) : (0 <= x)%R -> (0 <= t)%R -> (0 <= x / t)%R.
Proof.
  intros Hx Ht. destruct (Req_dec_T t 0) as [->|Hn].
  - rewrite Rdiv_0_r. lra.
  - apply Rmult_le_pos; [assumption|].
    apply Rlt_le, Rinv_0_lt_compat. lra.
Qed.

(** Twice the same latitude, in the southern half where the canonical
    reduction puts it: the two reduced latitudes are the same. *)
Lemma reduced_same (g : Geodesic.t R) (L : R) :
  (-90 <= L <= 0)%R ->
  let r := Geodesic.reduced g L L 0%R in
  Geodesic.r_sbet2 r = Geodesic.r_sbet1 r /\
  Geodesic.r_cbet2 r = Geodesic.r_cbet1 r /\
  Geodesic.r_dn2 r = Geodesic.r_dn1 r /\
  Geodesic.r_slam12 r = 0%R /\ Geodesic.r_clam12 r = 1%R.
Proof.
  intros HL r. unfold r, Geodesic.reduced, GeoMath.degree. ideal.
  assert (Hc : (if Ideal.eqb (Rabs L) 90 then Accuracy.tiny
                else cos (L * (PI / 180))) =
               (if Ideal.eqb L (-90) then Accuracy.tiny
                else cos (L * (PI / 180)))).
  { rewrite Rabs_left1 by lra. unfold Ideal.eqb.
    destruct (Req_dec_T (- L) 90), (Req_dec_T L (-90)); try reflexivity; lra. }
  rewrite Hc.
  set (c0 := if Ideal.eqb L (-90) then Accuracy.tiny else cos (L * (PI / 180))).
  set (s0 := (Geodesic._f1 g * sin (L * (PI / 180)))%R).
  set (t := GeoMath.hypot s0 c0).
  assert (Hc0 : (0 <= c0)%R).
  { unfold c0. destruct (Ideal.eqb L (-90)); [apply tiny_pos|].
    pose proof PI_RGT_0. apply cos_ge_0; nra. }
  assert (Ht : (0 <= t)%R) by apply hypot_pos.
  assert (Hcb : (0 <= c0 / t)%R) by (apply div_nonneg; assumption).
  replace (0 * (PI / 180))%R with 0%R by ring. rewrite sin_0, cos_0.
  rewrite (eqb_false (x:=0%R) (y:=180%R)) by lra.
  unfold Ideal.ltb.
  destruct (Rlt_dec (c0 / t) (- (s0 / t))) as [Hlt|Hlt].
  - rewrite (eqb_true (eq_refl (c0 / t)%R)).
    destruct (Rlt_dec (s0 / t) 0); [|lra].
    cbn. auto.
  - destruct (Ideal.eqb (Rabs (s0 / t)) (- (s0 / t))); cbn; auto.
Qed.

(** The sums of [Lengths] between a point and itself. *)
Lemma Lengths_same (g : Geodesic.t R) (eps ssig csig dn cbet1 cbet2 : R)
    (scalep : bool) (C1a C2a : list R) :
  let nvals := Geodesic.Lengths g eps 0%R ssig csig dn ssig csig dn
                 cbet1 cbet2 scalep C1a C2a in
  Geodesic.L_m12b nvals = 0%R /\ Geodesic.L_s12b nvals = 0%R.
Proof.
  unfold Geodesic.Lengths. cbv zeta.
  destruct scalep; cbn [Geodesic.L_m12b Geodesic.L_s12b]; ideal; split; ring.
Qed.

Lemma atan2_zero (x : R) : (0 <= x)%R -> Ideal.atan2 0 x = 0%R.
Proof.
  intros Hx. unfold Ideal.atan2.
  destruct (Rlt_dec 0 x).
  - unfold Rdiv. rewrite Rmult_0_l. apply atan_0.
  - destruct (Rlt_dec x 0); [lra|].
    destruct (Rlt_dec 0 0); [lra|reflexivity].
Qed.

Lemma solve_same (g : Geodesic.t R) (L : R) (outmask : Z) :
  (-90 <= L <= 0)%R ->
  exists r s,
    Geodesic.solve g L L 0%R outmask = (r, s, []) /\
    Geodesic.s_meridian s = true /\
    Geodesic.s_salp1 s = 0%R /\ Geodesic.s_calp1 s = 1%R /\
    Geodesic.s_salp2 s = 0%R /\ Geodesic.s_calp2 s = 1%R /\
    Geodesic.s_s12x s = 0%R /\ Geodesic.s_m12x s = 0%R /\
    Geodesic.s_a12 s = 0%R.
Proof.
  intros HL. unfold Geodesic.solve. cbv zeta.
  destruct (reduced_same g HL) as (Hs & Hc & Hd & Hsl & Hcl).
  cbv zeta in Hs, Hc, Hd, Hsl, Hcl.
  set (r := Geodesic.reduced g L L 0%R) in *.
  assert (Hm : (L =? #(-90))%js || (Geodesic.r_slam12 r =? #0)%js = true).
  { rewrite Hsl. ideal. rewrite (eqb_true (eq_refl 0%R)). apply orb_true_r. }
  rewrite Hm.
  set (scalep := has outmask GeodesicMask.GEODESICSCALE).
  set (C1a := new_Array (Accuracy.nc1 + 1)).
  set (C2a := new_Array (Accuracy.nc2 + 1)).
  assert (Hmer : exists M12 M21 omg,
            Geodesic.meridional g r scalep C1a C2a (Geodesic.Sol0 true) =
            Geodesic.mkSol 0%R 1%R 0%R 1%R 0%R 0%R 0%R M12 M21 0%R omg true).
  { unfold Geodesic.meridional. cbv zeta.
    rewrite Hs, Hc, Hd, Hsl, Hcl. ideal.
    set (sb := Geodesic.r_sbet1 r). set (cb := Geodesic.r_cbet1 r).
    replace (1 * cb * sb - sb * (1 * cb))%R with 0%R by ring.
    rewrite Rmax_left by lra.
    rewrite atan2_zero by nra.
    destruct (Lengths_same g (Geodesic._n g) sb (1 * cb)%R (Geodesic.r_dn1 r)
                cb cb scalep C1a C2a) as [Hm12 Hs12].
    cbv zeta in Hm12, Hs12. rewrite Hm12, Hs12.
    rewrite (ltb_true (x:=0%R) (y:=1%R)) by lra. cbn [orb].
    unfold GeoMath.degree. ideal.
    replace (0 * Geodesic._b g)%R with 0%R by ring.
    replace (0 / (PI / 180))%R with 0%R by (unfold Rdiv; ring).
    eauto. }
  destruct Hmer as (M12 & M21 & omg & Hmer). rewrite Hmer.
  cbn [Geodesic.s_meridian negb andb].
  eexists _, _. split; [reflexivity|]. cbn. repeat split.
Qed.

Lemma area_on_meridian (g : Geodesic.t R) (r : Geodesic.Reduced R)
    (s : Geodesic.Sol R) :
  Geodesic.s_meridian s = true ->
  Geodesic.s_salp1 s = 0%R -> Geodesic.s_calp1 s = 1%R ->
  Geodesic.s_salp2 s = 0%R -> Geodesic.s_calp2 s = 1%R ->
  Geodesic.area g r s = 0%R.
Proof.
  intros Hm H1 H2 H3 H4. unfold Geodesic.area. cbv zeta.
  rewrite Hm, H1, H2, H3, H4. ideal.
  replace (0 * Geodesic.r_cbet1 r)%R with 0%R by ring.
  rewrite (eqb_true (eq_refl 0%R)). cbn [negb]. rewrite andb_false_r.
  replace (0 * 1 - 1 * 0)%R with 0%R by ring.
  replace (1 * 1 + 0 * 0)%R with 1%R by ring.
  rewrite (ltb_false (x:=1%R) (y:=0%R)) by lra.
  rewrite andb_false_r. rewrite atan2_zero by lra. cbn [andb]. ring.
Qed.

(** X18: over the reals, the inverse problem from a point to itself, on
    every ellipsoid and at every latitude within 90, the poles included:
    the distance [s12], the arc [a12], the reduced length [m12] and the
    area [S12] are 0 under every mask, and [inverse] of the interface
    reports the distance 0. *)
Theorem GenInverse_same_point (g : Geodesic.t R) (lat lon : R) (outmask : Z) :
  (Rabs lat <= 90)%R ->
  let vals := Geodesic.GenInverse g lat lon lat lon outmask in
  Geodesic.inv_s12 vals = 0%R /\ Geodesic.inv_a12 vals = 0%R /\
  Geodesic.inv_m12 vals = 0%R /\ Geodesic.inv_S12 vals = 0%R /\
  forall opt_outmask,
    Interface.distance
      (Interface.inverse (Interface.mk g) [lon; lat] [lon; lat] opt_outmask) =
    0%R.
Proof.
  intros Hlat.
  assert (Hall : forall m,
            let vals := Geodesic.GenInverse g lat lon lat lon m in
            Geodesic.inv_s12 vals = 0%R /\ Geodesic.inv_a12 vals = 0%R /\
            Geodesic.inv_m12 vals = 0%R /\ Geodesic.inv_S12 vals = 0%R).
  { intros m vals. subst vals.
    unfold Geodesic.GenInverse, Geodesic.GenInverse_run.
    rewrite canonical_real. cbv zeta. rewrite lon_difference_same.
    destruct (Rle_dec (Rabs lat) (Rabs lat)) as [_|Hn]; [|lra].
    destruct (Rle_dec 0 0) as [_|Hn]; [|lra].
    set (latsign := if Rlt_dec lat 0 then 1%R else (-1)%R).
    cbn [Geodesic.c_lat1 Geodesic.c_lat2 Geodesic.c_lon12].
    replace (0 * 1)%R with 0%R by ring.
    assert (HL : (-90 <= lat * latsign <= 0)%R).
    { unfold latsign. revert Hlat. unfold Rabs.
      destruct (Rcase_abs lat), (Rlt_dec lat 0); lra. }
    destruct (solve_same g (Z.land m GeodesicMask.OUT_ALL) HL)
      as (r & s & Hsol & Hm & H1 & H2 & H3 & H4 & Hs12 & Hm12 & Ha12).
    rewrite Hsol. cbn [fst]. unfold Geodesic.outputs. cbv zeta.
    rewrite (area_on_meridian g r s Hm H1 H2 H3 H4).
    rewrite Hs12, Hm12.
    cbn [Geodesic.c_swapp Geodesic.c_lonsign Geodesic.c_latsign].
    ideal. rewrite (ltb_false (x:=1%R) (y:=0%R)) by lra.
    cbn [Geodesic.inv_s12 Geodesic.inv_a12 Geodesic.inv_m12 Geodesic.inv_S12].
    repeat split.
    - destruct (has _ GeodesicMask.DISTANCE); ring.
    - exact Ha12.
    - destruct (has _ GeodesicMask.REDUCEDLENGTH); ring.
    - destruct (has _ GeodesicMask.AREA); ring. }
  intros vals. destruct (Hall outmask) as (A & B & C & D).
  repeat split; try assumption.
  intros opt. unfold Interface.inverse. cbn [Interface.distance aget nth].
  apply Hall.
Qed.

Lemma GenInverse_same_point_witness :
  (Rabs 45 <= 90)%R /\
  Geodesic.inv_s12
    (Geodesic.GenInverse sphere 45%R 10%R 45%R 10%R GeodesicMask.ALL) = 0%R.
Proof.
  assert (H : (Rabs 45 <= 90)%R) by (rewrite Rabs_right; lra).
  split; [exact H|].
  exact (proj1 (@GenInverse_same_point sphere 45%R 10%R GeodesicMask.ALL H)).
Defined.

(** ** Over the reals: a step of no length *)

(** [atan2] recovers an angle of (-PI, PI] from its sine and cosine. *)
Lemma atan2_sin_cos (theta : R) :
  (- PI < theta <= PI)%R -> Ideal.atan2 (sin theta) (cos theta) = theta.
Proof.
  intros Ht. pose proof PI_RGT_0 as Hpi. unfold Ideal.atan2.
  destruct (Rlt_dec 0 (cos theta)) as [Hc|Hc].
  - assert (- (PI / 2) < theta < PI / 2)%R.
    { split.
      - destruct (Rlt_dec (- (PI / 2)) theta); [assumption|].
        assert (cos (- theta) <= 0)%R by (apply cos_le_0; lra).
        rewrite cos_neg in *. lra.
      - destruct (Rlt_dec theta (PI / 2)); [assumption|].
        assert (cos theta <= 0)%R by (apply cos_le_0; lra). lra. }
    apply atan_tan. assumption.
  - destruct (Rlt_dec (cos theta) 0) as [Hn|Hn].
    + destruct (Rle_dec 0 (sin theta)) as [Hs|Hs].
      * assert (PI / 2 < theta)%R.
        { destruct (Rlt_dec (PI / 2) theta); [assumption|].
          destruct (Rlt_dec (- (PI / 2)) theta).
          - destruct (Req_dec_T theta (PI / 2)) as [->|].
            + rewrite cos_PI2 in Hn. lra.
            + assert (0 < cos theta)%R by (apply cos_gt_0; lra). lra.
          - destruct (Req_dec_T theta (- (PI / 2))) as [->|].
            + rewrite cos_neg, cos_PI2 in Hn. lra.
            + assert (sin theta < 0)%R by (apply sin_lt_0_var; lra). lra. }
        replace (sin theta / cos theta)%R with (tan (theta - PI)).
        -- rewrite atan_tan by lra. ring.
        -- unfold tan.
           replace theta with (theta - PI + PI)%R at 3 4 by ring.
           rewrite neg_sin, neg_cos. field.
           replace theta with (theta - PI + PI)%R in Hn by ring.
           rewrite neg_cos in Hn. lra.
      * assert (theta < 0)%R.
        { destruct (Rlt_dec theta 0); [assumption|].
          assert (0 <= sin theta)%R by (apply sin_ge_0; lra). lra. }
        assert (theta < - (PI / 2))%R.
        { destruct (Rlt_dec theta (- (PI / 2))); [assumption|].
          assert (0 <= cos theta)%R by (apply cos_ge_0; lra). lra. }
        replace (sin theta / cos theta)%R with (tan (theta + PI)).
        -- rewrite atan_tan by lra. ring.
        -- unfold tan. rewrite neg_sin, neg_cos. field. lra.
    + assert (E : cos theta = 0%R) by lra.
      destruct (Rlt_dec 0 (sin theta)) as [Hs|Hs];
        [|destruct (Rlt_dec (sin theta) 0) as [Hs'|Hs']].
      * assert (0 < theta)%R.
        { destruct (Rlt_dec 0 theta); [assumption|].
          destruct (Req_dec_T theta 0) as [->|]; [rewrite sin_0 in Hs; lra|].
          assert (sin theta < 0)%R by (apply sin_lt_0_var; lra). lra. }
        destruct (cos_eq_0_2PI_0 theta) as [H1|H1]; lra.
      * assert (theta < 0)%R.
        { destruct (Rlt_dec theta 0); [assumption|].
          assert (0 <= sin theta)%R by (apply sin_ge_0; lra). lra. }
        assert (E2 : cos (theta + 2 * PI) = 0%R)
          by (rewrite cos_plus, cos_2PI, sin_2PI; lra).
        destruct (cos_eq_0_2PI_0 (theta + 2 * PI)) as [H1|H1]; lra.
      * exfalso. apply (cos_sin_0 theta). split; lra.
Qed.

Lemma atan2_scale (c y x : R) :
  (0 < c)%R -> Ideal.atan2 (c * y) (c * x) = Ideal.atan2 y x.
Proof.
  intros Hc. unfold Ideal.atan2.
  assert (Hq : forall x', x' <> 0%R -> (c * y / (c * x') = y / x')%R)
    by (intros; field; lra).
  destruct (Rlt_dec 0 x), (Rlt_dec 0 (c * x)); try nra.
  - rewrite Hq by lra. reflexivity.
  - destruct (Rlt_dec x 0), (Rlt_dec (c * x) 0); try nra.
    + rewrite Hq by lra.
      destruct (Rle_dec 0 y), (Rle_dec 0 (c * y)); try nra; reflexivity.
    + destruct (Rlt_dec 0 y), (Rlt_dec 0 (c * y)); try nra; try reflexivity.
      destruct (Rlt_dec y 0), (Rlt_dec (c * y) 0); try nra; reflexivity.
Qed.

Lemma Int_part_0 : Int_part 0 = 0%Z.
Proof. symmetry. apply Int_part_spec. lra. Qed.

Lemma angNormalize2_0 : GeoMath.angNormalize2 0%R = 0%R.
Proof.
  unfold GeoMath.angNormalize2. ideal. unfold Ideal.rem, Ideal.trunc.
  replace (0 / 360)%R with 0%R by field.
  destruct (Rle_dec 0 0); [|lra]. rewrite Int_part_0.
  rewrite angNormalize_cases. 
  destruct (Rle_dec 180 (0 - 360 * 0)); [lra|].
  destruct (Rlt_dec (0 - 360 * 0) (-180)); lra.
Qed.

Lemma position_eq (a a' s s' lo lo' la la' az az' m m' M M' N N' : R)
    (S : option R) :
  a = a' -> s = s' -> lo = lo' -> la = la' -> az = az' -> m = m' ->
  M = M' -> N = N' ->
  GeodesicLine.mkPosition a s lo la az m M N S =
  GeodesicLine.mkPosition a' s' lo' la' az' m' M' N' S.
Proof. intros; subst; reflexivity. Qed.

(** A query at arc 0 on a ray with every capability, in terms of the ray's
    fields. *)
Section ZeroArc.

Variable l : GeodesicLine.t R.
Variables c1 c2 c3 c4 : list R.
Variables sb cb alpha phi : R.

Hypothesis Hcaps : GeodesicLine._caps l = GeodesicMask.ALL.
Hypothesis HC1 : GeodesicLine._C1a l = Some c1.
Hypothesis HB11 :
  GeodesicLine._B11 l =
  Some (Geodesic.SinCosSeries true (GeodesicLine._ssig1 l)
          (GeodesicLine._csig1 l) c1 Accuracy.nc1).
Hypothesis HC2 : GeodesicLine._C2a l = Some c2.
Hypothesis HB21 :
  GeodesicLine._B21 l =
  Some (Geodesic.SinCosSeries true (GeodesicLine._ssig1 l)
          (GeodesicLine._csig1 l) c2 Accuracy.nc2).
Hypothesis HC3 : GeodesicLine._C3a l = Some c3.
Hypothesis HB31 :
  GeodesicLine._B31 l =
  Some (Geodesic.SinCosSeries true (GeodesicLine._ssig1 l)
          (GeodesicLine._csig1 l) c3 (Accuracy.nc3 - 1)).
Hypothesis HC4 : GeodesicLine._C4a l = Some c4.

Hypothesis Hcb : (0 < cb)%R.
Hypothesis Hf1 : (0 < GeodesicLine._f1 l)%R.
Hypothesis Hphi : (- (PI / 2) < phi < PI / 2)%R.
Hypothesis Halpha : (- PI <= alpha < PI)%R.
Hypothesis Hsbet : (GeodesicLine._calp0 l * GeodesicLine._ssig1 l = sb)%R.
Hypothesis Hcalp : (GeodesicLine._calp0 l * GeodesicLine._csig1 l =
                    cb * cos alpha)%R.
Hypothesis Hsalp : GeodesicLine._salp0 l = (cb * sin alpha)%R.
Hypothesis Htan : (sb / (GeodesicLine._f1 l * cb) = tan phi)%R.
Hypothesis Hcross :
  (GeodesicLine._salp0 l * GeodesicLine._ssig1 l * GeodesicLine._comg1 l -
   GeodesicLine._csig1 l * GeodesicLine._somg1 l = 0)%R.
Hypothesis Hdot :
  (0 <= GeodesicLine._csig1 l * GeodesicLine._comg1 l +
        GeodesicLine._salp0 l * GeodesicLine._ssig1 l *
        GeodesicLine._somg1 l)%R.
Hypothesis Hdn :
  sqrt (1 + GeodesicLine._k2 l *
            (GeodesicLine._ssig1 l * GeodesicLine._ssig1 l)) =
  GeodesicLine._dn1 l.
Hypothesis Hlon : (-180 <= GeodesicLine._lon1 l < 180)%R.

Lemma zero_arc_fields (outmask : Z) :
  exists S12,
    GeodesicLine.GenPosition l true 0%R outmask =
    Ok (GeodesicLine.mkPosition 0%R 0%R
          (if Z.testbit outmask 8 then GeodesicLine._lon1 l else 0%R)
          (if Z.testbit outmask 7 then (phi / (PI / 180))%R else 0%R)
          (if Z.testbit outmask 9 then (alpha / (PI / 180))%R else 0%R)
          0%R
          (if Z.testbit outmask 13 then 1%R else 0%R)
          (if Z.testbit outmask 13 then 1%R else 0%R) S12).
Proof.
  pose proof PI_RGT_0 as Hpi.
  unfold GeodesicLine.GenPosition. cbn [orb negb].
  rewrite !has_lor, om_distance, om_longitude, om_latitude, om_azimuth,
    om_reducedlength, om_geodesicscale, om_area.
  rewrite Hcaps.
  change (Z.testbit GeodesicMask.ALL 7) with true.
  change (Z.testbit GeodesicMask.ALL 8) with true.
  change (Z.testbit GeodesicMask.ALL 9) with true.
  change (Z.testbit GeodesicMask.ALL 10) with true.
  change (Z.testbit GeodesicMask.ALL 12) with true.
  change (Z.testbit GeodesicMask.ALL 13) with true.
  change (Z.testbit GeodesicMask.ALL 14) with true.
  rewrite !andb_true_r.
  rewrite HC1, HB11, HC2, HB21, HC3, HB31, HC4.
  unfold GeodesicLine.series, GeodesicLine.val, GeoMath.degree, GeoMath.sq.
  ideal. cbn [GeodesicLine.bind].
  rewrite Rabs_R0.
  replace (0 / 180)%R with 0%R by field. rewrite Int_part_0.
  replace (0 - 180 * 0)%R with 0%R by ring.
  rewrite (eqb_true (eq_refl 0%R)), (eqb_false (x:=0%R) (y:=90%R)) by lra.
  replace (0 * (PI / 180))%R with 0%R by ring. rewrite cos_0.
  set (ssig1 := GeodesicLine._ssig1 l) in *.
  set (csig1 := GeodesicLine._csig1 l) in *.
  replace (ssig1 * 1 + csig1 * 0)%R with ssig1 by ring.
  replace (csig1 * 1 - ssig1 * 0)%R with csig1 by ring.
  rewrite Hsbet, Hcalp, Hsalp, Hdn.
  assert (Hh : GeoMath.hypot (cb * sin alpha)%R (cb * cos alpha)%R = cb).
  { rewrite hypot_real.
    replace (cb * sin alpha * (cb * sin alpha) +
             cb * cos alpha * (cb * cos alpha))%R
      with (cb * cb * ((sin alpha)² + (cos alpha)²))%R by (unfold Rsqr; ring).
    rewrite sin2_cos2, Rmult_1_r. apply sqrt_square. lra. }
  rewrite Hh. rewrite (@eqb_false cb 0%R) by lra.
  rewrite Hcalp.
  rewrite Hsalp in Hcross, Hdot. rewrite Hcross, (atan2_zero Hdot).
  assert (Hlat : (Ideal.atan2 sb (GeodesicLine._f1 l * cb) / (PI / 180) =
                  phi / (PI / 180))%R).
  { f_equal. unfold Ideal.atan2.
    destruct (Rlt_dec 0 (GeodesicLine._f1 l * cb)) as [_|Hn]; [|nra].
    rewrite Htan. apply atan_tan, Hphi. }
  assert (Hazi : (0 - Ideal.atan2 (- (cb * sin alpha)) (cb * cos alpha) /
                      (PI / 180) = alpha / (PI / 180))%R).
  { replace (- (cb * sin alpha))%R with (cb * sin (- alpha))%R
      by (rewrite sin_neg; ring).
    rewrite <- (cos_neg alpha), atan2_scale by assumption.
    rewrite atan2_sin_cos by lra. field. lra. }
  assert (Hlon2 : GeoMath.angNormalize (GeodesicLine._lon1 l + 0)%R =
                  GeodesicLine._lon1 l).
  { rewrite Rplus_0_r, angNormalize_cases.
    destruct (Rle_dec 180 (GeodesicLine._lon1 l)); [lra|].
    destruct (Rlt_dec (GeodesicLine._lon1 l) (-180)); [lra|reflexivity]. }
  rewrite Hlat, Hazi.
  set (A1m1 := match GeodesicLine._A1m1 l with Some x => x | None => _ end).
  set (A2m1 := match GeodesicLine._A2m1 l with Some x => x | None => _ end).
  set (A3c := match GeodesicLine._A3c l with Some x => x | None => _ end).
  set (B1 := Geodesic.SinCosSeries true ssig1 csig1 c1 Accuracy.nc1).
  set (B2 := Geodesic.SinCosSeries true ssig1 csig1 c2 Accuracy.nc2).
  set (B3 := Geodesic.SinCosSeries true ssig1 csig1 c3 (Accuracy.nc3 - 1)).
  replace ((0 + A3c * (0 + (B3 - B3))) / (PI / 180))%R with 0%R
    by (unfold Rdiv; ring).
  rewrite angNormalize2_0, Hlon2.
  replace ((1 + A1m1) * (B1 - B1))%R with 0%R by ring.
  destruct (Z.testbit outmask 10), (Z.testbit outmask 12),
    (Z.testbit outmask 13), (Z.testbit outmask 8), (Z.testbit outmask 14);
    cbn [orb GeodesicLine.bind];
    repeat match goal with
           | |- context [match (if ?b then _ else _) with (_, _) => _ end] =>
               destruct b
           end;
    cbn [GeodesicLine.bind];
    eexists; apply f_equal;
    apply position_eq; try reflexivity; unfold Rdiv; ring.
Qed.

End ZeroArc.

(** The direction and the reduced latitude the constructor starts from. *)
Section RayFields.

Variable g : Geodesic.t R.
Variables lat1 lon1 azi1 : R.
Variable caps : Z.

Hypothesis Hlat : (Rabs lat1 < 90)%R.
Hypothesis Hazi : (-540 <= azi1 < 540)%R.
Hypothesis Hf1 : (0 < Geodesic._f1 g)%R.

Let l := GeodesicLine.new g lat1 lon1 azi1 caps.
Let alpha := (GeoMath.angNormalize azi1 * (PI / 180))%R.
Let phi := (lat1 * (PI / 180))%R.
Let t0 := sqrt (Geodesic._f1 g * sin phi * (Geodesic._f1 g * sin phi) +
                cos phi * cos phi).
Let sb := (Geodesic._f1 g * sin phi / t0)%R.
Let cb := (cos phi / t0)%R.
Let comg1 :=
  if negb (Ideal.eqb sb 0) || negb (Ideal.eqb (cos alpha) 0)
  then (cb * cos alpha)%R else 1%R.
Let t1 := sqrt (sb * sb + comg1 * comg1).

Lemma ray_angles :
  (- (PI / 2) < phi < PI / 2)%R /\ (- PI <= alpha < PI)%R /\
  (-180 <= GeoMath.angNormalize azi1 < 180)%R.
Proof.
  pose proof PI_RGT_0 as Hpi. unfold phi, alpha.
  assert (-90 < lat1 < 90)%R.
  { revert Hlat. unfold Rabs. destruct (Rcase_abs lat1); lra. }
  assert (HA : (-180 <= GeoMath.angNormalize azi1 < 180)%R).
  { rewrite angNormalize_cases.
    destruct (Rle_dec 180 azi1); [lra|].
    destruct (Rlt_dec azi1 (-180)); lra. }
  split; [nra|]. split; [nra|exact HA].
Qed.

Lemma ray_fields :
  GeodesicLine._salp1 l = sin alpha /\
  GeodesicLine._calp1 l = cos alpha /\
  GeodesicLine._salp0 l = (sin alpha * cb)%R /\
  GeodesicLine._calp0 l = sqrt (cos alpha * cos alpha +
                                sin alpha * sb * (sin alpha * sb)) /\
  GeodesicLine._dn1 l = sqrt (1 + Geodesic._ep2 g * (sb * sb)) /\
  GeodesicLine._somg1 l = (sin alpha * cb * sb)%R /\
  GeodesicLine._comg1 l = comg1 /\
  GeodesicLine._ssig1 l = (sb / t1)%R /\
  GeodesicLine._csig1 l = (comg1 / t1)%R /\
  GeodesicLine._k2 l =
    (GeodesicLine._calp0 l * GeodesicLine._calp0 l * Geodesic._ep2 g)%R /\
  GeodesicLine._lon1 l = GeoMath.angNormalize lon1 /\
  GeodesicLine._azi1 l = GeoMath.angNormalize azi1 /\
  GeodesicLine._f1 l = Geodesic._f1 g.
Proof.
  pose proof PI_RGT_0 as Hpi.
  destruct ray_angles as (Hphi & Halpha & HA).
  unfold l, GeodesicLine.new.
  cbn [GeodesicLine._salp1 GeodesicLine._calp1 GeodesicLine._salp0
       GeodesicLine._calp0 GeodesicLine._dn1 GeodesicLine._somg1
       GeodesicLine._comg1 GeodesicLine._ssig1 GeodesicLine._csig1
       GeodesicLine._k2 GeodesicLine._lon1 GeodesicLine._azi1
       GeodesicLine._f1].
  rewrite !AngRound_real. unfold GeoMath.degree, GeoMath.sq. ideal.
  rewrite !hypot_real.
  rewrite (@eqb_false (Rabs lat1) 90%R) by lra.
  fold phi alpha. fold t0. fold sb cb.
  assert (Hs : (if Ideal.eqb (GeoMath.angNormalize azi1) (-180) then 0%R
                else sin alpha) = sin alpha).
  { unfold Ideal.eqb. destruct (Req_dec_T _ (-180)) as [E|E]; [|reflexivity].
    unfold alpha. rewrite E.
    replace (-180 * (PI / 180))%R with (- PI)%R by field.
    now rewrite sin_neg, sin_PI, Ropp_0. }
  assert (Hc : (if Ideal.eqb (Rabs (GeoMath.angNormalize azi1)) 90 then 0%R
                else cos alpha) = cos alpha).
  { unfold Ideal.eqb. destruct (Req_dec_T _ 90) as [E|E]; [|reflexivity].
    unfold alpha. revert E. unfold Rabs.
    destruct (Rcase_abs (GeoMath.angNormalize azi1)); intros E.
    - replace (GeoMath.angNormalize azi1) with (-90)%R by lra.
      replace (-90 * (PI / 180))%R with (- (PI / 2))%R by field.
      now rewrite cos_neg, cos_PI2.
    - rewrite E. replace (90 * (PI / 180))%R with (PI / 2)%R by field.
      now rewrite cos_PI2. }
  rewrite Hs, Hc. fold comg1. fold t1.
  repeat split; reflexivity.
Qed.

Lemma ray_reduced : (0 < t0)%R /\ (0 < cb)%R /\ (sb * sb + cb * cb = 1)%R.
Proof.
  destruct ray_angles as (Hphi & _).
  assert (Hc : (0 < cos phi)%R) by (apply cos_gt_0; lra).
  assert (Ht : (0 < t0)%R) by (unfold t0; apply sqrt_lt_R0; nra).
  assert (Ht2 : (t0 * t0 = Geodesic._f1 g * sin phi *
                           (Geodesic._f1 g * sin phi) +
                           cos phi * cos phi)%R).
  { unfold t0. apply sqrt_sqrt. nra. }
  split; [exact Ht|]. split.
  - unfold cb. apply Rdiv_lt_0_compat; assumption.
  - unfold sb, cb.
    replace (Geodesic._f1 g * sin phi / t0 * (Geodesic._f1 g * sin phi / t0) +
             cos phi / t0 * (cos phi / t0))%R
      with ((Geodesic._f1 g * sin phi * (Geodesic._f1 g * sin phi) +
             cos phi * cos phi) / (t0 * t0))%R by (field; lra).
    rewrite <- Ht2. field. lra.
Qed.

Let calp0 := sqrt (cos alpha * cos alpha + sin alpha * sb * (sin alpha * sb)).

(** The normalisation of [(ssig1, csig1)] divides by [calp0], or by 1 on
    the equator heading east or west. *)
Lemma ray_norm :
  (0 < t1)%R /\ (t1 * t1 = sb * sb + comg1 * comg1)%R /\
  (calp0 * calp0 =
   cos alpha * cos alpha + sin alpha * sb * (sin alpha * sb))%R /\
  ((t1 = calp0 /\ comg1 = (cb * cos alpha)%R) \/
   (t1 = 1%R /\ calp0 = 0%R /\ sb = 0%R /\ cos alpha = 0%R /\ comg1 = 1%R)).
Proof.
  destruct ray_reduced as (Ht0 & Hcb & Hunit).
  pose proof (sin2_cos2 alpha) as Ha. unfold Rsqr in Ha.
  assert (Hc2 : (calp0 * calp0 =
                 cos alpha * cos alpha + sin alpha * sb * (sin alpha * sb))%R)
    by (unfold calp0; apply sqrt_sqrt; nra).
  assert (Ht2 : (t1 * t1 = sb * sb + comg1 * comg1)%R)
    by (unfold t1; apply sqrt_sqrt; nra).
  unfold t1, calp0, comg1 in *. unfold Ideal.eqb in *.
  destruct (Req_dec_T sb 0) as [Hs|Hs];
    [destruct (Req_dec_T (cos alpha) 0) as [Hc|Hc]|]; cbn [negb orb] in *.
  - rewrite Hs, Hc in *.
    replace (0 * 0 + 1 * 1)%R with 1%R in * by ring.
    replace (0 * 0 + sin alpha * 0 * (sin alpha * 0))%R with 0%R in * by ring.
    rewrite sqrt_1, sqrt_0 in *.
    split; [lra|]. split; [assumption|]. split; [assumption|].
    right. repeat split; reflexivity.
  - assert (E : (sb * sb + cb * cos alpha * (cb * cos alpha) =
                 cos alpha * cos alpha + sin alpha * sb * (sin alpha * sb))%R)
      by nra.
    rewrite E in *. split; [apply sqrt_lt_R0; nra|].
    split; [assumption|]. split; [assumption|]. left. split; reflexivity.
  - assert (E : (sb * sb + cb * cos alpha * (cb * cos alpha) =
                 cos alpha * cos alpha + sin alpha * sb * (sin alpha * sb))%R)
      by nra.
    rewrite E in *. split; [apply sqrt_lt_R0; nra|].
    split; [assumption|]. split; [assumption|]. left. split; reflexivity.
Qed.

(** X19: over the reals, for a latitude strictly within 90 and an azimuth
    in [-540, 540), the constructor of [GeodesicLine] stores unit vectors:
    [(salp1, calp1)], [(salp0, calp0)] and [(ssig1, csig1)] have norm 1,
    [calp0] is not negative, and [(salp1, calp1)] are the sine and cosine
    of the stored azimuth, which lies in [-180, 180). *)
Theorem ray_directions :
  (GeodesicLine._salp1 l * GeodesicLine._salp1 l +
   GeodesicLine._calp1 l * GeodesicLine._calp1 l = 1)%R /\
  (GeodesicLine._salp0 l * GeodesicLine._salp0 l +
   GeodesicLine._calp0 l * GeodesicLine._calp0 l = 1)%R /\
  (GeodesicLine._ssig1 l * GeodesicLine._ssig1 l +
   GeodesicLine._csig1 l * GeodesicLine._csig1 l = 1)%R /\
  (0 <= GeodesicLine._calp0 l)%R /\
  GeodesicLine._salp1 l = sin (GeodesicLine._azi1 l * (PI / 180)) /\
  GeodesicLine._calp1 l = cos (GeodesicLine._azi1 l * (PI / 180)) /\
  (-180 <= GeodesicLine._azi1 l < 180)%R.
Proof.
  destruct ray_fields as (E1 & E2 & E3 & E4 & _ & _ & _ & E8 & E9 & _ & _ &
                          E12 & _).
  destruct ray_reduced as (Ht0 & Hcb & Hunit).
  destruct ray_norm as (Ht1 & Ht2 & Hc2 & _).
  destruct ray_angles as (_ & _ & HA).
  pose proof (sin2_cos2 alpha) as Ha. unfold Rsqr in Ha.
  rewrite E1, E2, E3, E4, E8, E9, E12. fold calp0 alpha.
  split; [exact Ha|]. split; [rewrite Hc2; nra|]. split.
  - replace (sb / t1 * (sb / t1) + comg1 / t1 * (comg1 / t1))%R
      with ((sb * sb + comg1 * comg1) / (t1 * t1))%R by (field; lra).
    rewrite <- Ht2. field. lra.
  - split; [apply sqrt_pos|]. repeat split; try reflexivity; apply HA.
Qed.


Hypothesis Hzero : caps = 0%Z.
Hypothesis Hlon : (-540 <= lon1 < 540)%R.

Lemma zero_arc_at_start (outmask : Z) :
  exists r,
    GeodesicLine.GenPosition l true 0%R outmask = Ok r /\
    GeodesicLine.pos_a12 r = 0%R /\
    GeodesicLine.pos_s12 r = 0%R /\
    GeodesicLine.pos_m12 r = 0%R /\
    GeodesicLine.pos_lat2 r = (if Z.testbit outmask 7 then lat1 else 0%R) /\
    GeodesicLine.pos_lon2 r =
      (if Z.testbit outmask 8 then GeoMath.angNormalize lon1 else 0%R) /\
    GeodesicLine.pos_azi2 r =
      (if Z.testbit outmask 9 then GeoMath.angNormalize azi1 else 0%R) /\
    GeodesicLine.pos_M12 r = (if Z.testbit outmask 13 then 1%R else 0%R) /\
    GeodesicLine.pos_M21 r = (if Z.testbit outmask 13 then 1%R else 0%R).
Proof.
  pose proof PI_RGT_0 as Hpi.
  destruct ray_fields as (E1 & E2 & E3 & E4 & E5 & E6 & E7 & E8 & E9 & E10 &
                          E11 & E12 & E13).
  destruct ray_reduced as (Ht0 & Hcb & Hunit).
  destruct ray_norm as (Ht1 & Ht2 & Hc2 & Hcase).
  destruct ray_angles as (Hphi & Halpha & HA).
  assert (Hc0 : (0 <= calp0)%R) by apply sqrt_pos.
  assert (Hfields : exists S12,
            GeodesicLine.GenPosition l true 0%R outmask =
            Ok (GeodesicLine.mkPosition 0%R 0%R
                  (if Z.testbit outmask 8 then GeodesicLine._lon1 l else 0%R)
                  (if Z.testbit outmask 7 then (phi / (PI / 180))%R else 0%R)
                  (if Z.testbit outmask 9 then (alpha / (PI / 180))%R
                   else 0%R)
                  0%R
                  (if Z.testbit outmask 13 then 1%R else 0%R)
                  (if Z.testbit outmask 13 then 1%R else 0%R) S12)).
  { eapply zero_arc_fields with (sb := sb) (cb := cb).
    - unfold l. rewrite new_caps, Hzero. reflexivity.
    - unfold l. rewrite Hzero. reflexivity.
    - unfold l. rewrite Hzero. reflexivity.
    - unfold l. rewrite Hzero. reflexivity.
    - unfold l. rewrite Hzero. reflexivity.
    - unfold l. rewrite Hzero. reflexivity.
    - unfold l. rewrite Hzero. reflexivity.
    - unfold l. rewrite Hzero. reflexivity.
    - exact Hcb.
    - rewrite E13. exact Hf1.
    - exact Hphi.
    - exact Halpha.
    - rewrite E4, E8. fold calp0.
      destruct Hcase as [[Et _]|(Et & Ec & Es & _)].
      + rewrite Et. field. rewrite <- Et. lra.
      + rewrite Ec, Es. ring.
    - rewrite E4, E9. fold calp0.
      destruct Hcase as [[Et Ec]|(Et & Ec & Es & Ea & Eo)].
      + rewrite Et, Ec. field. rewrite <- Et. lra.
      + rewrite Ec, Ea. ring.
    - rewrite E3. ring.
    - rewrite E13. unfold sb, cb, tan. field.
      assert (0 < cos phi)%R by (apply cos_gt_0; lra). repeat split; lra.
    - rewrite E3, E6, E7, E8, E9. field. lra.
    - rewrite E3, E6, E7, E8, E9.
      replace (comg1 / t1 * comg1 +
               sin alpha * cb * (sb / t1) * (sin alpha * cb * sb))%R
        with ((comg1 * comg1 +
               (sin alpha * cb * sb) * (sin alpha * cb * sb)) / t1)%R
        by (field; lra).
      apply Rmult_le_pos; [nra|]. apply Rlt_le, Rinv_0_lt_compat, Ht1.
    - rewrite E10, E5, E4, E8. fold calp0. f_equal. f_equal.
      destruct Hcase as [[Et _]|(Et & Ec & Es & _)].
      + rewrite Et. field. rewrite <- Et. lra.
      + rewrite Ec, Es. unfold Rdiv. ring.
    - rewrite E11, angNormalize_cases.
      destruct (Rle_dec 180 lon1); [lra|].
      destruct (Rlt_dec lon1 (-180)); lra. }
  destruct Hfields as [S12 Hr]. eexists. split; [exact Hr|].
  cbn [GeodesicLine.pos_a12 GeodesicLine.pos_s12 GeodesicLine.pos_m12
       GeodesicLine.pos_lat2 GeodesicLine.pos_lon2 GeodesicLine.pos_azi2
       GeodesicLine.pos_M12 GeodesicLine.pos_M21].
  rewrite E11. unfold phi, alpha.
  replace (lat1 * (PI / 180) / (PI / 180))%R with lat1 by (field; lra).
  replace (GeoMath.angNormalize azi1 * (PI / 180) / (PI / 180))%R
    with (GeoMath.angNormalize azi1) by (field; lra).
  repeat split.
Qed.

End RayFields.

Lemma ray_directions_witness :
  let l := GeodesicLine.new sphere 30%R 0%R 45%R 0 in
  (GeodesicLine._salp0 l * GeodesicLine._salp0 l +
   GeodesicLine._calp0 l * GeodesicLine._calp0 l = 1)%R.
Proof.
  assert (Hlat : (Rabs 30 < 90)%R) by (rewrite Rabs_pos_eq; lra).
  assert (Hazi : (-540 <= 45 < 540)%R) by lra.
  exact (proj1 (proj2 (@ray_directions sphere 30%R 0%R 45%R 0 Hlat Hazi))).
Defined.

(** X20: over the reals, a step of no length stays where it is.  On an
    ellipsoid with [_f1 > 0], on a ray with every capability, from a
    latitude strictly within 90 with longitude and azimuth in [-540, 540),
    the azimuth not due south (its normal form is not -180, that is, it is
    none of 180, -180 and -540), an arc-mode query at arc 0 returns
    [a12 = s12 = m12 = 0], and, each under its flag, the latitude it
    started from, the longitude and the azimuth it started from
    (normalized), and the scales [M12 = M21 = 1].  Due south is left out:
    there the code passes a negative zero to [Math.atan2] and returns the
    azimuth 180, not the -180 it normalized the input to, and the reals
    have one zero. *)
Theorem zero_arc_returns_start (g : Geodesic.t R) (lat1 lon1 azi1 : R)
    (outmask : Z) :
  (0 < Geodesic._f1 g)%R ->
  (Rabs lat1 < 90)%R -> (-540 <= lon1 < 540)%R -> (-540 <= azi1 < 540)%R ->
  GeoMath.angNormalize azi1 <> (-180)%R ->
  exists r,
    GeodesicLine.GenPosition (GeodesicLine.new g lat1 lon1 azi1 0) true 0%R
      outmask = Ok r /\
    GeodesicLine.pos_a12 r = 0%R /\
    GeodesicLine.pos_s12 r = 0%R /\
    GeodesicLine.pos_m12 r = 0%R /\
    GeodesicLine.pos_lat2 r = (if Z.testbit outmask 7 then lat1 else 0%R) /\
    GeodesicLine.pos_lon2 r =
      (if Z.testbit outmask 8 then GeoMath.angNormalize lon1 else 0%R) /\
    GeodesicLine.pos_azi2 r =
      (if Z.testbit outmask 9 then GeoMath.angNormalize azi1 else 0%R) /\
    GeodesicLine.pos_M12 r = (if Z.testbit outmask 13 then 1%R else 0%R) /\
    GeodesicLine.pos_M21 r = (if Z.testbit outmask 13 then 1%R else 0%R).
Proof.
  intros Hf1 Hlat Hlon Hazi _.
  exact (@zero_arc_at_start g lat1 lon1 azi1 0 Hlat Hazi Hf1 eq_refl Hlon
           outmask).
Qed.

Lemma zero_arc_returns_start_witness :
  exists r,
    GeodesicLine.GenPosition (GeodesicLine.new sphere 30%R 10%R 45%R 0) true
      0%R GeodesicMask.LATITUDE = Ok r /\
    GeodesicLine.pos_lat2 r = 30%R.
Proof.
  assert (Hf1 : (0 < Geodesic._f1 sphere)%R) by (cbn; lra).
  assert (Hlat : (Rabs 30 < 90)%R) by (rewrite Rabs_pos_eq; lra).
  assert (Hlon : (-540 <= 10 < 540)%R) by lra.
  assert (Hazi : (-540 <= 45 < 540)%R) by lra.
  assert (Hsouth : GeoMath.angNormalize 45%R <> (-180)%R).
  { rewrite angNormalize_cases.
    destruct (Rle_dec 180 45); [lra|]. destruct (Rlt_dec 45 (-180)); lra. }
  destruct (@zero_arc_returns_start sphere 30%R 10%R 45%R
              GeodesicMask.LATITUDE Hf1 Hlat Hlon Hazi Hsouth)
    as (r & Hr & _ & _ & _ & Hl & _).
  exists r. split; [exact Hr | exact Hl].
Defined.

(** ** Over the reals: the circle closes *)

Section CircleFacts.

Context {num : Type} `{Number num}.
Local Open Scope js_scope.

(** The point of pass [i + j] is the [j]-th of the points from [i] on. *)
Lemma circle_loop_nth (this : Interface.t num) (lat1 lon1 azi1 s12 : num)
    (k todo : nat) :
  forall (i : nat) (points : list (Interface.Point num)),
    Interface.circle_loop this lat1 lon1 azi1 s12 k todo i = Ok points ->
    forall j, (j < todo)%nat ->
      let azi1a := azi1 + (#(Z.of_nat k) - #(Z.of_nat (i + j))) * #360 /
                          #(Z.of_nat k) in
      let azi1a := if azi1a >=? #180 then azi1a - #360 else azi1a in
      exists vals,
        Interface.genDirect_ this lat1 lon1 azi1a false s12
          (Z.lor GeodesicMask.LATITUDE GeodesicMask.LONGITUDE) = Ok vals /\
        nth_error points j =
        Some (Interface.mkPoint (GeodesicLine.pos_lat2 vals)
                                (GeodesicLine.pos_lon2 vals)).
Proof.
  induction todo as [|todo IH]; intros i points Hp j Hj; [lia|].
  cbn [Interface.circle_loop] in Hp. cbv zeta in Hp.
  match type of Hp with
  | context [Interface.genDirect_ this lat1 lon1 ?a false s12 ?m] =>
      destruct (Interface.genDirect_ this lat1 lon1 a false s12 m)
        as [vals|e] eqn:Hv; [|discriminate]
  end.
  cbn [GeodesicLine.bind] in Hp.
  destruct (Interface.circle_loop this lat1 lon1 azi1 s12 k todo (S i))
    as [rest|e] eqn:Hrest; [|discriminate].
  cbn [GeodesicLine.bind] in Hp. injection Hp as <-.
  destruct j as [|j].
  - rewrite Nat.add_0_r. cbv zeta. exists vals. split; [exact Hv|reflexivity].
  - replace (i + S j)%nat with (S i + j)%nat by lia.
    apply (IH (S i) rest Hrest j). lia.
Qed.

End CircleFacts.

(** X21: over the reals, the polygon of [circle] is closed and starts on
    the given azimuth: on valid arguments, with [k] below the largest array
    length, the last point is the first one, and the first one is the point
    [genDirect_] reaches from the centre on the normalized azimuth at
    distance [s12]. *)
Theorem circle_closed (this : Interface.t R) (lat1 lon1 azi1 s12 : R) (k : Z) :
  (k < 4294967295)%Z ->
  (Rabs lat1 <= 90)%R -> (-540 <= lon1 < 540)%R -> (-540 <= azi1 < 540)%R ->
  exists points vals,
    Interface.circle this lat1 lon1 azi1 s12 k = Ok points /\
    Interface.genDirect_ this lat1 (GeoMath.angNormalize lon1)
      (GeoMath.angNormalize azi1) false s12
      (Z.lor GeodesicMask.LATITUDE GeodesicMask.LONGITUDE) = Ok vals /\
    nth_error points 0 =
      Some (Interface.mkPoint (GeodesicLine.pos_lat2 vals)
                              (GeodesicLine.pos_lon2 vals)) /\
    nth_error points (Interface.sides k) = nth_error points 0.
Proof.
  intros _ Hlat Hlon Hazi.
  set (n := Interface.sides k).
  set (A := GeoMath.angNormalize azi1).
  assert (HA : (-180 <= A < 180)%R).
  { unfold A. rewrite angNormalize_cases.
    destruct (Rle_dec 180 azi1); [lra|].
    destruct (Rlt_dec azi1 (-180)); lra. }
  assert (Hn : (4 <= n)%nat).
  { unfold n. destruct (sides_cases k) as [[_ E]|[Hk E]]; lia. }
  assert (Hn0 : (0 < IZR (Z.of_nat n))%R) by (apply IZR_lt; lia).
  destruct (@circle_loop_length R _ this lat1 (GeoMath.angNormalize lon1) A
              s12 n (S n) 0) as (points & Hp & Hl).
  exists points.
  assert (Hc : Interface.circle this lat1 lon1 azi1 s12 k = Ok points).
  { unfold Interface.circle. rewrite !assert_cases. ideal.
    rewrite (leb_true Hlat).
    rewrite (leb_true (proj1 Hlon)), (ltb_true (proj2 Hlon)).
    rewrite (leb_true (proj1 Hazi)), (ltb_true (proj2 Hazi)).
    cbn [andb GeodesicLine.bind]. exact Hp. }
  destruct (circle_loop_nth this lat1 (GeoMath.angNormalize lon1) A s12 n
              0 Hp (j := 0)) as (v0 & Hv0 & Hn0th); [lia|].
  destruct (circle_loop_nth this lat1 (GeoMath.angNormalize lon1) A s12 n
              0 Hp (j := n)) as (vn & Hvn & Hnth); [lia|].
  cbn [Nat.add] in Hv0, Hvn. ideal.
  assert (E0 : (if Ideal.leb 180
                     (A + (IZR (Z.of_nat n) - IZR (Z.of_nat 0)) * 360 /
                          IZR (Z.of_nat n))
                then (A + (IZR (Z.of_nat n) - IZR (Z.of_nat 0)) * 360 /
                          IZR (Z.of_nat n) - 360)%R
                else (A + (IZR (Z.of_nat n) - IZR (Z.of_nat 0)) * 360 /
                          IZR (Z.of_nat n))%R) = A).
  { replace (A + (IZR (Z.of_nat n) - IZR (Z.of_nat 0)) * 360 /
                 IZR (Z.of_nat n))%R with (A + 360)%R
      by (cbn [Z.of_nat]; field; lra).
    rewrite leb_true by lra. ring. }
  assert (En : (if Ideal.leb 180
                     (A + (IZR (Z.of_nat n) - IZR (Z.of_nat n)) * 360 /
                          IZR (Z.of_nat n))
                then (A + (IZR (Z.of_nat n) - IZR (Z.of_nat n)) * 360 /
                          IZR (Z.of_nat n) - 360)%R
                else (A + (IZR (Z.of_nat n) - IZR (Z.of_nat n)) * 360 /
                          IZR (Z.of_nat n))%R) = A).
  { replace (A + (IZR (Z.of_nat n) - IZR (Z.of_nat n)) * 360 /
                 IZR (Z.of_nat n))%R with A by (field; lra).
    rewrite leb_false by lra. reflexivity. }
  rewrite E0 in Hv0. rewrite En in Hvn.
  assert (vn = v0) by congruence. subst vn.
  exists v0. split; [exact Hc|]. split; [exact Hv0|].
  split; [exact Hn0th|]. now rewrite Hnth, Hn0th.
Qed.

Lemma circle_closed_witness :
  exists points,
    Interface.circle (Interface.mk sphere) 0%R 0%R 0%R 1%R 6 = Ok points /\
    nth_error points 6 = nth_error points 0.
Proof.
  assert (H1 : (Rabs 0 <= 90)%R) by (rewrite Rabs_R0; lra).
  assert (H2 : (-540 <= 0 < 540)%R) by lra.
  destruct (@circle_closed (Interface.mk sphere) 0%R 0%R 0%R 1%R 6 eq_refl
              H1 H2 H2)
    as (points & vals & Hc & _ & _ & Hn).
  exists points. split; [exact Hc | exact Hn].
Defined.

(** ** Over the reals: arcs and distances on a sphere *)

(** A sine series of order 2 whose two coefficients are 0. *)
Lemma sine_series_zero (sinx cosx : R) (c : list R) :
  aget c 1 = 0%R -> aget c 2 = 0%R ->
  Geodesic.SinCosSeries true sinx cosx c 2 = 0%R.
Proof.
  intros H1 H2. unfold Geodesic.SinCosSeries.
  cbn [Nat.odd Nat.even Nat.div2 Nat.add Geodesic.SinCosSeries_loop pred negb].
  rewrite H1, H2. ideal. ring.
Qed.

Lemma C1f_zero (c : list R) :
  aget (Geodesic.C1f 0%R c) 1 = 0%R /\ aget (Geodesic.C1f 0%R c) 2 = 0%R.
Proof.
  unfold Geodesic.C1f, GeoMath.sq. cbv zeta. ideal.
  rewrite !(@aget_aset_other R _ _ 6 1), !(@aget_aset_other R _ _ 5 1),
    !(@aget_aset_other R _ _ 4 1), !(@aget_aset_other R _ _ 3 1),
    !(@aget_aset_other R _ _ 2 1) by lia.
  rewrite !(@aget_aset_other R _ _ 6 2), !(@aget_aset_other R _ _ 5 2),
    !(@aget_aset_other R _ _ 4 2), !(@aget_aset_other R _ _ 3 2) by lia.
  rewrite !aget_aset_same. split; field.
Qed.

Lemma C1pf_zero (c : list R) :
  aget (Geodesic.C1pf 0%R c) 1 = 0%R /\ aget (Geodesic.C1pf 0%R c) 2 = 0%R.
Proof.
  unfold Geodesic.C1pf, GeoMath.sq. cbv zeta. ideal.
  rewrite !(@aget_aset_other R _ _ 6 1), !(@aget_aset_other R _ _ 5 1),
    !(@aget_aset_other R _ _ 4 1), !(@aget_aset_other R _ _ 3 1),
    !(@aget_aset_other R _ _ 2 1) by lia.
  rewrite !(@aget_aset_other R _ _ 6 2), !(@aget_aset_other R _ _ 5 2),
    !(@aget_aset_other R _ _ 4 2), !(@aget_aset_other R _ _ 3 2) by lia.
  rewrite !aget_aset_same. split; field.
Qed.

Section OnSphere.

Variable l : GeodesicLine.t R.
Variables c1 c1p c2 c3 c4 : list R.

Hypothesis Hcaps : GeodesicLine._caps l = GeodesicMask.ALL.
Hypothesis Hf : GeodesicLine._f l = 0%R.
Hypothesis HA1 : GeodesicLine._A1m1 l = Some 0%R.
Hypothesis HB11 : GeodesicLine._B11 l = Some 0%R.
Hypothesis HC1 : GeodesicLine._C1a l = Some c1.
Hypothesis Hc1 : aget c1 1 = 0%R /\ aget c1 2 = 0%R.
Hypothesis HC1p : GeodesicLine._C1pa l = Some c1p.
Hypothesis Hc1p : aget c1p 1 = 0%R /\ aget c1p 2 = 0%R.
Hypothesis HC2 : GeodesicLine._C2a l = Some c2.
Hypothesis HC3 : GeodesicLine._C3a l = Some c3.
Hypothesis HC4 : GeodesicLine._C4a l = Some c4.

Lemma sphere_position_fields (arcmode : bool) (v : R) (outmask : Z) :
  exists lon2 lat2 azi2 m12 M12 M21 S12,
    GeodesicLine.GenPosition l arcmode v outmask =
    Ok (GeodesicLine.mkPosition
          (if arcmode then v else (v / GeodesicLine._b l / (PI / 180))%R)
          (if Z.testbit outmask 10
           then if arcmode then (GeodesicLine._b l * (v * (PI / 180)))%R
                else v
           else 0%R)
          lon2 lat2 azi2 m12 M12 M21 S12).
Proof.
  unfold GeodesicLine.GenPosition.
  rewrite distance_in_bit, Hcaps.
  change (Z.testbit GeodesicMask.ALL 11) with true. rewrite orb_true_r.
  cbn [negb].
  rewrite !has_lor, om_distance, om_longitude, om_latitude, om_azimuth,
    om_reducedlength, om_geodesicscale, om_area.
  change (Z.testbit GeodesicMask.ALL 7) with true.
  change (Z.testbit GeodesicMask.ALL 8) with true.
  change (Z.testbit GeodesicMask.ALL 9) with true.
  change (Z.testbit GeodesicMask.ALL 10) with true.
  change (Z.testbit GeodesicMask.ALL 12) with true.
  change (Z.testbit GeodesicMask.ALL 13) with true.
  change (Z.testbit GeodesicMask.ALL 14) with true.
  rewrite !andb_true_r.
  rewrite HA1, HB11, HC1, HC1p, HC2, HC3, HC4, Hf.
  unfold GeodesicLine.series, GeodesicLine.val, GeoMath.degree, GeoMath.sq.
  change Accuracy.nc1 with 2%nat. change Accuracy.nc1p with 2%nat.
  ideal. rewrite Rabs_R0. rewrite (@ltb_false (1 / 100)%R 0%R) by lra.
  rewrite orb_false_r.
  destruct arcmode; cbn [GeodesicLine.bind];
    rewrite ?(sine_series_zero _ _ _ (proj1 Hc1p) (proj2 Hc1p));
    cbn [GeodesicLine.bind];
    rewrite ?(sine_series_zero _ _ _ (proj1 Hc1) (proj2 Hc1)).
  all: destruct (Z.testbit outmask 10), (Z.testbit outmask 12),
    (Z.testbit outmask 13), (Z.testbit outmask 8), (Z.testbit outmask 14);
    cbn [orb GeodesicLine.bind];
    repeat match goal with
           | |- context [match (if ?b then _ else _) with (_, _) => _ end] =>
               destruct b
           end;
    cbn [GeodesicLine.bind];
    do 7 eexists; apply f_equal; (apply position_eq; try reflexivity).
  all: try (unfold Rdiv; ring).
  all: replace (GeodesicLine._b l * (1 + 0))%R with (GeodesicLine._b l)
         by ring; unfold Rdiv; ring.
Qed.

End OnSphere.

Lemma eps_zero (x : R) :
  (x * 0 / (2 * (1 + sqrt (1 + x * 0)) + x * 0))%R = 0%R.
Proof. unfold Rdiv. ring. Qed.

(** X22: over the reals, on a sphere of radius [a] arc and distance are
    proportional.  On a ray with every capability a query always returns:
    in arc mode the arc [v] (degrees) as [a12] and, under DISTANCE, the
    distance [a v pi / 180]; in distance mode the arc [v / a] turned to
    degrees as [a12] and, under DISTANCE, [v] itself as [s12]. *)
Theorem sphere_arc_distance (a : R) (g : Geodesic.t R) (lat1 lon1 azi1 : R)
    (arcmode : bool) (v : R) (outmask : Z) :
  Geodesic.new a 0%R = Ok g ->
  exists r,
    GeodesicLine.GenPosition (GeodesicLine.new g lat1 lon1 azi1 0) arcmode v
      outmask = Ok r /\
    GeodesicLine.pos_a12 r =
      (if arcmode then v else (v / a / (PI / 180))%R) /\
    GeodesicLine.pos_s12 r =
      (if Z.testbit outmask 10
       then if arcmode then (a * (v * (PI / 180)))%R else v
       else 0%R).
Proof.
  intros Hg.
  pose proof (@new_value a 0%R g Hg) as Hv. cbv zeta in Hv.
  destruct (Rle_dec 0 1) as [_|Hn]; [|lra].
  assert (Hep2 : Geodesic._ep2 g = 0%R) by (rewrite Hv; cbn; field).
  assert (Hfg : Geodesic._f g = 0%R) by (rewrite Hv; reflexivity).
  assert (Hb : Geodesic._b g = a) by (rewrite Hv; cbn; ring).
  set (l := GeodesicLine.new g lat1 lon1 azi1 0).
  assert (Hbl : GeodesicLine._b l = a) by exact Hb.
  assert (H : exists c1 c1p c2 c3 c4,
             GeodesicLine._A1m1 l = Some 0%R /\
             GeodesicLine._B11 l = Some 0%R /\
             GeodesicLine._C1a l = Some c1 /\
             (aget c1 1 = 0%R /\ aget c1 2 = 0%R) /\
             GeodesicLine._C1pa l = Some c1p /\
             (aget c1p 1 = 0%R /\ aget c1p 2 = 0%R) /\
             GeodesicLine._C2a l = Some c2 /\
             GeodesicLine._C3a l = Some c3 /\
             GeodesicLine._C4a l = Some c4).
  { unfold l, GeodesicLine.new.
    cbn [GeodesicLine._A1m1 GeodesicLine._B11 GeodesicLine._C1a
         GeodesicLine._C1pa GeodesicLine._C2a GeodesicLine._C3a
         GeodesicLine._C4a].
    change (has (if (0 =? 0)%Z then GeodesicMask.ALL else _)
                GeodesicMask.CAP_C1) with true.
    change (has (if (0 =? 0)%Z then GeodesicMask.ALL else _)
                GeodesicMask.CAP_C1p) with true.
    change (has (if (0 =? 0)%Z then GeodesicMask.ALL else _)
                GeodesicMask.CAP_C2) with true.
    change (has (if (0 =? 0)%Z then GeodesicMask.ALL else _)
                GeodesicMask.CAP_C3) with true.
    change (has (if (0 =? 0)%Z then GeodesicMask.ALL else _)
                GeodesicMask.CAP_C4) with true.
    cbv beta iota. rewrite Hep2. ideal. rewrite !eps_zero.
    do 5 eexists.
    split; [f_equal; apply A1m1f_0|].
    split; [f_equal; change Accuracy.nc1 with 2%nat;
            apply sine_series_zero; apply C1f_zero|].
    split; [reflexivity|]. split; [apply C1f_zero|].
    split; [reflexivity|]. split; [apply C1pf_zero|].
    repeat split; reflexivity. }
  destruct H as (c1 & c1p & c2 & c3 & c4 & HA1 & HB11 & HC1 & Hc1 & HC1p &
                 Hc1p & HC2 & HC3 & HC4).
  destruct (@sphere_position_fields l c1 c1p c2 c3 c4 eq_refl Hfg HA1 HB11
              HC1 Hc1 HC1p Hc1p HC2 HC3 HC4 arcmode v outmask)
    as (lon2 & lat2 & azi2 & m12 & M12 & M21 & S12 & Hr).
  eexists. split; [exact Hr|].
  cbn [GeodesicLine.pos_a12 GeodesicLine.pos_s12]. rewrite Hbl.
  split; reflexivity.
Qed.

Lemma C2f_zero (c : list R) :
  aget (Geodesic.C2f 0%R c) 1 = 0%R /\ aget (Geodesic.C2f 0%R c) 2 = 0%R.
Proof.
  unfold Geodesic.C2f, GeoMath.sq. cbv zeta. ideal.
  rewrite !(@aget_aset_other R _ _ 6 1), !(@aget_aset_other R _ _ 5 1),
    !(@aget_aset_other R _ _ 4 1), !(@aget_aset_other R _ _ 3 1),
    !(@aget_aset_other R _ _ 2 1) by lia.
  rewrite !(@aget_aset_other R _ _ 6 2), !(@aget_aset_other R _ _ 5 2),
    !(@aget_aset_other R _ _ 4 2), !(@aget_aset_other R _ _ 3 2) by lia.
  rewrite !aget_aset_same. split; field.
Qed.

(** On a sphere the sums of [Lengths] are the arc and its sine. *)
Lemma Lengths_sphere (g : Geodesic.t R)
    (sig12 ssig1 csig1 ssig2 csig2 cbet1 cbet2 : R) (scalep : bool)
    (C1a C2a : list R) :
  let nvals := Geodesic.Lengths g 0%R sig12 ssig1 csig1 1%R ssig2 csig2 1%R
                 cbet1 cbet2 scalep C1a C2a in
  Geodesic.L_s12b nvals = sig12 /\
  Geodesic.L_m12b nvals = (csig1 * ssig2 - ssig1 * csig2)%R.
Proof.
  unfold Geodesic.Lengths. cbv zeta.
  change Accuracy.nc1 with 2%nat. change Accuracy.nc2 with 2%nat.
  rewrite !(sine_series_zero _ _ _ (proj1 (C1f_zero C1a))
              (proj2 (C1f_zero C1a))).
  rewrite !(sine_series_zero _ _ _ (proj1 (C2f_zero C2a))
              (proj2 (C2f_zero C2a))).
  rewrite A1m1f_0, A2m1f_0.
  destruct scalep; cbn [Geodesic.L_m12b Geodesic.L_s12b]; ideal; split; ring.
Qed.

(** Reduced latitudes on a sphere, in the canonical configuration. *)
Lemma reduced_sphere (g : Geodesic.t R) (L1 L2 : R) :
  Geodesic._f1 g = 1%R -> Geodesic._ep2 g = 0%R ->
  (-90 < L1 <= 0)%R -> (Rabs L2 <= - L1)%R ->
  Geodesic.reduced g L1 L2 0%R =
  Geodesic.mkReduced (sin (L1 * (PI / 180))) (cos (L1 * (PI / 180)))
    (sin (L2 * (PI / 180))) (cos (L2 * (PI / 180))) 1%R 1%R 0%R 0%R 1%R.
Proof.
  intros Hf1 Hep2 HL1 HL2. pose proof PI_RGT_0 as Hpi.
  assert (HL2' : (-90 < L2 < 90)%R).
  { revert HL2. unfold Rabs. destruct (Rcase_abs L2); lra. }
  unfold Geodesic.reduced, GeoMath.degree, GeoMath.sq. ideal.
  rewrite Hf1, Hep2.
  rewrite (@eqb_false L1 (-90)%R) by lra.
  rewrite (@eqb_false (Rabs L2) 90%R)
    by (unfold Rabs; destruct (Rcase_abs L2); lra).
  set (p1 := (L1 * (PI / 180))%R). set (p2 := (L2 * (PI / 180))%R).
  assert (Hh : forall p, GeoMath.hypot (1 * sin p)%R (cos p) = 1%R).
  { intros p. rewrite hypot_real.
    replace (1 * sin p * (1 * sin p) + cos p * cos p)%R
      with ((sin p)² + (cos p)²)%R by (unfold Rsqr; ring).
    rewrite sin2_cos2. apply sqrt_1. }
  rewrite !Hh.
  replace (1 * sin p1 / 1)%R with (sin p1) by field.
  replace (1 * sin p2 / 1)%R with (sin p2) by field.
  replace (cos p1 / 1)%R with (cos p1) by field.
  replace (cos p2 / 1)%R with (cos p2) by field.
  replace (0 * (PI / 180))%R with 0%R by ring. rewrite sin_0, cos_0.
  rewrite (@eqb_false 0%R 180%R) by lra.
  replace (1 + 0 * (sin p1 * sin p1))%R with 1%R by ring.
  replace (1 + 0 * (sin p2 * sin p2))%R with 1%R by ring.
  rewrite sqrt_1.
  assert (Hc1 : (0 < cos p1)%R) by (apply cos_gt_0; unfold p1; nra).
  assert (Hc2 : (0 < cos p2)%R) by (apply cos_gt_0; unfold p2; nra).
  assert (Hs1 : (sin p1 <= 0)%R).
  { destruct (Req_dec_T L1 0) as [E|E].
    - unfold p1. rewrite E, Rmult_0_l, sin_0. lra.
    - apply Rlt_le, sin_lt_0_var; unfold p1; nra. }
  pose proof (sin2_cos2 p1) as H1. pose proof (sin2_cos2 p2) as H2.
  unfold Rsqr in H1, H2.
  unfold Ideal.ltb, Ideal.eqb.
  destruct (Rlt_dec (cos p1) (- sin p1)).
  - destruct (Req_dec_T (cos p2) (cos p1)) as [E|E];
      [destruct (Rlt_dec (sin p2) 0)|];
      rewrite ?Rmult_0_l, ?Rplus_0_r, ?sqrt_1; f_equal; nra.
  - destruct (Req_dec_T (Rabs (sin p2)) (- sin p1)) as [E|E];
      rewrite ?Rmult_0_l, ?Rplus_0_r, ?sqrt_1; [|reflexivity].
    f_equal. revert E. unfold Rabs. destruct (Rcase_abs (sin p2)); nra.
Qed.

Lemma solve_sphere_meridian (g : Geodesic.t R) (L1 L2 : R) (outmask : Z) :
  Geodesic._f1 g = 1%R -> Geodesic._ep2 g = 0%R -> Geodesic._n g = 0%R ->
  (-90 < L1 <= 0)%R -> (Rabs L2 <= - L1)%R ->
  exists r s,
    Geodesic.solve g L1 L2 0%R outmask = (r, s, []) /\
    Geodesic.s_s12x s = ((L2 - L1) * (PI / 180) * Geodesic._b g)%R /\
    Geodesic.s_a12 s = (L2 - L1)%R.
Proof.
  intros Hf1 Hep2 Hn HL1 HL2. pose proof PI_RGT_0 as Hpi.
  assert (HL2' : (L1 <= L2 <= - L1)%R).
  { revert HL2. unfold Rabs. destruct (Rcase_abs L2); lra. }
  unfold Geodesic.solve. cbv zeta.
  rewrite (@reduced_sphere g L1 L2 Hf1 Hep2 HL1 HL2).
  cbn [Geodesic.r_slam12]. ideal.
  rewrite (eqb_true (eq_refl 0%R)), orb_true_r.
  unfold Geodesic.meridional. cbv zeta.
  cbn [Geodesic.r_clam12 Geodesic.r_slam12 Geodesic.r_sbet1 Geodesic.r_sbet2
       Geodesic.r_cbet1 Geodesic.r_cbet2 Geodesic.r_dn1 Geodesic.r_dn2].
  rewrite Hn. ideal.
  set (p1 := (L1 * (PI / 180))%R). set (p2 := (L2 * (PI / 180))%R).
  set (C1a := new_Array (Accuracy.nc1 + 1)).
  set (C2a := new_Array (Accuracy.nc2 + 1)).
  set (scalep := has outmask GeodesicMask.GEODESICSCALE).
  replace (1 * cos p1 * sin p2 - sin p1 * (1 * cos p2))%R
    with (sin (p2 - p1)) by (rewrite sin_minus; ring).
  replace (1 * cos p1 * (1 * cos p2) + sin p1 * sin p2)%R
    with (cos (p2 - p1)) by (rewrite cos_minus; ring).
  assert (Hd : (0 <= p2 - p1 < PI)%R) by (unfold p1, p2; nra).
  assert (Hsin : (0 <= sin (p2 - p1))%R) by (apply sin_ge_0; lra).
  rewrite Rmax_left by assumption.
  rewrite atan2_sin_cos by lra.
  destruct (Lengths_sphere g (p2 - p1) (sin p1) (1 * cos p1) (sin p2)
              (1 * cos p2) (cos p1) (cos p2) scalep C1a C2a) as [Hs12 Hm12].
  cbv zeta in Hs12, Hm12. rewrite Hs12, Hm12.
  replace (1 * cos p1 * sin p2 - sin p1 * (1 * cos p2))%R
    with (sin (p2 - p1)) by (rewrite sin_minus; ring).
  rewrite (leb_true Hsin), orb_true_r.
  cbn [Geodesic.s_meridian negb andb].
  eexists _, _. split; [reflexivity|].
  cbn [Geodesic.s_s12x Geodesic.s_a12]. unfold GeoMath.degree. ideal.
  unfold p1, p2. split; [ring | field; lra].
Qed.

Lemma meridian_on_sphere (a : R) (g : Geodesic.t R) (lat1 lat2 lon : R)
    (outmask : Z) :
  Geodesic.new a 0%R = Ok g ->
  (Rabs lat1 < 90)%R -> (Rabs lat2 < 90)%R ->
  let vals := Geodesic.GenInverse g lat1 lon lat2 lon outmask in
  Geodesic.inv_a12 vals = Rabs (lat2 - lat1) /\
  Geodesic.inv_s12 vals =
    (if Z.testbit outmask 10
     then a * (Rabs (lat2 - lat1) * (PI / 180)) else 0)%R.
Proof.
  intros Hg H1 H2 vals. subst vals.
  pose proof (@new_value a 0%R g Hg) as Hv. cbv zeta in Hv.
  destruct (Rle_dec 0 1) as [_|Hn]; [|lra].
  assert (Hep2 : Geodesic._ep2 g = 0%R) by (rewrite Hv; cbn; field).
  assert (Hf1 : Geodesic._f1 g = 1%R) by (rewrite Hv; cbn; ring).
  assert (Hn : Geodesic._n g = 0%R) by (rewrite Hv; cbn; field).
  assert (Hb : Geodesic._b g = a) by (rewrite Hv; cbn; ring).
  unfold Geodesic.GenInverse, Geodesic.GenInverse_run.
  rewrite canonical_real. cbv zeta. rewrite lon_difference_same.
  destruct (Rle_dec 0 0) as [_|Hn0]; [|lra].
  assert (Hall : forall L1 L2 swapp lonsign latsign,
            (-90 < L1 <= 0)%R -> (Rabs L2 <= - L1)%R ->
            (L2 - L1 = Rabs (lat2 - lat1))%R ->
            let c := Geodesic.mkCanon L1 L2 (0 * 1)%R swapp lonsign latsign in
            let vals :=
              fst (let '(r, s, steps) :=
                     Geodesic.solve g (Geodesic.c_lat1 c) (Geodesic.c_lat2 c)
                       (Geodesic.c_lon12 c)
                       (Z.land outmask GeodesicMask.OUT_ALL) in
                   (Geodesic.outputs g c r s
                      (Z.land outmask GeodesicMask.OUT_ALL), steps)) in
            Geodesic.inv_a12 vals = Rabs (lat2 - lat1) /\
            Geodesic.inv_s12 vals =
              (if Z.testbit outmask 10
               then a * (Rabs (lat2 - lat1) * (PI / 180)) else 0)%R).
  { intros L1 L2 swapp lonsign latsign HL1 HL2 Hd c vals'. subst vals' c.
    cbn [Geodesic.c_lat1 Geodesic.c_lat2 Geodesic.c_lon12].
    replace (0 * 1)%R with 0%R by ring.
    destruct (@solve_sphere_meridian g L1 L2
                (Z.land outmask GeodesicMask.OUT_ALL) Hf1 Hep2 Hn HL1 HL2) as (r & s & Hsol & Hs12 & Ha12).
    rewrite Hsol. cbn [fst]. unfold Geodesic.outputs. cbv zeta.
    cbn [Geodesic.c_swapp Geodesic.c_lonsign Geodesic.c_latsign].
    rewrite inv_distance, Hs12, Ha12, Hb, Hd. ideal.
    destruct (Ideal.ltb swapp 0);
      cbn [Geodesic.inv_a12 Geodesic.inv_s12]; (split; [reflexivity|]);
      destruct (Z.testbit outmask 10); ring. }
  assert (B1 : (-90 < lat1 < 90)%R)
    by (revert H1; unfold Rabs; destruct (Rcase_abs lat1); lra).
  assert (B2 : (-90 < lat2 < 90)%R)
    by (revert H2; unfold Rabs; destruct (Rcase_abs lat2); lra).
  destruct (Rle_dec (Rabs lat2) (Rabs lat1)) as [Hle|Hgt].
  - apply Hall.
    + destruct (Rlt_dec lat1 0); lra.
    + revert Hle. unfold Rabs.
      destruct (Rcase_abs lat2), (Rcase_abs lat1), (Rlt_dec lat1 0);
        destruct (Rcase_abs (lat2 * 1)), (Rcase_abs (lat2 * -1)); lra.
    + revert Hle. unfold Rabs.
      destruct (Rcase_abs lat2), (Rcase_abs lat1), (Rlt_dec lat1 0),
        (Rcase_abs (lat2 - lat1)); lra.
  - apply Hall.
    + destruct (Rlt_dec lat2 0); lra.
    + revert Hgt. unfold Rabs.
      destruct (Rcase_abs lat2), (Rcase_abs lat1), (Rlt_dec lat2 0);
        destruct (Rcase_abs (lat1 * 1)), (Rcase_abs (lat1 * -1)); lra.
    + revert Hgt. unfold Rabs.
      destruct (Rcase_abs lat2), (Rcase_abs lat1), (Rlt_dec lat2 0),
        (Rcase_abs (lat2 - lat1)); lra.
Qed.


(** ** Over the reals: north along a meridian of a sphere, and back *)

Section NorthOnSphere.

Variable l : GeodesicLine.t R.
Variables c1 c1p c3 : list R.
Variables a phi sigma : R.

Hypothesis Hcaps : GeodesicLine._caps l = stored_caps direct_caps.
Hypothesis Hf : GeodesicLine._f l = 0%R.
Hypothesis Hf1 : GeodesicLine._f1 l = 1%R.
Hypothesis Hb : GeodesicLine._b l = a.
Hypothesis HA1 : GeodesicLine._A1m1 l = Some 0%R.
Hypothesis HB11 : GeodesicLine._B11 l = Some 0%R.
Hypothesis HC1 : GeodesicLine._C1a l = Some c1.
Hypothesis HC1p : GeodesicLine._C1pa l = Some c1p.
Hypothesis Hc1p : aget c1p 1 = 0%R /\ aget c1p 2 = 0%R.
Hypothesis Hst : GeodesicLine._stau1 l = Some (sin phi).
Hypothesis Hct : GeodesicLine._ctau1 l = Some (cos phi).
Hypothesis HC3 : GeodesicLine._C3a l = Some c3.
Hypothesis HA3 : GeodesicLine._A3c l = Some 0%R.
Hypothesis Hsalp0 : GeodesicLine._salp0 l = 0%R.
Hypothesis Hcalp0 : GeodesicLine._calp0 l = 1%R.
Hypothesis Hssig1 : GeodesicLine._ssig1 l = sin phi.
Hypothesis Hcsig1 : GeodesicLine._csig1 l = cos phi.
Hypothesis Hsomg1 : GeodesicLine._somg1 l = 0%R.
Hypothesis Hcomg1 : GeodesicLine._comg1 l = cos phi.
Hypothesis Hphi : (- (PI / 2) < phi < PI / 2)%R.
Hypothesis Htheta : (- (PI / 2) < phi + sigma < PI / 2)%R.
Hypothesis Hlon : (-180 <= GeodesicLine._lon1 l < 180)%R.

Lemma north_position (s : R) :
  (s / a = sigma)%R ->
  GeodesicLine.GenPosition l false s direct_mask =
  Ok (GeodesicLine.mkPosition (sigma / (PI / 180))%R 0%R
        (GeodesicLine._lon1 l) ((phi + sigma) / (PI / 180))%R 0%R 0%R 0%R 0%R
        None).
Proof.
  intros Hs. pose proof PI_RGT_0 as Hpi.
  unfold GeodesicLine.GenPosition.
  rewrite distance_in_bit, Hcaps.
  change (Z.testbit (stored_caps direct_caps) 11) with true.
  cbn [orb negb].
  rewrite !has_lor, om_distance, om_longitude, om_latitude, om_azimuth,
    om_reducedlength, om_geodesicscale, om_area.
  repeat match goal with
         | |- context [Z.testbit ?m ?k] =>
             let b := eval vm_compute in (Z.testbit m k) in
             change (Z.testbit m k) with b
         end.
  cbn [andb orb].
  rewrite HA1, HB11, HC1p, HC3, HA3, Hf, Hst, Hct.
  unfold GeodesicLine.series, GeodesicLine.val, GeoMath.degree, GeoMath.sq.
  change Accuracy.nc1p with 2%nat.
  rewrite !(sine_series_zero _ _ _ (proj1 Hc1p) (proj2 Hc1p)).
  ideal. rewrite Rabs_R0, (@ltb_false (1 / 100)%R 0%R) by lra.
  cbn [GeodesicLine.bind].
  rewrite Hb, Hssig1, Hcsig1, Hsalp0, Hcalp0, Hsomg1, Hcomg1, Hf1.
  replace (s / (a * (1 + 0)) - (- 0 - 0))%R with sigma
    by (rewrite <- Hs; unfold Rdiv; replace (a * (1 + 0))%R with a by ring;
        ring).
  replace (sin phi * cos sigma + cos phi * sin sigma)%R
    with (sin (phi + sigma)) by (rewrite sin_plus; ring).
  replace (cos phi * cos sigma - sin phi * sin sigma)%R
    with (cos (phi + sigma)) by (rewrite cos_plus; ring).
  assert (Hc : (0 < cos (phi + sigma))%R) by (apply cos_gt_0; lra).
  assert (Hcp : (0 < cos phi)%R) by (apply cos_gt_0; lra).
  assert (Hh : GeoMath.hypot 0%R (1 * cos (phi + sigma))%R =
               cos (phi + sigma)).
  { rewrite hypot_real.
    replace (0 * 0 + 1 * cos (phi + sigma) * (1 * cos (phi + sigma)))%R
      with (cos (phi + sigma) * cos (phi + sigma))%R by ring.
    apply sqrt_square. lra. }
  rewrite Hh. rewrite (@eqb_false (cos (phi + sigma)) 0%R) by lra.
  replace (0 * sin (phi + sigma) * cos phi - cos (phi + sigma) * 0)%R
    with 0%R by ring.
  rewrite atan2_zero by nra.
  replace ((0 + 0 * (sigma + (_ - _))) / (PI / 180))%R with 0%R
    by (unfold Rdiv; ring).
  rewrite angNormalize2_0.
  assert (Hlon2 : GeoMath.angNormalize (GeodesicLine._lon1 l + 0)%R =
                  GeodesicLine._lon1 l).
  { rewrite Rplus_0_r, angNormalize_cases.
    destruct (Rle_dec 180 (GeodesicLine._lon1 l)); [lra|].
    destruct (Rlt_dec (GeodesicLine._lon1 l) (-180)); [lra|reflexivity]. }
  rewrite Hlon2. cbn [GeodesicLine.bind].
  replace (1 * sin (phi + sigma))%R with (sin (phi + sigma)) by ring.
  replace (1 * cos (phi + sigma))%R with (cos (phi + sigma)) by ring.
  rewrite atan2_sin_cos by lra.
  rewrite Ropp_0, atan2_zero by lra.
  f_equal. apply position_eq; try reflexivity. unfold Rdiv. ring.
Qed.

End NorthOnSphere.

Lemma inverse_distance (g : Geodesic.t R) (c1 c2 : list R) :
  Interface.distance (Interface.inverse (Interface.mk g) c1 c2 None) =
  Geodesic.inv_s12
    (Geodesic.GenInverse g (aget c1 1) (aget c1 0) (aget c2 1) (aget c2 0)
       (Z.lor GeodesicMask.DISTANCE GeodesicMask.AZIMUTH)).
Proof. reflexivity. Qed.

Lemma north_on_sphere (a : R) (g : Geodesic.t R) (lat lon s : R) :
  Geodesic.new a 0%R = Ok g ->
  (Rabs lat < 90)%R -> (-180 <= lon < 180)%R ->
  (Rabs (lat + s / a / (PI / 180)) < 90)%R ->
  Interface.genDirect_ (Interface.mk g) lat lon 0%R false s direct_mask =
  Ok (GeodesicLine.mkPosition (s / a / (PI / 180))%R 0%R lon
        (lat + s / a / (PI / 180))%R 0%R 0%R 0%R 0%R None).
Proof.
  intros Hg Hlat Hlon Hlat2. pose proof PI_RGT_0 as Hpi.
  pose proof (@new_radius a 0%R g Hg) as Ha.
  pose proof (@new_value a 0%R g Hg) as Hv. cbv zeta in Hv.
  destruct (Rle_dec 0 1) as [_|Hn]; [|lra].
  assert (Hep2 : Geodesic._ep2 g = 0%R) by (rewrite Hv; cbn; field).
  assert (Hfg : Geodesic._f g = 0%R) by (rewrite Hv; reflexivity).
  assert (Hf1 : Geodesic._f1 g = 1%R) by (rewrite Hv; cbn; ring).
  assert (Hb : Geodesic._b g = a) by (rewrite Hv; cbn; ring).
  unfold Interface.genDirect_. cbn [Interface.geodesic_].
  change (Z.lor direct_mask GeodesicMask.DISTANCE_IN) with direct_caps.
  set (l := GeodesicLine.new g lat lon 0%R direct_caps).
  assert (Hazi : (-540 <= 0 < 540)%R) by lra.
  pose proof (@ray_fields g lat lon 0%R direct_caps Hlat Hazi) as HF.
  cbv zeta in HF. fold l in HF.
  assert (B : (-90 < lat < 90)%R)
    by (revert Hlat; unfold Rabs; destruct (Rcase_abs lat); lra).
  assert (B2 : (-90 < lat + s / a / (PI / 180) < 90)%R)
    by (revert Hlat2; unfold Rabs; destruct (Rcase_abs _); lra).
  set (phi := (lat * (PI / 180))%R) in *.
  assert (Hphi : (- (PI / 2) < phi < PI / 2)%R) by (unfold phi; nra).
  assert (Hcp : (0 < cos phi)%R) by (apply cos_gt_0; lra).
  assert (HA0 : GeoMath.angNormalize 0%R = 0%R).
  { rewrite angNormalize_cases.
    destruct (Rle_dec 180 0); [lra|]. destruct (Rlt_dec 0 (-180)); [lra|].
    reflexivity. }
  rewrite HA0, Hf1 in HF.
  replace (0 * (PI / 180))%R with 0%R in HF by ring.
  rewrite sin_0, cos_0 in HF.
  assert (Ht0 : sqrt (1 * sin phi * (1 * sin phi) + cos phi * cos phi) = 1%R).
  { replace (1 * sin phi * (1 * sin phi) + cos phi * cos phi)%R
      with ((sin phi)² + (cos phi)²)%R by (unfold Rsqr; ring).
    rewrite sin2_cos2. apply sqrt_1. }
  rewrite Ht0 in HF.
  replace (1 * sin phi / 1)%R with (sin phi) in HF by field.
  replace (cos phi / 1)%R with (cos phi) in HF by field.
  rewrite (@eqb_false 1%R 0%R) in HF by lra.
  rewrite orb_true_r in HF.
  replace (cos phi * 1)%R with (cos phi) in HF by ring.
  assert (Ht1 : sqrt (sin phi * sin phi + cos phi * cos phi) = 1%R).
  { replace (sin phi * sin phi + cos phi * cos phi)%R
      with ((sin phi)² + (cos phi)²)%R by (unfold Rsqr; ring).
    rewrite sin2_cos2. apply sqrt_1. }
  rewrite Ht1 in HF.
  destruct HF as (_ & _ & Hsalp0 & Hcalp0 & _ & Hsomg1 & Hcomg1 & Hssig1 &
                  Hcsig1 & _ & Hlon1 & _ & Hlf1).
  assert (Hcalp0' : GeodesicLine._calp0 l = 1%R).
  { rewrite Hcalp0.
    replace (1 * 1 + 0 * sin phi * (0 * sin phi))%R with 1%R by ring.
    apply sqrt_1. }
  assert (Hlon1' : GeodesicLine._lon1 l = lon).
  { rewrite Hlon1, angNormalize_cases.
    destruct (Rle_dec 180 lon); [lra|]. destruct (Rlt_dec lon (-180)); [lra|].
    reflexivity. }
  assert (H : exists c1 c1p c3,
             GeodesicLine._A1m1 l = Some 0%R /\
             GeodesicLine._B11 l = Some 0%R /\
             GeodesicLine._C1a l = Some c1 /\
             GeodesicLine._C1pa l = Some c1p /\
             (aget c1p 1 = 0%R /\ aget c1p 2 = 0%R) /\
             GeodesicLine._stau1 l = Some (sin phi) /\
             GeodesicLine._ctau1 l = Some (cos phi) /\
             GeodesicLine._C3a l = Some c3 /\
             GeodesicLine._A3c l = Some 0%R).
  { assert (E1 : GeodesicLine._ssig1 l = sin phi)
      by (rewrite Hssig1; field).
    assert (E2 : GeodesicLine._csig1 l = cos phi)
      by (rewrite Hcsig1; field).
    revert E1 E2. unfold l, GeodesicLine.new.
    cbn [GeodesicLine._A1m1 GeodesicLine._B11 GeodesicLine._C1a
         GeodesicLine._C1pa GeodesicLine._stau1 GeodesicLine._ctau1
         GeodesicLine._C3a GeodesicLine._A3c GeodesicLine._ssig1
         GeodesicLine._csig1].
    change (has (if (direct_caps =? 0)%Z then GeodesicMask.ALL else _)
                GeodesicMask.CAP_C1) with true.
    change (has (if (direct_caps =? 0)%Z then GeodesicMask.ALL else _)
                GeodesicMask.CAP_C1p) with true.
    change (has (if (direct_caps =? 0)%Z then GeodesicMask.ALL else _)
                GeodesicMask.CAP_C3) with true.
    cbv beta iota. rewrite Hep2, Hfg. ideal. rewrite !eps_zero.
    intros E1 E2. rewrite E1, E2.
    change Accuracy.nc1 with 2%nat.
    rewrite !(sine_series_zero _ _ _ (proj1 (C1f_zero _))
                (proj2 (C1f_zero _))).
    rewrite sin_0, cos_0.
    do 3 eexists.
    split; [f_equal; apply A1m1f_0|].
    split; [reflexivity|]. split; [reflexivity|]. split; [reflexivity|].
    split; [apply C1pf_zero|].
    split; [f_equal; ring|]. split; [f_equal; ring|].
    split; [reflexivity|]. f_equal. ring. }
  destruct H as (c1 & c1p & c3 & HA1 & HB11 & HC1 & HC1p & Hc1p & Hst & Hct &
                 HC3 & HA3).
  assert (Hsig : (- (PI / 2) < phi + s / a < PI / 2)%R).
  { replace (phi + s / a)%R
      with ((lat + s / a / (PI / 180)) * (PI / 180))%R
      by (unfold phi; field; lra).
    nra. }
  assert (E1 : GeodesicLine._ssig1 l = sin phi) by (rewrite Hssig1; field).
  assert (E2 : GeodesicLine._csig1 l = cos phi) by (rewrite Hcsig1; field).
  assert (E3 : GeodesicLine._salp0 l = 0%R) by (rewrite Hsalp0; ring).
  assert (E4 : GeodesicLine._somg1 l = 0%R) by (rewrite Hsomg1; ring).
  assert (Hl1 : (-180 <= GeodesicLine._lon1 l < 180)%R)
    by (rewrite Hlon1'; exact Hlon).
  rewrite (@north_position l c1p c3 a phi (s / a)%R);
    try eassumption; try reflexivity.
  rewrite Hlon1'. f_equal. apply position_eq; try reflexivity.
  unfold phi. field. lra.
Qed.

(** X23: over the reals, on a sphere of radius [a], a round trip along a
    meridian.  From a point of latitude strictly within 90 and longitude in
    [-180, 180), [direct] at bearing 0 over a distance [s] that does not
    reach a pole returns the same longitude and the latitude moved by
    [s / a] radians; and [inverse] between the start and that point
    returns the distance [|s|]. *)
Theorem sphere_round_trip (a : R) (g : Geodesic.t R) (lat lon s : R) :
  Geodesic.new a 0%R = Ok g ->
  (Rabs lat < 90)%R -> (-180 <= lon < 180)%R ->
  (Rabs (lat + s / a / (PI / 180)) < 90)%R ->
  let this := Interface.mk g in
  let lat2 := (lat + s / a / (PI / 180))%R in
  Interface.direct this [lon; lat] s 0%R None = Ok [lon; lat2] /\
  Interface.distance (Interface.inverse this [lon; lat] [lon; lat2] None) =
  Rabs s.
Proof.
  intros Hg Hlat Hlon Hlat2 this lat2. pose proof PI_RGT_0 as Hpi.
  pose proof (@new_radius a 0%R g Hg) as Ha.
  split.
  - unfold Interface.direct, Interface.or_default. cbv zeta.
    change (Z.lor (Z.lor GeodesicMask.LATITUDE GeodesicMask.LONGITUDE)
              GeodesicMask.AZIMUTH) with direct_mask.
    change (aget [lon; lat] 1) with lat. change (aget [lon; lat] 0) with lon.
    unfold this.
    rewrite (@north_on_sphere a g lat lon s Hg Hlat Hlon Hlat2). reflexivity.
  - unfold this. rewrite inverse_distance.
    change (aget [lon; lat] 1) with lat. change (aget [lon; lat] 0) with lon.
    change (aget [lon; lat2] 1) with lat2.
    change (aget [lon; lat2] 0) with lon.
    destruct (@meridian_on_sphere a g lat lat2 lon
                (Z.lor GeodesicMask.DISTANCE GeodesicMask.AZIMUTH) Hg Hlat
                Hlat2) as (_ & Hs).
    rewrite Hs.
    change (Z.testbit (Z.lor GeodesicMask.DISTANCE GeodesicMask.AZIMUTH) 10)
      with true. cbv iota.
    unfold lat2. replace (lat + s / a / (PI / 180) - lat)%R
      with (s * (/ a * / (PI / 180)))%R by (field; lra).
    rewrite Rabs_mult, (Rabs_pos_eq (/ a * / (PI / 180))).
    + field. lra.
    + apply Rlt_le, Rmult_lt_0_compat; apply Rinv_0_lt_compat; lra.
Qed.

(** X24: over the reals, on a sphere of radius [a], the inverse problem
    between two points of one meridian, both strictly between the poles:
    the arc [a12] is the difference of the latitudes, the distance [s12]
    is [a] times that arc in radians when DISTANCE is asked for and 0
    otherwise, and [inverse] of the interface returns that distance. *)
Theorem sphere_meridian (a : R) (g : Geodesic.t R) (lat1 lat2 lon : R)
    (outmask : Z) :
  Geodesic.new a 0%R = Ok g ->
  (Rabs lat1 < 90)%R -> (Rabs lat2 < 90)%R ->
  let vals := Geodesic.GenInverse g lat1 lon lat2 lon outmask in
  let arc := Rabs (lat2 - lat1) in
  Geodesic.inv_a12 vals = arc /\
  Geodesic.inv_s12 vals =
    (if Z.testbit outmask 10 then a * (arc * (PI / 180)) else 0)%R /\
  Interface.distance
    (Interface.inverse (Interface.mk g) [lon; lat1] [lon; lat2] None) =
  (a * (arc * (PI / 180)))%R.
Proof.
  intros Hg H1 H2 vals arc.
  destruct (@meridian_on_sphere a g lat1 lat2 lon outmask Hg H1 H2)
    as (Ha & Hs).
  split; [exact Ha|]. split; [exact Hs|].
  rewrite inverse_distance.
  exact (proj2 (@meridian_on_sphere a g lat1 lat2 lon
                  (Z.lor GeodesicMask.DISTANCE GeodesicMask.AZIMUTH)
                  Hg H1 H2)).
Qed.

Lemma sphere_meridian_witness :
  let vals := Geodesic.GenInverse sphere 10%R 20%R 40%R 20%R
                GeodesicMask.DISTANCE in
  Geodesic.inv_a12 vals = Rabs (40 - 10) /\
  Geodesic.inv_s12 vals =
    (if Z.testbit GeodesicMask.DISTANCE 10
     then 1 * (Rabs (40 - 10) * (PI / 180)) else 0)%R /\
  Interface.distance
    (Interface.inverse (Interface.mk sphere) [20%R; 10%R] [20%R; 40%R] None) =
  (1 * (Rabs (40 - 10) * (PI / 180)))%R.
Proof.
  apply (@sphere_meridian 1%R sphere 10%R 40%R 20%R GeodesicMask.DISTANCE
           new_sphere).
  - rewrite Rabs_pos_eq; lra.
  - rewrite Rabs_pos_eq; lra.
Defined.

Lemma sphere_arc_distance_witness :
  exists r,
    GeodesicLine.GenPosition (GeodesicLine.new sphere 10%R 20%R 30%R 0) false
      2%R GeodesicMask.DISTANCE = Ok r /\
    GeodesicLine.pos_a12 r = (2 / 1 / (PI / 180))%R /\
    GeodesicLine.pos_s12 r =
      (if Z.testbit GeodesicMask.DISTANCE 10 then 2 else 0)%R.
Proof.
  exact (@sphere_arc_distance 1%R sphere 10%R 20%R 30%R false 2%R
           GeodesicMask.DISTANCE new_sphere).
Defined.

Lemma one_radian_north : (Rabs (0 + 1 / 1 / (PI / 180)) < 90)%R.
Proof.
  pose proof PI_RGT_0 as Hpi. pose proof PI2_1 as H2.
  replace (0 + 1 / 1 / (PI / 180))%R with (180 / PI)%R by (field; lra).
  assert (H : (0 < 180 / PI < 90)%R).
  { split.
    - apply Rdiv_lt_0_compat; lra.
    - apply Rmult_lt_reg_r with PI; [lra|].
      unfold Rdiv. rewrite Rmult_assoc, Rinv_l by lra. lra. }
  rewrite Rabs_pos_eq; lra.
Qed.

Lemma sphere_round_trip_witness :
  let this := Interface.mk sphere in
  let lat2 := (0 + 1 / 1 / (PI / 180))%R in
  Interface.direct this [0%R; 0%R] 1%R 0%R None = Ok [0%R; lat2] /\
  Interface.distance (Interface.inverse this [0%R; 0%R] [0%R; lat2] None) =
  Rabs 1.
Proof.
  apply (@sphere_round_trip 1%R sphere 0%R 0%R 1%R new_sphere).
  - rewrite Rabs_R0. lra.
  - lra.
  - exact one_radian_north.
Defined.

(** ** On doubles: the code run *)

Set Warnings "-inexact-float".

(** Angles below 1/16 degree are rounded to a multiple of [2^-57]. *)
Example AngRound_double :
  @Geodesic.AngRound float Double.bare 0x1p-60%float = 0%float /\
  @Geodesic.AngRound float Double.bare (-90)%float = (-90)%float.
Proof. vm_compute. split; reflexivity. Qed.

(** An angle that fails the test [Math.abs(x) < 1/16] is returned as it is,
    whatever the host: infinities and NaN included. *)
Lemma AngRound_large_double (h : Double.Host) (x : float) :
  PrimFloat.ltb (PrimFloat.abs x) 0x1p-4%float = false ->
  @Geodesic.AngRound float (Double.number h) x = x.
Proof.
  intros Hx. unfold Geodesic.AngRound.
  cbn [of_Z nadd nsub nmul ndiv nneg nltb Math_abs Double.number].
  change (Double.literal 1 / Double.literal 16)%float with 0x1p-4%float.
  change (Double.literal 0) with PrimFloat.zero.
  rewrite Hx.
  apply Prim2SF_inj.
  rewrite ltb_spec in Hx. rewrite abs_spec in Hx.
  rewrite ltb_spec.
  destruct (Prim2SF x) as [s|s| |s m e] eqn:E.
  - exfalso. revert Hx. vm_compute. discriminate.
  - destruct s; cbn; rewrite ?opp_spec, abs_spec, E; reflexivity.
  - cbn. rewrite abs_spec, E. reflexivity.
  - destruct s; cbn; rewrite ?opp_spec, abs_spec, E; reflexivity.
Qed.

(** [sin theta = 0.6], [cos theta = 0.8], coefficients 1 and 2:
    [sin (2 theta) + 2 sin (4 theta) = 0.96 + 2 * 0.5376]. *)
Example SinCosSeries_double :
  PrimFloat.ltb
    (PrimFloat.abs
       (@Geodesic.SinCosSeries float Double.bare true 0.6 0.8 [0; 1; 2] 2 -
        2.0352)%float)
    0x1p-50%float = true.
Proof. vm_compute. reflexivity. Qed.

(** A distance query on a ray built from LATITUDE alone: [a12] is NaN. *)
Example GenPosition_unavailable_double :
  match @Geodesic.new float Double.bare 6378137%float
          (1 / 298.257223563)%float with
  | Ok g =>
      @GeodesicLine.GenPosition float Double.bare
        (@GeodesicLine.new float Double.bare g 0%float 0%float 0%float
           (GeodesicMask.mask [GeodesicMask.Latitude]))
        false 1000%float GeodesicMask.DISTANCE
  | Throw e => Throw e
  end = Ok (GeodesicLine.mkPosition PrimFloat.nan 0 0 0 0 0 0 0 None)%float.
Proof. vm_compute. reflexivity. Qed.

